(** * Ride-hailing dispatch backend: fare, ride lifecycle, matching, payment

    A shallow embedding of the service layer of the backend
    (rideService, tripService, matchingService, paymentService, the status
    update of driverService and the rate limiter middleware) together with
    the fragments of JavaScript, SQL and Redis semantics these services rely
    on, followed by the properties established about them. *)

From Stdlib Require Import QArith Qround Qabs ZArith List Bool Lia Lqa Sorted.
From Stdlib Require PrimFloat FloatOps SpecFloat Uint63.
From stdpp Require Import base option strings gmap.
Import ListNotations.

Local Open Scope string_scope.

(** ** JavaScript values

    JS numbers are IEEE doubles; they are idealised here as exact rationals,
    with [JNaN] kept apart.  Signed zeros and infinities are not represented.
    [JObj] is any function or plain object that has no numeric reading
    (the members of [Object.prototype]); [JText] is a non-empty string that
    is not a numeric literal. *)
Module JS.

Inductive jsval : Type :=
| JNum (q : Q)
| JNaN
| JUndefined
| JNull
| JObj
| JText.

(** ToNumber; [None] stands for NaN. *)
Definition to_number (v : jsval) : option Q :=
  match v with
  | JNum q => Some q
  | JNull => Some 0%Q
  | JNaN | JUndefined | JObj | JText => None
  end.

Definition Qeqb_zero (q : Q) : bool := Qeq_bool q 0.

(** ToBoolean. *)
Definition truthy (v : jsval) : bool :=
  match v with
  | JNum q => negb (Qeqb_zero q)
  | JNaN | JUndefined | JNull => false
  | JObj | JText => true
  end.

(** [a || b] *)
Definition jor (a b : jsval) : jsval := if truthy a then a else b.

Definition lift2 (f : Q -> Q -> Q) (a b : jsval) : jsval :=
  match to_number a, to_number b with
  | Some x, Some y => JNum (f x y)
  | _, _ => JNaN
  end.

(** [a * b] and [a - b] coerce both operands with ToNumber. *)
Definition jmul : jsval -> jsval -> jsval := lift2 Qmult.
Definition jsub : jsval -> jsval -> jsval := lift2 Qminus.

Definition stringish (v : jsval) : bool :=
  match v with
  | JObj | JText => true
  | _ => false
  end.

(** [a + b]: when either operand is an object or a string the result is the
    concatenation of their texts, which contains the non-numeric text of that
    operand; otherwise numeric addition. *)
Definition jadd (a b : jsval) : jsval :=
  if stringish a || stringish b then JText else lift2 Qplus a b.

(** [a / d] for a positive literal [d]. *)
Definition jdiv_lit (a : jsval) (d : positive) : jsval :=
  match to_number a with
  | Some x => JNum (x / inject_Z (Zpos d))
  | None => JNaN
  end.

(** [a > b]; any comparison with NaN is false. *)
Definition jgt (a b : jsval) : bool :=
  match to_number a, to_number b with
  | Some x, Some y => negb (Qle_bool x y)
  | _, _ => false
  end.

(** [Math.round]: nearest integer, ties towards +infinity. *)
Definition Math_round (v : jsval) : jsval :=
  match to_number v with
  | Some x => JNum (inject_Z (Qfloor (x + (1 # 2))))
  | None => JNaN
  end.

(** [Math.ceil] *)
Definition Math_ceil (v : jsval) : jsval :=
  match to_number v with
  | Some x => JNum (inject_Z (Qceiling x))
  | None => JNaN
  end.

(** Property names every object literal inherits from [Object.prototype]. *)
Definition object_prototype_keys : list string :=
  [ "constructor"; "__defineGetter__"; "__defineSetter__"; "hasOwnProperty";
    "__lookupGetter__"; "__lookupSetter__"; "isPrototypeOf";
    "propertyIsEnumerable"; "toString"; "valueOf"; "__proto__";
    "toLocaleString" ].

Definition inherited_key (k : string) : bool :=
  existsb (String.eqb k) object_prototype_keys.

(** Result of [obj[key]] on an object literal whose own properties have
    type [A]. *)
Inductive prop (A : Type) : Type :=
| Own (a : A)
| Inherited
| Absent.
Arguments Own {A} a.
Arguments Inherited {A}.
Arguments Absent {A}.

Fixpoint own_prop {A} (fields : list (string * A)) (k : string) : option A :=
  match fields with
  | [] => None
  | (k', a) :: rest => if String.eqb k k' then Some a else own_prop rest k
  end.

Definition get_prop {A} (fields : list (string * A)) (k : string) : prop A :=
  match own_prop fields k with
  | Some a => Own a
  | None => if inherited_key k then Inherited else Absent
  end.

(** ToPropertyKey of an argument that is a string or [undefined]. *)
Definition prop_key (k : option string) : string :=
  match k with
  | Some s => s
  | None => "undefined"
  end.

End JS.
Export JS.

(** ** Fare computation (tripService.calculateFare, rideService.calculateEstimatedFare) *)
Module Fare.

Record fare_config : Type := mkConfig {
  cfg_baseFare : Q;
  cfg_perKm : Q;
  cfg_perMin : Q
}.

Definition economy_config : fare_config := mkConfig 50 12 (3 # 2).
Definition premium_config : fare_config := mkConfig 100 18 (5 # 2).
Definition xl_config : fare_config := mkConfig 150 22 3.

Definition FARE_CONFIG : list (string * fare_config) :=
  [ ("economy", economy_config);
    ("premium", premium_config);
    ("xl", xl_config) ].

(** What [FARE_CONFIG[tier] || FARE_CONFIG.economy] evaluates to: one of the
    configuration objects, or a member of [Object.prototype] (truthy, so the
    fallback is not taken). *)
Inductive config_value : Type :=
| Config (c : fare_config)
| ProtoMember.

Definition select_config (tier : option string) : config_value :=
  match get_prop FARE_CONFIG (prop_key tier) with
  | Own c => Config c
  | Inherited => ProtoMember
  | Absent => Config economy_config
  end.

(** [config.field]: a missing property reads as [undefined]. *)
Definition cfg_field (f : fare_config -> Q) (v : config_value) : jsval :=
  match v with
  | Config c => JNum (f c)
  | ProtoMember => JUndefined
  end.

Record fare_breakdown : Type := mkFare {
  baseFare : jsval;
  distanceFare : jsval;
  timeFare : jsval;
  surgeFare : jsval;
  surgeMultiplier : jsval;
  taxes : jsval;
  subtotal : jsval;
  total : jsval;
  currency : string
}.

(** [calculateFare(tier, distanceKm, durationMins, surgeMultiplier = 1)]:
    the default applies when the last argument is [undefined]. *)
Definition calculateFare (tier : option string)
    (distanceKm durationMins surgeMultiplierArg : jsval) : fare_breakdown :=
  let surgeMultiplier :=
    match surgeMultiplierArg with JUndefined => JNum 1 | v => v end in
  let config := select_config tier in
  let baseFare := cfg_field cfg_baseFare config in
  let distanceFare :=
    jdiv_lit (Math_round (jmul (jmul distanceKm (cfg_field cfg_perKm config)) (JNum 100))) 100 in
  let timeFare :=
    jdiv_lit (Math_round (jmul (jmul durationMins (cfg_field cfg_perMin config)) (JNum 100))) 100 in
  let subtotal := jadd (jadd baseFare distanceFare) timeFare in
  let surgeFare :=
    if jgt surgeMultiplier (JNum 1)
    then jdiv_lit (Math_round (jmul (jmul subtotal (jsub surgeMultiplier (JNum 1))) (JNum 100))) 100
    else JNum 0 in
  let taxes :=
    jdiv_lit (Math_round (jmul (jmul (jadd subtotal surgeFare) (JNum (5 # 100))) (JNum 100))) 100 in
  let total :=
    jdiv_lit (Math_round (jmul (jadd (jadd subtotal surgeFare) taxes) (JNum 100))) 100 in
  mkFare baseFare distanceFare timeFare surgeFare surgeMultiplier taxes subtotal total "INR".

Definition baseFares : list (string * Q) :=
  [ ("economy", 50%Q); ("premium", 100%Q); ("xl", 150%Q) ].
Definition perKmRates : list (string * Q) :=
  [ ("economy", 12%Q); ("premium", 18%Q); ("xl", 22%Q) ].

Definition prop_value (p : prop Q) : jsval :=
  match p with
  | Own q => JNum q
  | Inherited => JObj
  | Absent => JUndefined
  end.

Definition calculateEstimatedFare (distanceKm : jsval) (tier : option string) : jsval :=
  let base := jor (prop_value (get_prop baseFares (prop_key tier)))
                  (prop_value (get_prop baseFares "economy")) in
  let perKm := jor (prop_value (get_prop perKmRates (prop_key tier)))
                   (prop_value (get_prop perKmRates "economy")) in
  Math_round (jadd base (jmul distanceKm perKm)).

End Fare.

(** ** Data model: rows of the relational store, Redis, process memory

    Tables are lists of rows, so that an [UPDATE ... WHERE] touches every
    matching row and [rows[0]] is the first of them.  Column domains
    (precision of DECIMAL, NOT NULL other than where noted) are not enforced;
    a column holds the value that was bound to it.  Ids are UUID columns: an
    id that is present is a non-empty text, so it is truthy in JavaScript.
    Timestamps are milliseconds; the [updated_at] bookkeeping column is
    carried only for rides. *)
Module Model.

Inductive RideStatus : Type :=
| REQUESTED | MATCHING | DRIVER_ASSIGNED | DRIVER_EN_ROUTE
| DRIVER_ARRIVED | IN_PROGRESS | COMPLETED | CANCELLED.

Inductive DriverStatus : Type := offline | online | busy.

Inductive OfferStatus : Type :=
| pending | accepted | declined | expired | cancelled.

Inductive TripStatus : Type :=
| TRIP_STARTED | TRIP_IN_PROGRESS | TRIP_COMPLETED | TRIP_DISPUTED.

Inductive PaymentStatus : Type :=
| pay_pending | pay_processing | pay_completed | pay_failed | pay_refunded.

Definition RideStatus_eqb (a b : RideStatus) : bool :=
  match a, b with
  | REQUESTED, REQUESTED | MATCHING, MATCHING
  | DRIVER_ASSIGNED, DRIVER_ASSIGNED | DRIVER_EN_ROUTE, DRIVER_EN_ROUTE
  | DRIVER_ARRIVED, DRIVER_ARRIVED | IN_PROGRESS, IN_PROGRESS
  | COMPLETED, COMPLETED | CANCELLED, CANCELLED => true
  | _, _ => false
  end.

Definition DriverStatus_eqb (a b : DriverStatus) : bool :=
  match a, b with
  | offline, offline | online, online | busy, busy => true
  | _, _ => false
  end.

Definition OfferStatus_eqb (a b : OfferStatus) : bool :=
  match a, b with
  | pending, pending | accepted, accepted | declined, declined
  | expired, expired | cancelled, cancelled => true
  | _, _ => false
  end.

Definition status_name (s : RideStatus) : string :=
  match s with
  | REQUESTED => "REQUESTED"
  | MATCHING => "MATCHING"
  | DRIVER_ASSIGNED => "DRIVER_ASSIGNED"
  | DRIVER_EN_ROUTE => "DRIVER_EN_ROUTE"
  | DRIVER_ARRIVED => "DRIVER_ARRIVED"
  | IN_PROGRESS => "IN_PROGRESS"
  | COMPLETED => "COMPLETED"
  | CANCELLED => "CANCELLED"
  end.

Record Ride : Type := mkRide {
  ride_id : string;
  ride_tenant_id : string;
  ride_rider_id : string;
  ride_driver_id : option string;
  ride_status : RideStatus;
  ride_tier : string;
  ride_surge_multiplier : option Q;
  ride_estimated_distance_km : option Q;
  ride_version : Z;
  ride_matched_at : option Z;
  ride_cancelled_at : option Z;
  ride_cancellation_reason : option string;
  ride_updated_at : Z
}.

Record Driver : Type := mkDriver {
  driver_id : string;
  driver_name : string;
  driver_vehicle_type : string;
  driver_status : DriverStatus;
  driver_rating : Q;
  driver_total_rides : Z;
  driver_acceptance_rate : Q
}.

Record RideOffer : Type := mkOffer {
  offer_id : string;
  offer_ride_id : string;
  offer_driver_id : string;
  offer_status : OfferStatus;
  offer_expires_at : Z;
  offer_responded_at : option Z
}.

Record Trip : Type := mkTrip {
  trip_id : string;
  trip_ride_id : string;
  trip_status : TripStatus;
  trip_started_at : Z;
  trip_ended_at : option Z;
  trip_actual_distance_km : jsval;
  trip_actual_duration_mins : jsval;
  trip_route_polyline : option string;
  trip_fare : option Fare.fare_breakdown
}.

(** What the mock payment provider answers. *)
Record PspResult : Type := mkPsp {
  psp_status : PaymentStatus;
  psp_reference : option string;
  psp_method : string;
  psp_amount : jsval
}.

Record Payment : Type := mkPayment {
  payment_id : string;
  payment_trip_id : string;
  payment_amount : jsval;
  payment_currency : string;
  payment_method : string;
  payment_status : PaymentStatus;
  payment_psp_reference : option string;
  payment_psp_response : option PspResult;
  payment_idempotency_key : option string;
  payment_completed_at : option Z
}.

Record DriverLocation : Type := mkLoc {
  loc_driver_id : string;
  loc_latitude : Q;
  loc_longitude : Q;
  loc_recorded_at : Z
}.

Record Db : Type := mkDb {
  rides : list Ride;
  drivers : list Driver;
  ride_offers : list RideOffer;
  trips : list Trip;
  payments : list Payment;
  driver_locations : list DriverLocation
}.

(** What [JSON.parse] gives back for a row that was cached with
    [JSON.stringify]. *)
Inductive document : Type :=
| DocRide (r : Ride)
| DocPayment (p : Payment).

(** Values held in Redis: JSON text of a document, or raw text that is not
    JSON (lock tokens). *)
Inductive cache_value : Type :=
| Json (d : document)
| Raw (s : string).

Inductive SimPhase : Type := TO_PICKUP | TO_DROPOFF.

(** An entry of the simulator's [activeSimulations] map; the coordinates it
    interpolates are not carried. *)
Record Simulation : Type := mkSim {
  sim_rideId : string;
  sim_riderId : string;
  sim_phase : SimPhase;
  sim_vehicleType : string
}.

(** Messages handed to the event bus, and other outward effects, oldest
    first. *)
Inductive Event : Type :=
| RideEvent (rideId tenantId eventType : string)
| Notification (userId : option string) (type : string)
| PspCharge (method tripId : string)
| Sleep (ms : Z).

Record World : Type := mkWorld {
  db : Db;
  kv : gmap string cache_value;
  geo : gmap (string * string) (Q * Q);
  activeSimulations : gmap (option string) Simulation;
  events : list Event
}.

Inductive Error : Type :=
| NotFoundError (resource : string)
| ConflictError (message : string)
| InvalidStateTransitionError (current : string) (target : string) (entity : string)
| LockAcquisitionError (resource : string)
| DatabaseError (code : string)
| TypeError (message : string).

Inductive result (A : Type) : Type :=
| Ok (a : A)
| Err (e : Error).
Arguments Ok {A} a.
Arguments Err {A} e.

(** *** Field updates *)

Definition with_db (d : Db) (w : World) : World :=
  mkWorld d (kv w) (geo w) (activeSimulations w) (events w).
Definition with_kv (k : gmap string cache_value) (w : World) : World :=
  mkWorld (db w) k (geo w) (activeSimulations w) (events w).
Definition with_geo (g : gmap (string * string) (Q * Q)) (w : World) : World :=
  mkWorld (db w) (kv w) g (activeSimulations w) (events w).
Definition with_sims (s : gmap (option string) Simulation) (w : World) : World :=
  mkWorld (db w) (kv w) (geo w) s (events w).
Definition emit (e : Event) (w : World) : World :=
  mkWorld (db w) (kv w) (geo w) (activeSimulations w) (events w ++ [e]).

Definition with_rides (l : list Ride) (d : Db) : Db :=
  mkDb l (drivers d) (ride_offers d) (trips d) (payments d) (driver_locations d).
Definition with_drivers (l : list Driver) (d : Db) : Db :=
  mkDb (rides d) l (ride_offers d) (trips d) (payments d) (driver_locations d).
Definition with_offers (l : list RideOffer) (d : Db) : Db :=
  mkDb (rides d) (drivers d) l (trips d) (payments d) (driver_locations d).
Definition with_trips (l : list Trip) (d : Db) : Db :=
  mkDb (rides d) (drivers d) (ride_offers d) l (payments d) (driver_locations d).
Definition with_payments (l : list Payment) (d : Db) : Db :=
  mkDb (rides d) (drivers d) (ride_offers d) (trips d) l (driver_locations d).

(** *** SQL fragments *)

(** [UPDATE t SET ... WHERE p]: every matching row is rewritten in place. *)
Definition sql_update {A} (p : A -> bool) (f : A -> A) (t : list A) : list A :=
  map (fun r => if p r then f r else r) t.

(** The rows an [UPDATE ... RETURNING *] hands back. *)
Definition sql_returning {A} (p : A -> bool) (f : A -> A) (t : list A) : list A :=
  map f (List.filter p t).

(** [SET status = s, version = version + 1, updated_at = NOW()] on a ride
    row. *)
Definition bump_status (s : RideStatus) (now : Z) (r : Ride) : Ride :=
  mkRide (ride_id r) (ride_tenant_id r) (ride_rider_id r) (ride_driver_id r)
    s (ride_tier r) (ride_surge_multiplier r) (ride_estimated_distance_km r)
    (ride_version r + 1) (ride_matched_at r) (ride_cancelled_at r)
    (ride_cancellation_reason r) now.

(** [SELECT ... WHERE p] *)
Definition sql_select {A} (p : A -> bool) (t : list A) : list A := List.filter p t.

Definition rowCount {A} (rows : list A) : nat := length rows.

(** *** Redis and cache keys *)

Definition CACHE_KEY_RIDE (id : string) : string := "ride:" ++ id.
Definition CACHE_KEY_RIDE_DETAILS (id : string) : string := "ride:details:" ++ id.
Definition CACHE_KEY_DRIVER (id : string) : string := "driver:" ++ id.
Definition CACHE_KEY_DRIVER_STATUS (id : string) : string := "driver:status:" ++ id.
Definition CACHE_KEY_DRIVER_CURRENT_RIDE (id : string) : string := "driver:current_ride:" ++ id.
Definition CACHE_KEY_RIDER_CURRENT_RIDE (id : string) : string := "rider:current_ride:" ++ id.
Definition CACHE_KEY_PAYMENT (tripId : string) : string := "payment:" ++ tripId.

(** The keys handed to [invalidateCache] carry no glob characters, so the
    KEYS/DEL pair removes exactly that key. *)
Definition invalidateCache (key : string) (w : World) : World :=
  with_kv (delete key (kv w)) w.

Definition cacheSet (key : string) (d : document) (w : World) : World :=
  with_kv (<[key := Json d]> (kv w)) w.

(** [cacheGet]: a missing key, or text [JSON.parse] rejects, reads as
    [null]. *)
Definition cacheGet (key : string) (w : World) : option document :=
  match kv w !! key with
  | Some (Json d) => Some d
  | Some (Raw _) | None => None
  end.

Definition invalidateDriverCache (driverId : string) (w : World) : World :=
  invalidateCache (CACHE_KEY_DRIVER_CURRENT_RIDE driverId)
    (invalidateCache (CACHE_KEY_DRIVER_STATUS driverId)
      (invalidateCache (CACHE_KEY_DRIVER driverId) w)).

Definition invalidateRideCache (rideId : string) (driverId riderId : option string)
    (w : World) : World :=
  let w1 := invalidateCache (CACHE_KEY_RIDE_DETAILS rideId)
              (invalidateCache (CACHE_KEY_RIDE rideId) w) in
  let w2 := match driverId with
            | Some d => invalidateDriverCache d w1
            | None => w1
            end in
  match riderId with
  | Some r => invalidateCache (CACHE_KEY_RIDER_CURRENT_RIDE r) w2
  | None => w2
  end.

Definition invalidateDriverCurrentRide (driverId : string) : World -> World :=
  invalidateCache (CACHE_KEY_DRIVER_CURRENT_RIDE driverId).
Definition invalidateRiderCurrentRide (riderId : string) : World -> World :=
  invalidateCache (CACHE_KEY_RIDER_CURRENT_RIDE riderId).

Definition geo_key (tier : string) : string := "drivers:geo:" ++ tier.

Definition addDriverLocation (tier driverId : string) (lng lat : Q) (w : World) : World :=
  with_geo (<[(geo_key tier, driverId) := (lng, lat)]> (geo w)) w.

Definition removeDriverLocation (tier driverId : string) (w : World) : World :=
  with_geo (delete (geo_key tier, driverId) (geo w)) w.

(** [publishRideEvent], [publishNotification]: the message is handed to the
    producer.  The broker is taken to accept every message; a send that the
    broker rejects is rethrown by [publishMessage] to the caller and has no
    counterpart here, so what is said below about a call that is refused is
    said of the refusals by the guards of the services. *)
Definition publishRideEvent (rideId tenantId eventType : string) : World -> World :=
  emit (RideEvent rideId tenantId eventType).
Definition publishNotification (userId : option string) (type : string) : World -> World :=
  emit (Notification userId type).

(** One attempt of [executeTransaction] that PostgreSQL does not abort: the
    body runs against the store; when it throws, the relational part is
    rolled back while Redis, the simulator and the bus keep what was done.
    This is the whole of [executeTransaction] for a request that meets no
    serialization failure and no deadlock; the loop around the attempts is
    [executeTransactionRetrying] below. *)
Definition executeTransaction {A} (body : World -> World * result A) (w : World)
    : World * result A :=
  let '(w', r) := body w in
  match r with
  | Ok a => (w', Ok a)
  | Err e => (with_db (db w) w', Err e)
  end.

(** The loop of [executeTransaction]: [for (attempt = 1; attempt <= maxRetries;
    attempt++)].  [conflicts] is the number of attempts, from the first on,
    that PostgreSQL ends with a serialization failure (40001) or a deadlock
    (40P01) once the callback has run; [callback n] is the callback as it
    runs in attempt [n], with the clock and the random ids of that attempt.
    An attempt that fails is rolled back, and what its callback did outside
    the database stays.  After a retryable failure the loop sleeps
    [retryDelay * attempt] and runs the callback again, unless this was the
    last attempt, whose error is thrown.  The errors the callbacks throw
    themselves carry none of the two codes and are thrown at once. *)
Fixpoint attempts {A} (remaining attempt conflicts : nat) (retryDelay : Z)
    (callback : nat -> World -> World * result A) (w : World) : World * result A :=
  match remaining with
  | O => (w, Err (DatabaseError "40001"))
  | S remaining' =>
      let '(w', r) := callback attempt w in
      match r with
      | Err e => (with_db (db w) w', Err e)
      | Ok a =>
          match conflicts with
          | O => (w', Ok a)
          | S conflicts' =>
              let rolled_back := with_db (db w) w' in
              match remaining' with
              | O => (rolled_back, Err (DatabaseError "40001"))
              | S _ =>
                  attempts remaining' (S attempt) conflicts' retryDelay callback
                    (emit (Sleep (retryDelay * Z.of_nat attempt)) rolled_back)
              end
          end
      end
  end.

(** [executeTransaction(callback, { maxRetries = 3, retryDelay = 100 })]. *)
Definition executeTransactionRetrying {A} (conflicts : nat)
    (callback : nat -> World -> World * result A) : World -> World * result A :=
  attempts 3 1 conflicts 100 callback.

(** [ORDER BY recorded_at DESC LIMIT 1] over one driver's samples. *)
Fixpoint latest_location (driverId : string) (locs : list DriverLocation)
    : option DriverLocation :=
  match locs with
  | [] => None
  | l :: rest =>
      if String.eqb (loc_driver_id l) driverId then
        match latest_location driverId rest with
        | Some l' => if (loc_recorded_at l <? loc_recorded_at l')%Z then Some l' else Some l
        | None => Some l
        end
      else latest_location driverId rest
  end.

End Model.
Export Model.

(** Text a template literal produces for an id that may be [null]. *)
Definition opt_text (o : option string) : string :=
  match o with
  | Some s => s
  | None => "null"
  end.

Definition id_is (id : string) (o : option string) : bool :=
  match o with
  | Some s => String.eqb s id
  | None => false
  end.

(** ** Driver motion simulator (simulationService)

    Only the registry of running simulations is modelled; the periodic
    position updates are not. *)
Module SimulationService.

Definition stopDriverSimulation (driverId : option string) (w : World) : World :=
  with_sims (delete driverId (activeSimulations w)) w.

(** [startDriverSimulation]: replaces the driver's simulation by one for the
    given ride, when the ride exists, and sends the first position. *)
Definition startDriverSimulation (rideId : string) (driverId riderId : option string)
    (phase : SimPhase) (w : World) : World :=
  let w1 := stopDriverSimulation driverId w in
  match sql_select (fun r => String.eqb (ride_id r) rideId) (rides (db w1)) with
  | [] => w1
  | ride :: _ =>
      let simulation := mkSim rideId (opt_text riderId) phase (ride_tier ride) in
      publishNotification riderId "DRIVER_LOCATION"
        (with_sims (<[driverId := simulation]> (activeSimulations w1)) w1)
  end.

Definition switchToTripPhase (rideId : string) (driverId riderId : option string)
    : World -> World :=
  startDriverSimulation rideId driverId riderId TO_DROPOFF.

End SimulationService.

(** ** rideService *)
Module RideService.

Definition STATUS_TRANSITIONS (s : RideStatus) : list RideStatus :=
  match s with
  | REQUESTED => [MATCHING; CANCELLED]
  | MATCHING => [DRIVER_ASSIGNED; CANCELLED]
  | DRIVER_ASSIGNED => [DRIVER_EN_ROUTE; CANCELLED]
  | DRIVER_EN_ROUTE => [DRIVER_ARRIVED; CANCELLED]
  | DRIVER_ARRIVED => [IN_PROGRESS; CANCELLED]
  | IN_PROGRESS => [COMPLETED]
  | COMPLETED => []
  | CANCELLED => []
  end.

(** [validTransitions.includes(newStatus)], giving the status the text names. *)
Definition includes (l : list RideStatus) (newStatus : string) : option RideStatus :=
  find (fun s => String.eqb (status_name s) newStatus) l.

(** The current status the guard of [updateRideStatus] looks at: that of the
    cached ride when there is one, else that of the row.  A cached document
    that is no ride has no status. *)
Inductive current_ride : Type :=
| CurrentRide (status : RideStatus)
| CurrentOther
| CurrentMissing.

Definition read_current (id : string) (w : World) : current_ride :=
  match cacheGet (CACHE_KEY_RIDE id) w with
  | Some (DocRide r) => CurrentRide (ride_status r)
  | Some (DocPayment _) => CurrentOther
  | None =>
      match sql_select (fun r => String.eqb (ride_id r) id) (rides (db w)) with
      | r :: _ => CurrentRide (ride_status r)
      | [] => CurrentMissing
      end
  end.

Definition updateRideStatus (id newStatus : string) (expectedVersion : option Z)
    (now : Z) (w : World) : World * result Ride :=
  match read_current id w with
  | CurrentMissing => (w, Err (NotFoundError "Ride"))
  | CurrentOther => (w, Err (InvalidStateTransitionError "undefined" newStatus "Ride"))
  | CurrentRide current =>
      match includes (STATUS_TRANSITIONS current) newStatus with
      | None => (w, Err (InvalidStateTransitionError (status_name current) newStatus "Ride"))
      | Some target =>
          let matches r :=
            String.eqb (ride_id r) id &&
            match expectedVersion with
            | Some v => (ride_version r =? v)%Z
            | None => true
            end in
          let updated := sql_returning matches (bump_status target now) (rides (db w)) in
          let w1 := with_db (with_rides (sql_update matches (bump_status target now) (rides (db w))) (db w)) w in
          match updated with
          | [] =>
              match expectedVersion with
              | Some _ => (w1, Err (ConflictError "Ride was modified by another request. Please retry."))
              | None => (w1, Err (NotFoundError "Ride"))
              end
          | updatedRide :: _ =>
              let w2 := cacheSet (CACHE_KEY_RIDE id) (DocRide updatedRide) w1 in
              let w3 := invalidateRiderCurrentRide (ride_rider_id updatedRide) w2 in
              let w4 := publishRideEvent id (ride_tenant_id updatedRide) "RIDE_STATUS_CHANGED" w3 in
              (w4, Ok updatedRide)
          end
      end
  end.

Definition cancel_row (reason : option string) (now : Z) (r : Ride) : Ride :=
  mkRide (ride_id r) (ride_tenant_id r) (ride_rider_id r) (ride_driver_id r)
    CANCELLED (ride_tier r) (ride_surge_multiplier r) (ride_estimated_distance_km r)
    (ride_version r + 1) (ride_matched_at r) (Some now) reason now.

Definition cancellable (id : string) (r : Ride) : bool :=
  String.eqb (ride_id r) id &&
  negb (RideStatus_eqb (ride_status r) COMPLETED || RideStatus_eqb (ride_status r) CANCELLED).

Definition set_driver_status (s : DriverStatus) (d : Driver) : Driver :=
  mkDriver (driver_id d) (driver_name d) (driver_vehicle_type d) s
    (driver_rating d) (driver_total_rides d) (driver_acceptance_rate d).

Definition cancelRide (id : string) (reason : option string) (now : Z) (w : World)
    : World * result Ride :=
  let result := sql_returning (cancellable id) (cancel_row reason now) (rides (db w)) in
  let w1 := with_db (with_rides (sql_update (cancellable id) (cancel_row reason now) (rides (db w))) (db w)) w in
  match result with
  | [] => (w1, Err (ConflictError "Ride cannot be cancelled"))
  | ride :: _ =>
      let w2 := invalidateRideCache id (ride_driver_id ride) (Some (ride_rider_id ride)) w1 in
      match ride_driver_id ride with
      | Some driverId =>
          let w3 := with_db (with_drivers
                      (sql_update (fun d => String.eqb (driver_id d) driverId)
                                  (set_driver_status online) (drivers (db w2))) (db w2)) w2 in
          (invalidateDriverCache driverId w3, Ok ride)
      | None => (w2, Ok ride)
      end
  end.

End RideService.

(** ** tripService *)
Module TripService.
Import SimulationService.

Record TripData : Type := mkTripData {
  actual_distance_km : jsval;
  actual_duration_mins : jsval;
  route_polyline : option string
}.

Record TripStarted : Type := mkTripStarted {
  started_trip_id : string;
  started_ride_id : string
}.

Record TripEnded : Type := mkTripEnded {
  ended_trip_id : string;
  ended_ride_id : string;
  ended_fare : Fare.fare_breakdown
}.

Definition trip_status_name (s : TripStatus) : string :=
  match s with
  | TRIP_STARTED => "STARTED"
  | TRIP_IN_PROGRESS => "IN_PROGRESS"
  | TRIP_COMPLETED => "COMPLETED"
  | TRIP_DISPUTED => "DISPUTED"
  end.

Definition startTrip (rideId tripId : string) (now : Z) : World -> World * result TripStarted :=
  executeTransaction (fun w =>
    match sql_select (fun r => String.eqb (ride_id r) rideId) (rides (db w)) with
    | [] => (w, Err (NotFoundError "Ride"))
    | ride :: _ =>
        if negb (RideStatus_eqb (ride_status ride) DRIVER_ARRIVED)
        then (w, Err (InvalidStateTransitionError (status_name (ride_status ride)) "IN_PROGRESS" "Ride"))
        else
          let trip := mkTrip tripId rideId TRIP_IN_PROGRESS now None JNull JNull None None in
          let d1 := with_trips (trips (db w) ++ [trip]) (db w) in
          let d2 := with_rides (sql_update (fun r => String.eqb (ride_id r) rideId)
                                  (bump_status IN_PROGRESS now) (rides d1)) d1 in
          let w1 := invalidateCache (CACHE_KEY_RIDE rideId) (with_db d2 w) in
          let w2 := publishRideEvent rideId (ride_tenant_id ride) "TRIP_STARTED" w1 in
          let w3 := publishNotification (Some (ride_rider_id ride)) "TRIP_STARTED" w2 in
          let w4 := switchToTripPhase rideId (ride_driver_id ride) (Some (ride_rider_id ride)) w3 in
          (w4, Ok (mkTripStarted tripId rideId))
    end).

(** A DECIMAL column reaches JavaScript as its decimal text: non-empty,
    hence truthy even for 0.00, and read as the number it spells wherever it
    is used.  [NULL] reaches it as [null]. *)
Definition decimal_or (column : option Q) (fallback : jsval) : jsval :=
  match column with
  | Some q => JNum q
  | None => fallback
  end.

Definition decimal_value (column : option Q) : jsval :=
  match column with
  | Some q => JNum q
  | None => JNull
  end.

(** [actual_distance_km || ride.estimated_distance_km || 5] *)
Definition trip_distance (tripData : TripData) (ride : Ride) : jsval :=
  if truthy (actual_distance_km tripData) then actual_distance_km tripData
  else decimal_or (ride_estimated_distance_km ride) (JNum 5).

(** [actual_duration_mins || Math.ceil((Date.now() - started_at) / 60000)] *)
Definition trip_duration (tripData : TripData) (trip : Trip) (now : Z) : jsval :=
  jor (actual_duration_mins tripData)
      (Math_ceil (jdiv_lit (JNum (inject_Z (now - trip_started_at trip))) 60000)).

Definition complete_trip (now : Z) (distance duration : jsval) (polyline : option string)
    (fare : Fare.fare_breakdown) (t : Trip) : Trip :=
  mkTrip (trip_id t) (trip_ride_id t) TRIP_COMPLETED (trip_started_at t) (Some now)
    distance duration polyline (Some fare).

Definition release_driver (d : Driver) : Driver :=
  mkDriver (driver_id d) (driver_name d) (driver_vehicle_type d) online
    (driver_rating d) (driver_total_rides d + 1) (driver_acceptance_rate d).

Definition endTrip (tripId : string) (tripData : TripData) (now : Z)
    : World -> World * result TripEnded :=
  executeTransaction (fun w =>
    match sql_select (fun t => String.eqb (trip_id t) tripId) (trips (db w)) with
    | [] => (w, Err (NotFoundError "Trip"))
    | trip :: _ =>
        match trip_status trip with
        | TRIP_IN_PROGRESS =>
            match sql_select (fun r => String.eqb (ride_id r) (trip_ride_id trip)) (rides (db w)) with
            | [] => (w, Err (TypeError "Cannot read properties of undefined"))
            | ride :: _ =>
                let distance := trip_distance tripData ride in
                let duration := trip_duration tripData trip now in
                let fareBreakdown :=
                  Fare.calculateFare (Some (ride_tier ride)) distance duration
                    (decimal_value (ride_surge_multiplier ride)) in
                let d1 := with_trips
                            (sql_update (fun t => String.eqb (trip_id t) tripId)
                               (complete_trip now distance duration (route_polyline tripData) fareBreakdown)
                               (trips (db w))) (db w) in
                let d2 := with_rides
                            (sql_update (fun r => String.eqb (ride_id r) (trip_ride_id trip))
                               (bump_status COMPLETED now) (rides d1)) d1 in
                let is_driver d := id_is (driver_id d) (ride_driver_id ride) in
                let driverResult := sql_returning is_driver release_driver (drivers d2) in
                let d3 := with_drivers (sql_update is_driver release_driver (drivers d2)) d2 in
                let w1 := with_db d3 w in
                let location :=
                  match ride_driver_id ride with
                  | Some driverId => latest_location driverId (driver_locations d3)
                  | None => None
                  end in
                let finish w2 :=
                  let w3 := invalidateCache (CACHE_KEY_RIDE (trip_ride_id trip)) w2 in
                  let w4 := invalidateCache (CACHE_KEY_DRIVER (opt_text (ride_driver_id ride))) w3 in
                  let w5 := invalidateCache (CACHE_KEY_DRIVER_STATUS (opt_text (ride_driver_id ride))) w4 in
                  let w6 := publishRideEvent (trip_ride_id trip) (ride_tenant_id ride) "TRIP_COMPLETED" w5 in
                  let w7 := publishNotification (Some (ride_rider_id ride)) "TRIP_COMPLETED" w6 in
                  let w8 := publishNotification (ride_driver_id ride) "TRIP_COMPLETED" w7 in
                  let w9 := stopDriverSimulation (ride_driver_id ride) w8 in
                  (w9, Ok (mkTripEnded tripId (trip_ride_id trip) fareBreakdown)) in
                match location with
                | Some loc =>
                    match driverResult with
                    | driver :: _ =>
                        finish (addDriverLocation (driver_vehicle_type driver) (driver_id driver)
                                  (loc_longitude loc) (loc_latitude loc) w1)
                    | [] => (w1, Err (TypeError "Cannot read properties of undefined"))
                    end
                | None => finish w1
                end
            end
        | other =>
            (w, Err (InvalidStateTransitionError (trip_status_name other) "COMPLETED" "Trip"))
        end
    end).

(** [validStatuses.includes(newStatus)] for
    [validStatuses = ['DRIVER_EN_ROUTE', 'DRIVER_ARRIVED']]. *)
Definition validStatuses : list RideStatus := [DRIVER_EN_ROUTE; DRIVER_ARRIVED].

Definition updateRideStatusForTrip (rideId newStatus : string) (now : Z) (w : World)
    : World * result Ride :=
  match RideService.includes validStatuses newStatus with
  | None => (w, Err (ConflictError ("Invalid status transition: " ++ newStatus)))
  | Some target =>
      let is_ride r := String.eqb (ride_id r) rideId in
      let result := sql_returning is_ride (bump_status target now) (rides (db w)) in
      let w1 := with_db (with_rides (sql_update is_ride (bump_status target now) (rides (db w))) (db w)) w in
      match result with
      | [] => (w1, Err (NotFoundError "Ride"))
      | ride :: _ =>
          let w2 := invalidateCache (CACHE_KEY_RIDE rideId) w1 in
          let w3 := publishNotification (Some (ride_rider_id ride)) ("RIDE_" ++ newStatus) w2 in
          (w3, Ok ride)
      end
  end.

End TripService.

(** ** lockingService (Redlock over the one Redis instance)

    Redis is taken to be connected, so the stand-in lock the service hands
    out when Redlock cannot be set up does not occur. *)
Module LockingService.

Record Lock : Type := mkLock {
  lock_key : string;
  lock_token : string
}.

(** [acquireLock(resource)] in a process whose Redlock instance exists:
    [redlock.acquire] takes the key [lock:<resource>] when it is free; after
    the retries a key that stays held gives [null].  The branch for a process
    without Redlock is in [acquireLockIn] below. *)
Definition acquireLock (resource token : string) (w : World) : World * option Lock :=
  let key := "lock:" ++ resource in
  match kv w !! key with
  | Some _ => (w, None)
  | None => (with_kv (<[key := Raw token]> (kv w)) w, Some (mkLock key token))
  end.

(** [releaseLock] of a Redlock lock, [lock.release()]: deletes the key only
    while it still holds this lock's token. *)
Definition releaseLock (lock : Lock) (w : World) : World :=
  match kv w !! lock_key lock with
  | Some (Raw t) => if String.eqb t (lock_token lock)
                    then with_kv (delete (lock_key lock) (kv w)) w
                    else w
  | _ => w
  end.

(** What [acquireLock] hands out: a Redlock lock, or the object
    [{ resource, mockLock: true }] of a process in which Redlock could not
    be set up. *)
Inductive LockHandle : Type :=
| RedlockLock (lock : Lock)
| MockLock (resource : string).

(** [acquireLock(resource)] as a whole.  [redlock] tells whether the process
    has, or can now create, its Redlock instance; without one the call goes
    ahead with no lock, whoever holds the key. *)
Definition acquireLockIn (redlock : bool) (resource token : string) (w : World)
    : World * option LockHandle :=
  if redlock then
    match acquireLock resource token w with
    | (w', Some lock) => (w', Some (RedlockLock lock))
    | (w', None) => (w', None)
    end
  else (w, Some (MockLock resource)).

(** [releaseLock(lock)] as a whole: nothing is done for the stand-in. *)
Definition releaseLockIn (lock : LockHandle) (w : World) : World :=
  match lock with
  | MockLock _ => w
  | RedlockLock l => releaseLock l w
  end.


End LockingService.

(** ** matchingService *)
Module MatchingService.
Import SimulationService LockingService.

Definition OFFER_EXPIRY_MS : Z := 15000.

Record ScoredDriver : Type := mkScored {
  scored_driver : Driver;
  scored_distance : Q;
  scored_score : Q
}.

(** [distanceMap.get(driver.id)]: a [Map] built from the reply keeps the
    last entry of a key. *)
Fixpoint distance_of (driverId : string) (nearby : list (string * Q)) : option Q :=
  match nearby with
  | [] => None
  | (d, dist) :: rest =>
      match distance_of driverId rest with
      | Some later => Some later
      | None => if String.eqb d driverId then Some dist else None
      end
  end.

Definition score_driver (nearby : list (string * Q)) (driver : Driver) : ScoredDriver :=
  let distance :=
    match distance_of (driver_id driver) nearby with
    | Some d => if Qeq_bool d 0 then 999%Q else d
    | None => 999%Q
    end in
  let distanceScore := (1 / (1 + distance))%Q in
  let ratingScore := (driver_rating driver / 5)%Q in
  let acceptanceScore := (driver_acceptance_rate driver / 100)%Q in
  mkScored driver distance
    (distanceScore * (4 # 10) + ratingScore * (3 # 10) + acceptanceScore * (3 # 10))%Q.

(** [sort((a, b) => b.score - a.score)]: descending, stable. *)
Fixpoint insert_by_score (x : ScoredDriver) (l : list ScoredDriver) : list ScoredDriver :=
  match l with
  | [] => [x]
  | y :: rest =>
      if Qle_bool (scored_score y) (scored_score x) then x :: y :: rest
      else y :: insert_by_score x rest
  end.

Definition sort_by_score (l : list ScoredDriver) : list ScoredDriver :=
  fold_right insert_by_score [] l.

(** [createRideOffer]: [INSERT ... ON CONFLICT DO NOTHING], then the
    notification to the driver. *)
Definition createRideOffer (rideId driverId offerId : string) (now : Z) (w : World) : World :=
  let offer := mkOffer offerId rideId driverId pending (now + OFFER_EXPIRY_MS) None in
  let offers := ride_offers (db w) in
  let offers' :=
    if existsb (fun o => String.eqb (offer_id o) offerId) offers then offers
    else (offers ++ [offer])%list in
  publishNotification (Some driverId) "RIDE_OFFER"
    (with_db (with_offers offers' (db w)) w).

Fixpoint create_offers (rideId : string) (scored : list ScoredDriver)
    (uuid : nat -> string) (n : nat) (now : Z) (w : World) : World :=
  match scored with
  | [] => w
  | s :: rest =>
      create_offers rideId rest uuid (S n) now
        (createRideOffer rideId (driver_id (scored_driver s)) (uuid n) now w)
  end.

(** [SET status = s, updated_at = NOW()]: the version column is not part of
    this statement. *)
Definition set_status_only (s : RideStatus) (now : Z) (r : Ride) : Ride :=
  mkRide (ride_id r) (ride_tenant_id r) (ride_rider_id r) (ride_driver_id r)
    s (ride_tier r) (ride_surge_multiplier r) (ride_estimated_distance_km r)
    (ride_version r) (ride_matched_at r) (ride_cancelled_at r)
    (ride_cancellation_reason r) now.

(** [findDriversForRide].  [nearbyDrivers] is the reply of the GEORADIUS
    query (driver id and non-negative distance in km, nearest first, at most
    20), [uuid] the ids drawn for the offers.  The status write that the
    source does not await is taken to land in program order. *)
Definition findDriversForRide (rideId : string) (nearbyDrivers : list (string * Q))
    (uuid : nat -> string) (now : Z) (w : World) : World * result (list ScoredDriver) :=
  let is_ride r := String.eqb (ride_id r) rideId in
  match sql_select is_ride (rides (db w)) with
  | [] => (w, Err (NotFoundError "Ride"))
  | ride :: _ =>
      if negb (RideStatus_eqb (ride_status ride) REQUESTED)
         && negb (RideStatus_eqb (ride_status ride) MATCHING)
      then (w, Err (InvalidStateTransitionError (status_name (ride_status ride)) "MATCHING" "Ride"))
      else
        let w1 := with_db (with_rides (sql_update is_ride (set_status_only MATCHING now)
                                          (rides (db w))) (db w)) w in
        match nearbyDrivers with
        | [] =>
            (with_db (with_rides (sql_update is_ride (set_status_only REQUESTED now)
                                     (rides (db w1))) (db w1)) w1,
             Ok [])
        | _ =>
            let driverIds := map fst nearbyDrivers in
            let driversResult :=
              sql_select (fun d => existsb (String.eqb (driver_id d)) driverIds
                                   && DriverStatus_eqb (driver_status d) online)
                         (drivers (db w1)) in
            let scoredDrivers := sort_by_score (map (score_driver nearbyDrivers) driversResult) in
            (create_offers rideId scoredDrivers uuid 0 now w1, Ok scoredDrivers)
        end
  end.

Definition assign_row (driverId : string) (now : Z) (r : Ride) : Ride :=
  mkRide (ride_id r) (ride_tenant_id r) (ride_rider_id r) (Some driverId)
    DRIVER_ASSIGNED (ride_tier r) (ride_surge_multiplier r) (ride_estimated_distance_km r)
    (ride_version r + 1) (Some now) (ride_cancelled_at r)
    (ride_cancellation_reason r) now.

Definition set_offer (s : OfferStatus) (responded : option Z) (o : RideOffer) : RideOffer :=
  mkOffer (offer_id o) (offer_ride_id o) (offer_driver_id o) s (offer_expires_at o) responded.

Definition accept_offer (now : Z) (o : RideOffer) : RideOffer :=
  set_offer accepted (Some now) o.
Definition cancel_offer (o : RideOffer) : RideOffer :=
  set_offer cancelled (offer_responded_at o) o.

Definition offer_of (rideId driverId : string) (o : RideOffer) : bool :=
  String.eqb (offer_ride_id o) rideId && String.eqb (offer_driver_id o) driverId.

Definition pending_offer_of (rideId driverId : string) (o : RideOffer) : bool :=
  offer_of rideId driverId o && OfferStatus_eqb (offer_status o) pending.

Definition other_pending_offer (rideId driverId : string) (o : RideOffer) : bool :=
  String.eqb (offer_ride_id o) rideId
  && OfferStatus_eqb (offer_status o) pending
  && negb (String.eqb (offer_driver_id o) driverId).

(** What acceptance is to do to one offer row, in the words of the
    specification: the offer of this driver for the ride becomes accepted,
    the pending offers of the other drivers for the ride become cancelled,
    and every other row stays. *)
Definition settle_offer (rideId driverId : string) (now : Z) (o : RideOffer) : RideOffer :=
  if String.eqb (offer_ride_id o) rideId then
    if String.eqb (offer_driver_id o) driverId then accept_offer now o
    else if OfferStatus_eqb (offer_status o) pending then cancel_offer o
    else o
  else o.

(** The transaction body of [acceptRide]. *)
Definition accept_transaction (rideId driverId : string) (now : Z) (w : World)
    : World * result Ride :=
  let is_ride r := String.eqb (ride_id r) rideId in
  match sql_select is_ride (rides (db w)) with
  | [] => (w, Err (NotFoundError "Ride"))
  | ride :: _ =>
      if negb (RideStatus_eqb (ride_status ride) MATCHING) then
        match ride_driver_id ride with
        | Some _ => (w, Err (ConflictError "Ride has already been assigned to another driver"))
        | None => (w, Err (InvalidStateTransitionError (status_name (ride_status ride))
                             "DRIVER_ASSIGNED" "Ride"))
        end
      else
        match sql_select (fun d => String.eqb (driver_id d) driverId
                                   && DriverStatus_eqb (driver_status d) online)
                         (drivers (db w)) with
        | [] => (w, Err (ConflictError "Driver is not available"))
        | driver :: _ =>
            match sql_select (pending_offer_of rideId driverId) (ride_offers (db w)) with
            | [] => (w, Err (ConflictError "No pending offer for this driver"))
            | _ :: _ =>
                let updatedRide := sql_returning is_ride (assign_row driverId now) (rides (db w)) in
                let d1 := with_rides (sql_update is_ride (assign_row driverId now) (rides (db w))) (db w) in
                let d2 := with_drivers
                            (sql_update (fun d => String.eqb (driver_id d) driverId)
                               (RideService.set_driver_status busy) (drivers d1)) d1 in
                let d3 := with_offers
                            (sql_update (offer_of rideId driverId) (accept_offer now)
                               (ride_offers d2)) d2 in
                let d4 := with_offers
                            (sql_update (other_pending_offer rideId driverId) cancel_offer
                               (ride_offers d3)) d3 in
                let w1 := removeDriverLocation (driver_vehicle_type driver) driverId (with_db d4 w) in
                let w2 := invalidateRideCache rideId (Some driverId) (Some (ride_rider_id ride)) w1 in
                let w3 := publishRideEvent rideId (ride_tenant_id ride) "RIDE_ACCEPTED" w2 in
                let w4 := publishNotification (Some (ride_rider_id ride)) "DRIVER_ASSIGNED" w3 in
                let w5 := startDriverSimulation rideId (Some driverId)
                            (Some (ride_rider_id ride)) TO_PICKUP w4 in
                (* [updatedRide.rows[0]]: the ride selected above is among the
                   rows the update returns. *)
                match updatedRide with
                | r :: _ => (w5, Ok r)
                | [] => (w5, Ok (assign_row driverId now ride))
                end
            end
        end
  end.

(** [acceptRide(rideId, driverId)]; [token] is the random value Redlock
    binds to the acquisition. *)
Definition acceptRide (rideId driverId token : string) (now : Z) (w : World)
    : World * result Ride :=
  match acquireLock ("ride:" ++ rideId) token w with
  | (w0, None) => (w0, Err (LockAcquisitionError ("ride " ++ rideId)))
  | (w0, Some lock) =>
      let '(w1, r) := executeTransaction (accept_transaction rideId driverId now) w0 in
      (releaseLock lock w1, r)
  end.

(** [acceptRide] in either state of the process, with Redlock ([redlock =
    true], where it is [acceptRide] above) and without. *)
Definition acceptRideIn (redlock : bool) (rideId driverId token : string) (now : Z)
    (w : World) : World * result Ride :=
  match acquireLockIn redlock ("ride:" ++ rideId) token w with
  | (w0, None) => (w0, Err (LockAcquisitionError ("ride " ++ rideId)))
  | (w0, Some lock) =>
      let '(w1, r) := executeTransaction (accept_transaction rideId driverId now) w0 in
      (releaseLockIn lock w1, r)
  end.

End MatchingService.

(** ** paymentService *)
Module PaymentService.

(** What the environment contributes to one call: the two UUIDs drawn, the
    clock, what the mock provider answers (the coin of the card gateway and
    the reference text it makes up), and what other requests do to the store
    while this one sleeps on a held lock. *)
Record Oracle : Type := mkOracle {
  lockValue : string;
  paymentId : string;
  now : Z;
  card_success : bool;
  reference : string;
  meanwhile : World -> World
}.

(** Other requests act on the shared stores; the log keeps only what the
    modelled request itself sends out. *)
Definition interfere (f : World -> World) (w : World) : World :=
  mkWorld (db (f w)) (kv (f w)) (geo (f w)) (activeSimulations (f w)) (events w).

Definition is_charge (e : Event) : bool :=
  match e with
  | PspCharge _ _ => true
  | _ => false
  end.

(** How often the payment provider was invoked. *)
Definition psp_charges (w : World) : nat := length (List.filter is_charge (events w)).

Definition idempotency_redis_key (key : string) : string := "payment:idempotency:" ++ key.
Definition payment_lock_key (tripId : string) : string := "payment_lock:" ++ tripId.

(** [checkIdempotencyKey]: the cached document, or [null] when the key is
    missing or its text does not parse. *)
Definition checkIdempotencyKey (key : string) (w : World) : option document :=
  match kv w !! idempotency_redis_key key with
  | Some (Json d) => Some d
  | Some (Raw _) | None => None
  end.

Definition storeIdempotencyResult (key : string) (p : Payment) (w : World) : World :=
  with_kv (<[idempotency_redis_key key := Json (DocPayment p)]> (kv w)) w.

Definition cachePaymentStatus (tripId : string) (p : Payment) : World -> World :=
  cacheSet (CACHE_KEY_PAYMENT tripId) (DocPayment p).

Definition processCashPayment (o : Oracle) (amount : jsval) : PspResult :=
  mkPsp pay_completed (Some (reference o)) "cash" amount.

Definition processCardPayment (o : Oracle) (amount : jsval) : PspResult :=
  if card_success o
  then mkPsp pay_completed (Some (reference o)) "card" amount
  else mkPsp pay_failed None "card" amount.

Definition processWalletPayment (o : Oracle) (amount : jsval) : PspResult :=
  mkPsp pay_completed (Some (reference o)) "wallet" amount.

Definition PaymentStatus_eqb (a b : PaymentStatus) : bool :=
  match a, b with
  | pay_pending, pay_pending | pay_processing, pay_processing
  | pay_completed, pay_completed | pay_failed, pay_failed
  | pay_refunded, pay_refunded => true
  | _, _ => false
  end.

Definition of_trip (tripId : string) (p : Payment) : bool :=
  String.eqb (payment_trip_id p) tripId.

Definition has_key (key : string) (p : Payment) : bool :=
  id_is key (payment_idempotency_key p).

(** [SET status = 'processing', idempotency_key = $1] *)
Definition mark_processing (key : string) (p : Payment) : Payment :=
  mkPayment (payment_id p) (payment_trip_id p) (payment_amount p) (payment_currency p)
    (payment_method p) pay_processing (payment_psp_reference p) (payment_psp_response p)
    (Some key) (payment_completed_at p).

(** [SET status, psp_reference, psp_response, completed_at = CASE ...] *)
Definition record_outcome (res : PspResult) (now : Z) (p : Payment) : Payment :=
  mkPayment (payment_id p) (payment_trip_id p) (payment_amount p) (payment_currency p)
    (payment_method p) (psp_status res) (psp_reference res) (Some res)
    (payment_idempotency_key p)
    (if PaymentStatus_eqb (psp_status res) pay_completed then Some now else None).

(** The UNIQUE constraint on [idempotency_key] as the two writes meet it. *)
Definition update_violates_unique (tripId key : string) (t : list Payment) : bool :=
  existsb (fun p => negb (of_trip tripId p) && has_key key p) t
  || (1 <? length (List.filter (of_trip tripId) t))%nat.

Definition insert_violates (id key : string) (t : list Payment) : bool :=
  existsb (fun p => String.eqb (payment_id p) id) t || existsb (has_key key) t.

Definition is_null (v : jsval) : bool :=
  match v with
  | JNull | JUndefined => true
  | _ => false
  end.

(** The row of [trips JOIN rides ON t.ride_id = r.id WHERE t.id = $1]. *)
Fixpoint trip_with_ride (tripId : string) (ts : list Trip) (rs : list Ride)
    : option (Trip * Ride) :=
  match ts with
  | [] => None
  | t :: rest =>
      if String.eqb (trip_id t) tripId then
        match sql_select (fun r => String.eqb (ride_id r) (trip_ride_id t)) rs with
        | r :: _ => Some (t, r)
        | [] => trip_with_ride tripId rest rs
        end
      else trip_with_ride tripId rest rs
  end.

Definition trip_total_fare (t : Trip) : jsval :=
  match trip_fare t with
  | Some f => Fare.total f
  | None => JNull
  end.

(** The mock provider, by method; an unknown method throws. *)
Definition charge (paymentMethod : string) (o : Oracle) (amount : jsval) : option PspResult :=
  if String.eqb paymentMethod "cash" then Some (processCashPayment o amount)
  else if String.eqb paymentMethod "card" then Some (processCardPayment o amount)
  else if String.eqb paymentMethod "wallet" then Some (processWalletPayment o amount)
  else None.

(** The transaction body of [processPayment]. *)
Definition payment_transaction (tripId paymentMethod idempotencyKey : string) (o : Oracle)
    (w : World) : World * result document :=
  let existingResult := sql_select (of_trip tripId) (payments (db w)) in
  let completed_already :=
    match existingResult with
    | existing :: _ =>
        if PaymentStatus_eqb (payment_status existing) pay_completed then Some existing else None
    | [] => None
    end in
  match completed_already with
  | Some existing => (w, Ok (DocPayment existing))
  | None =>
      match trip_with_ride tripId (trips (db w)) (rides (db w)) with
      | None => (w, Err (NotFoundError "Trip"))
      | Some (trip, ride) =>
          match trip_status trip with
          | TRIP_COMPLETED =>
              let amount := trip_total_fare trip in
              let written :=
                match existingResult with
                | _ :: _ =>
                    if update_violates_unique tripId idempotencyKey (payments (db w))
                    then Err (DatabaseError "23505")
                    else Ok (sql_update (of_trip tripId) (mark_processing idempotencyKey)
                               (payments (db w)))
                | [] =>
                    if insert_violates (paymentId o) idempotencyKey (payments (db w))
                    then Err (DatabaseError "23505")
                    else if is_null amount then Err (DatabaseError "23502")
                    else Ok (payments (db w) ++
                             [mkPayment (paymentId o) tripId amount "INR" paymentMethod
                                pay_processing None None (Some idempotencyKey) None])%list
                end in
              match written with
              | Err e => (w, Err e)
              | Ok table =>
                  let w1 := with_db (with_payments table (db w)) w in
                  match charge paymentMethod o amount with
                  | None => (w1, Err (ConflictError ("Invalid payment method: " ++ paymentMethod)))
                  | Some paymentResult =>
                      let w2 := emit (PspCharge paymentMethod tripId) w1 in
                      let finalResult :=
                        sql_returning (of_trip tripId) (record_outcome paymentResult (now o))
                          (payments (db w2)) in
                      let w3 := with_db (with_payments
                                  (sql_update (of_trip tripId) (record_outcome paymentResult (now o))
                                     (payments (db w2))) (db w2)) w2 in
                      match finalResult with
                      | [] => (w3, Err (TypeError "Cannot read properties of undefined"))
                      | payment :: _ =>
                          let w4 := storeIdempotencyResult idempotencyKey payment w3 in
                          let w5 := cachePaymentStatus tripId payment w4 in
                          let w6 := invalidateRideCache (ride_id ride) (ride_driver_id ride)
                                      (Some (ride_rider_id ride)) w5 in
                          let w7 := invalidateDriverCurrentRide (opt_text (ride_driver_id ride)) w6 in
                          let w8 := invalidateRiderCurrentRide (ride_rider_id ride) w7 in
                          let w9 :=
                            if PaymentStatus_eqb (payment_status payment) pay_completed
                            then publishNotification (ride_driver_id ride) "PAYMENT_RECEIVED"
                                   (publishNotification (Some (ride_rider_id ride))
                                      "PAYMENT_COMPLETED" w8)
                            else w8 in
                          (w9, Ok (DocPayment payment))
                      end
                  end
              end
          | _ => (w, Err (ConflictError "Trip must be completed before payment"))
          end
      end
  end.

(** The [finally] block: the lock is deleted only while it still holds this
    call's value. *)
Definition release_payment_lock (lockKey : string) (value : string) (w : World) : World :=
  match kv w !! lockKey with
  | Some (Raw current) =>
      if String.eqb current value then with_kv (delete lockKey (kv w)) w else w
  | _ => w
  end.

Definition processPayment (tripId paymentMethod idempotencyKey : string) (o : Oracle)
    (w : World) : World * result document :=
  match checkIdempotencyKey idempotencyKey w with
  | Some existingPayment => (w, Ok existingPayment)
  | None =>
      let lockKey := payment_lock_key tripId in
      match kv w !! lockKey with
      | Some _ =>
          let w1 := interfere (meanwhile o) (emit (Sleep 100) w) in
          match checkIdempotencyKey idempotencyKey w1 with
          | Some retryCheck => (w1, Ok retryCheck)
          | None => (w1, Err (ConflictError "Payment is being processed. Please try again."))
          end
      | None =>
          let w1 := with_kv (<[lockKey := Raw (lockValue o)]> (kv w)) w in
          let '(w2, result) :=
            executeTransaction (payment_transaction tripId paymentMethod idempotencyKey o) w1 in
          (release_payment_lock lockKey (lockValue o) w2, result)
      end
  end.

(** [existingResult.rowCount > 0 && existing.status === 'completed']: the
    trip has a payment on record, the first of its rows, that is completed. *)
Definition already_paid (tripId : string) (d : Db) : bool :=
  match sql_select (of_trip tripId) (payments d) with
  | existing :: _ => PaymentStatus_eqb (payment_status existing) pay_completed
  | [] => false
  end.

(** [processPayment] with the retries of its transaction.  [o n] is what
    the environment contributes to attempt [n]; the lock value and the
    interference during the wait are those of [o 1].  With no conflict this
    is [processPayment] above. *)
Definition processPaymentRetrying (tripId paymentMethod idempotencyKey : string)
    (conflicts : nat) (o : nat -> Oracle) (w : World) : World * result document :=
  match checkIdempotencyKey idempotencyKey w with
  | Some existingPayment => (w, Ok existingPayment)
  | None =>
      let lockKey := payment_lock_key tripId in
      match kv w !! lockKey with
      | Some _ =>
          let w1 := interfere (meanwhile (o 1%nat)) (emit (Sleep 100) w) in
          match checkIdempotencyKey idempotencyKey w1 with
          | Some retryCheck => (w1, Ok retryCheck)
          | None => (w1, Err (ConflictError "Payment is being processed. Please try again."))
          end
      | None =>
          let w1 := with_kv (<[lockKey := Raw (lockValue (o 1%nat))]> (kv w)) w in
          let '(w2, result) :=
            executeTransactionRetrying conflicts
              (fun attempt =>
                 payment_transaction tripId paymentMethod idempotencyKey (o attempt)) w1 in
          (release_payment_lock lockKey (lockValue (o 1%nat)) w2, result)
      end
  end.

End PaymentService.

(** ** The fare rules as the specification words them

    [round2 x] is [x] rounded to two decimals, halves away from zero; the
    table gives base, per-km and per-minute rates of each tier. *)
Module FareSpec.

Inductive Tier : Type := economy | premium | xl.

Definition tier_name (t : Tier) : string :=
  match t with
  | economy => "economy"
  | premium => "premium"
  | xl => "xl"
  end.

Definition base (t : Tier) : Q :=
  match t with economy => 50 | premium => 100 | xl => 150 end.
Definition per_km (t : Tier) : Q :=
  match t with economy => 12 | premium => 18 | xl => 22 end.
Definition per_min (t : Tier) : Q :=
  match t with economy => 3 # 2 | premium => 5 # 2 | xl => 3 end.

Definition round_half_away (x : Q) : Z :=
  if Qle_bool 0 x then Qfloor (x + (1 # 2)) else Qceiling (x - (1 # 2)).

Definition round2 (x : Q) : Q := (inject_Z (round_half_away (x * 100)) / 100)%Q.

(** The idiom of the code, [Math.round(x * 100) / 100], on exact numbers. *)
Definition round_cents (x : Q) : Q :=
  (inject_Z (Qfloor (x * 100 + (1 # 2))) / inject_Z 100)%Q.

(** A whole number of cents. *)
Definition is_cents (q : Q) : Prop := exists k : Z, (q == inject_Z k / inject_Z 100)%Q.

End FareSpec.

(** ** A small concrete deployment, used to run the services *)
(** ** Fare computation on doubles

    [calculateFare] once more, on the IEEE 754 binary64 numbers JavaScript
    computes with: every product, sum and quotient is rounded to the nearest
    double.  The arguments are numbers, as [endTrip] passes them once the
    decimal columns are read as numbers. *)
Module Binary64.
Import PrimFloat SpecFloat.
Local Open Scope float_scope.

(** The double of a whole number below 2^53 in size. *)
Definition of_Z (z : Z) : float :=
  match z with
  | Z0 => 0
  | Zpos p => of_uint63 (Uint63.of_Z (Zpos p))
  | Zneg p => - of_uint63 (Uint63.of_Z (Zpos p))
  end.

Definition of_Q (q : Q) : float := of_Z (Qnum q) / of_Z (Zpos (Qden q)).

(** The whole number nearest to the finite double [m * 2^e], negated when
    [s] is set, halves going up. *)
Definition round_half_up (s : bool) (m : positive) (e : Z) : Z :=
  let n := if s then Z.neg m else Z.pos m in
  if (0 <=? e)%Z then (n * 2 ^ e)%Z
  else ((2 * n + 2 ^ (- e)) / 2 ^ (- e + 1))%Z.

(** [Math.round]: the nearest whole number, halves towards +infinity.  NaN,
    the infinities and the zeros are returned as they are, as is a double
    of size 2^53 or more, which is whole; a result of zero has the sign of
    the argument. *)
Definition Math_round (x : float) : float :=
  match FloatOps.Prim2SF x with
  | S754_finite s m e =>
      let z := round_half_up s m e in
      if (Z.abs z <? 2 ^ 53)%Z then
        (if (z =? 0)%Z then (if s then -0 else 0) else of_Z z)
      else x
  | _ => x
  end.

(** A decimal literal of the source, or a whole number divided by 100, is
    the double nearest to the quotient. *)
Definition rate (f : Fare.fare_config -> Q) (v : Fare.config_value) : float :=
  match v with
  | Fare.Config c => of_Q (f c)
  | Fare.ProtoMember => nan
  end.

Record fare_breakdown : Type := mkFare {
  baseFare : float;
  distanceFare : float;
  timeFare : float;
  surgeFare : float;
  surgeMultiplier : float;
  taxes : float;
  subtotal : float;
  total : float;
  currency : string
}.

Definition calculateFare (tier : option string)
    (distanceKm durationMins surgeMultiplier : float) : fare_breakdown :=
  let config := Fare.select_config tier in
  let baseFare := rate Fare.cfg_baseFare config in
  let distanceFare := Math_round (distanceKm * rate Fare.cfg_perKm config * 100) / 100 in
  let timeFare := Math_round (durationMins * rate Fare.cfg_perMin config * 100) / 100 in
  let subtotal := baseFare + distanceFare + timeFare in
  let surgeFare :=
    if 1 <? surgeMultiplier
    then Math_round (subtotal * (surgeMultiplier - 1) * 100) / 100
    else 0 in
  let taxes := Math_round ((subtotal + surgeFare) * of_Q (5 # 100) * 100) / 100 in
  let total := Math_round ((subtotal + surgeFare + taxes) * 100) / 100 in
  mkFare baseFare distanceFare timeFare surgeFare surgeMultiplier taxes subtotal total "INR".

End Binary64.

Module Samples.

Definition sample_ride (status : RideStatus) (driver : option string) : Ride :=
  mkRide "ride-1" "tenant-1" "rider-1" driver status "economy"
    (Some 1%Q) (Some (49 # 10)%Q) 3 None None None 0.

Definition sample_driver (status : DriverStatus) : Driver :=
  mkDriver "driver-1" "Asha" "economy" status (48 # 10) 10 90.

Definition second_driver (status : DriverStatus) : Driver :=
  mkDriver "driver-2" "Bela" "economy" status (45 # 10) 4 80.

Definition sample_offer (id driver : string) (status : OfferStatus) : RideOffer :=
  mkOffer id "ride-1" driver status 15000 None.

Definition sample_trip (status : TripStatus) (fare : option Fare.fare_breakdown) : Trip :=
  mkTrip "trip-1" "ride-1" status 0 None JNull JNull None fare.

Definition sample_location : DriverLocation :=
  mkLoc "driver-1" (129716 # 10000) (775946 # 10000) 50.

Definition sample_simulation : Simulation :=
  mkSim "ride-1" "rider-1" TO_PICKUP "economy".

Definition sample_world (rs : list Ride) (ds : list Driver) (os : list RideOffer)
    (ts : list Trip) : World :=
  mkWorld (mkDb rs ds os ts [] [sample_location]) ∅ ∅ ∅ [].

(** The ride is under way to the pickup: the driver is busy, out of the geo
    index, and the simulator moves them. *)
Definition en_route_world : World :=
  mkWorld
    (mkDb [sample_ride DRIVER_EN_ROUTE (Some "driver-1")] [sample_driver busy]
          [sample_offer "offer-1" "driver-1" accepted] [] [] [sample_location])
    ∅ ∅ {[ Some "driver-1" := sample_simulation ]} [].

(** The driver waits at the pickup point. *)
Definition arrived_world : World :=
  mkWorld
    (mkDb [sample_ride DRIVER_ARRIVED (Some "driver-1")] [sample_driver busy]
          [sample_offer "offer-1" "driver-1" accepted] [] [] [sample_location])
    ∅ ∅ {[ Some "driver-1" := sample_simulation ]} [].

(** The trip is under way. *)
Definition on_trip_world : World :=
  mkWorld
    (mkDb [sample_ride IN_PROGRESS (Some "driver-1")] [sample_driver busy]
          [sample_offer "offer-1" "driver-1" accepted] [sample_trip TRIP_IN_PROGRESS None] []
          [sample_location])
    ∅ ∅ {[ Some "driver-1" := mkSim "ride-1" "rider-1" TO_DROPOFF "economy" ]} [].

(** Two drivers hold a pending offer for the ride being matched. *)
Definition matching_world : World :=
  sample_world [sample_ride MATCHING None] [sample_driver online; second_driver online]
    [sample_offer "offer-1" "driver-1" pending; sample_offer "offer-2" "driver-2" pending;
     sample_offer "offer-0" "driver-2" expired] [].

Definition sample_oracle (card_ok : bool) : PaymentService.Oracle :=
  PaymentService.mkOracle "lock-token-1" "payment-1" 9000 card_ok "CARD-1A2B3C4D" id.

Definition completed_fare : Fare.fare_breakdown :=
  Fare.calculateFare (Some "economy") (JNum 5) (JNum 20) (JNum 1).

(** The trip has ended and awaits payment. *)
Definition unpaid_world : World :=
  sample_world [sample_ride COMPLETED (Some "driver-1")] [sample_driver online] []
    [sample_trip TRIP_COMPLETED (Some completed_fare)].

(** Another request holds the payment lock of the trip. *)
Definition locked_world : World :=
  with_kv {[ PaymentService.payment_lock_key "trip-1" := Raw "lock-token-0" ]} unpaid_world.

Definition sample_payment : Payment :=
  mkPayment "payment-0" "trip-1" (JNum 147) "INR" "card" pay_completed
    (Some "CARD-0F0F0F0F") None (Some "key-K2") (Some 8000%Z).

(** The holder of the lock finishes while this request sleeps. *)
Definition concurrent_oracle : PaymentService.Oracle :=
  PaymentService.mkOracle "lock-token-1" "payment-1" 9000 true "CARD-1A2B3C4D"
    (PaymentService.storeIdempotencyResult "key-K2" sample_payment).




(** Every attempt draws the same values. *)
Definition steady (o : PaymentService.Oracle) : nat -> PaymentService.Oracle :=
  fun _ => o.

End Samples.

(** ** paymentService: lookup, retry and refund *)
Module PaymentAdmin.
Import PaymentService.

Definition has_id (id : string) (p : Payment) : bool := String.eqb (payment_id p) id.

Definition getPaymentById (id : string) (w : World) : result Payment :=
  match sql_select (has_id id) (payments (db w)) with
  | [] => Err (NotFoundError "Payment")
  | p :: _ => Ok p
  end.

(** [SET status = s] on a payment row. *)
Definition set_payment_status (s : PaymentStatus) (p : Payment) : Payment :=
  mkPayment (payment_id p) (payment_trip_id p) (payment_amount p) (payment_currency p)
    (payment_method p) s (payment_psp_reference p) (payment_psp_response p)
    (payment_idempotency_key p) (payment_completed_at p).

(** [retryPayment(paymentId, idempotencyKey)]: a failed payment is put back to
    pending, outside any transaction, and handed to [processPayment]. *)
Definition retryPayment (paymentId idempotencyKey : string) (o : Oracle) (w : World)
    : World * result document :=
  match getPaymentById paymentId w with
  | Err e => (w, Err e)
  | Ok payment =>
      if negb (PaymentStatus_eqb (payment_status payment) pay_failed)
      then (w, Err (ConflictError "Only failed payments can be retried"))
      else
        let w1 := with_db (with_payments
                    (sql_update (has_id paymentId) (set_payment_status pay_pending)
                       (payments (db w))) (db w)) w in
        processPayment (payment_trip_id payment) (payment_method payment) idempotencyKey o w1
  end.

(** [initiateRefund(paymentId, reason)].  The refund note merged into
    [psp_response] is not carried by the payment record. *)
Definition initiateRefund (paymentId : string) (w : World) : World * result Payment :=
  match getPaymentById paymentId w with
  | Err e => (w, Err e)
  | Ok payment =>
      if negb (PaymentStatus_eqb (payment_status payment) pay_completed)
      then (w, Err (ConflictError "Only completed payments can be refunded"))
      else if String.eqb (payment_method payment) "cash"
      then (w, Err (ConflictError "Cash payments cannot be refunded through the system"))
      else
        let result := sql_returning (has_id paymentId) (set_payment_status pay_refunded)
                        (payments (db w)) in
        let w1 := with_db (with_payments
                    (sql_update (has_id paymentId) (set_payment_status pay_refunded)
                       (payments (db w))) (db w)) w in
        let w2 := invalidateCache (CACHE_KEY_PAYMENT (payment_trip_id payment)) w1 in
        (* [result.rows[0]]: the payment found above is among the rows the
           update returns. *)
        match result with
        | refunded :: _ => (w2, Ok refunded)
        | [] => (w2, Ok (set_payment_status pay_refunded payment))
        end
  end.


End PaymentAdmin.

(** ** matchingService: declining and expiring offers *)
Module OfferService.
Import MatchingService.

Definition decline_offer (now : Z) (o : RideOffer) : RideOffer :=
  set_offer declined (Some now) o.

Definition offers_of_driver (driverId : string) (t : list RideOffer) : list RideOffer :=
  sql_select (fun o => String.eqb (offer_driver_id o) driverId) t.

Definition accepted_count (t : list RideOffer) : nat :=
  length (sql_select (fun o => OfferStatus_eqb (offer_status o) accepted) t).

(** The acceptance rate the sub-select computes over the offers of one
    driver: accepted offers over all offers, times 100, and 100 when the
    driver has no offer ([NULLIF] of a zero count, then [COALESCE]); on exact
    numbers. *)
Definition acceptance_rate_of (driverId : string) (t : list RideOffer) : Q :=
  let mine := offers_of_driver driverId t in
  match mine with
  | [] => 100%Q
  | _ => (inject_Z (Z.of_nat (accepted_count mine)) / inject_Z (Z.of_nat (length mine)) * 100)%Q
  end.

(** [acceptance_rate] is a DECIMAL(5,2) column: what is stored is the value
    rounded to two decimals. *)
Definition decimal_5_2 (q : Q) : Q := FareSpec.round2 q.

Definition set_acceptance_rate (rate : Q) (d : Driver) : Driver :=
  mkDriver (driver_id d) (driver_name d) (driver_vehicle_type d) (driver_status d)
    (driver_rating d) (driver_total_rides d) (decimal_5_2 rate).

(** [declineRide(rideId, driverId, reason)].  The reason is not carried by
    the offer record; the rate update the source does not await is taken to
    land in program order. *)
Definition declineRide (rideId driverId : string) (now : Z) (w : World)
    : World * result RideOffer :=
  let result := sql_returning (pending_offer_of rideId driverId) (decline_offer now)
                  (ride_offers (db w)) in
  let d1 := with_offers (sql_update (pending_offer_of rideId driverId) (decline_offer now)
                           (ride_offers (db w))) (db w) in
  match result with
  | [] => (with_db d1 w, Err (NotFoundError "Ride offer"))
  | offer :: _ =>
      let d2 := with_drivers
                  (sql_update (fun d => String.eqb (driver_id d) driverId)
                     (set_acceptance_rate (acceptance_rate_of driverId (ride_offers d1)))
                     (drivers d1)) d1 in
      (with_db d2 w, Ok offer)
  end.

Definition overdue (now : Z) (o : RideOffer) : bool :=
  OfferStatus_eqb (offer_status o) pending && (offer_expires_at o <? now)%Z.

Definition expire_offer (o : RideOffer) : RideOffer :=
  set_offer expired (offer_responded_at o) o.

(** [expirePendingOffers()], run at time [now]; the rows returned are
    [(ride_id, driver_id)]. *)
Definition expirePendingOffers (now : Z) (w : World) : World * list (string * string) :=
  (with_db (with_offers (sql_update (overdue now) expire_offer (ride_offers (db w))) (db w)) w,
   map (fun o => (offer_ride_id o, offer_driver_id o))
       (sql_returning (overdue now) expire_offer (ride_offers (db w)))).

End OfferService.

(** ** driverService: going online, offline or busy *)
Module DriverService.

Definition parse_driver_status (status : string) : option DriverStatus :=
  if String.eqb status "online" then Some online
  else if String.eqb status "offline" then Some offline
  else if String.eqb status "busy" then Some busy
  else None.

(** [updateDriverStatus(driverId, status)].  The hash the call writes under
    [driver:status:<id>] is deleted again by [invalidateDriverCache] at the
    end of the same call and nothing in between reads it, so only the
    deletion is carried. *)
Definition updateDriverStatus (driverId status : string) (w : World) : World * result Driver :=
  match parse_driver_status status with
  | None => (w, Err (ConflictError ("Invalid status: " ++ status)))
  | Some s =>
      let is_driver d := String.eqb (driver_id d) driverId in
      let result := sql_returning is_driver (RideService.set_driver_status s) (drivers (db w)) in
      let w1 := with_db (with_drivers
                  (sql_update is_driver (RideService.set_driver_status s) (drivers (db w)))
                  (db w)) w in
      match result with
      | [] => (w1, Err (NotFoundError "Driver"))
      | driver :: _ =>
          let w2 :=
            match s with
            | online =>
                match latest_location driverId (driver_locations (db w1)) with
                | Some loc => addDriverLocation (driver_vehicle_type driver) driverId
                                (loc_longitude loc) (loc_latitude loc) w1
                | None => w1
                end
            | _ => removeDriverLocation (driver_vehicle_type driver) driverId w1
            end in
          (invalidateDriverCache driverId w2, Ok driver)
      end
  end.

End DriverService.

(** ** Rate limiter middleware: sliding window over a Redis sorted set

    The key of a caller is also given a time to live of the window rounded
    up to whole seconds.  Times are milliseconds since the epoch, so by the
    time the key lapses every entry is older than the window and the next
    trim would drop it anyway; the expiry is therefore not modelled. *)
Module RateLimiter.

(** A sorted set: members with their scores, no member twice. *)
Definition zset : Type := list (string * Z).

(** [ZREMRANGEBYSCORE key 0 hi] *)
Definition zremrangebyscore (hi : Z) (s : zset) : zset :=
  List.filter (fun e => negb ((0 <=? snd e)%Z && (snd e <=? hi)%Z)) s.

Definition zcard (s : zset) : Z := Z.of_nat (length s).

(** [ZADD key score member]: a member that is present gets the new score. *)
Definition zadd (score : Z) (member : string) (s : zset) : zset :=
  if existsb (fun e => String.eqb (fst e) member) s
  then map (fun e => if String.eqb (fst e) member then (member, score) else e) s
  else (s ++ [(member, score)])%list.

Record Decision : Type := mkDecision {
  allowed : bool;
  limit_header : Z;
  remaining_header : Z;
  retry_after : option Z
}.

(** One pass of the middleware for the key of one caller: [member] is the
    text [`${now}-${Math.random()}`] drawn for this request. *)
Definition rateLimiter (windowMs max now : Z) (member : string) (s : zset) : zset * Decision :=
  let windowStart := (now - windowMs)%Z in
  let trimmed := zremrangebyscore windowStart s in
  let requestCount := zcard trimmed in
  let s' := zadd now member trimmed in
  let remaining := Z.max 0 (max - requestCount - 1) in
  if (max <=? requestCount)%Z
  then (s', mkDecision false max remaining (Some (Qceiling (inject_Z windowMs / 1000))))
  else (s', mkDecision true max remaining None).

(** Successive requests of one caller, each with its time and the member
    text drawn for it, served in order starting from an empty set.  The log
    keeps, for every request, its time and whether it was let through. *)
Definition serve_one (windowMs max : Z) (acc : zset * list (Z * bool)) (req : Z * string)
    : zset * list (Z * bool) :=
  let '(s', d) := rateLimiter windowMs max (fst req) (snd req) (fst acc) in
  (s', (snd acc ++ [(fst req, allowed d)])%list).

Definition serve (windowMs max : Z) (reqs : list (Z * string)) : zset * list (Z * bool) :=
  fold_left (serve_one windowMs max) reqs ([], []).

(** The entry a request leaves in the set. *)
Definition as_entry (r : Z * string) : string * Z := (snd r, fst r).

(** The requests of a log that were let through in the window ending at
    [T]. *)
Definition let_through (windowMs T : Z) (log : list (Z * bool)) : list (Z * bool) :=
  List.filter (fun e => snd e && (T - windowMs <? fst e)%Z && (fst e <=? T)%Z) log.

End RateLimiter.

(** ** Ranking of scored drivers *)
Module Ranking.
Import MatchingService.

(** [a] may stand before [b] in the list [findDriversForRide] returns. *)
Definition ranks_before (a b : ScoredDriver) : Prop :=
  (scored_score b <= scored_score a)%Q.

End Ranking.

(** * Properties *)

(** ** Fare *)
Module FareProofs.
Import Fare FareSpec.
Local Open Scope Q_scope.

#[local] Instance round_cents_wd : Proper (Qeq ==> Qeq) round_cents.
Proof. intros x y H. unfold round_cents. rewrite H. reflexivity. Qed.

Lemma round_cents_round2 (x : Q) : 0 <= x -> round_cents x == round2 x.
Proof.
  intros Hx. unfold round_cents, round2, round_half_away.
  assert (H : Qle_bool 0 (x * 100) = true).
  { apply Qle_bool_iff. apply Qmult_le_0_compat; [exact Hx | discriminate]. }
  rewrite H. reflexivity.
Qed.

Lemma Qfloor_half_nonneg (y : Q) : 0 <= y -> (0 <= Qfloor (y + (1 # 2)))%Z.
Proof.
  intros Hy. change 0%Z with (Qfloor 0). apply Qfloor_resp_le. lra.
Qed.

Lemma round_cents_nonneg (x : Q) : 0 <= x -> 0 <= round_cents x.
Proof.
  intros Hx. unfold round_cents.
  apply Qle_shift_div_l; [reflexivity |].
  rewrite Qmult_0_l. change 0 with (inject_Z 0). rewrite <- Zle_Qle.
  apply Qfloor_half_nonneg. apply Qmult_le_0_compat; [exact Hx | discriminate].
Qed.

Lemma Qfloor_Z_half (k : Z) : Qfloor (inject_Z k + (1 # 2)) = k.
Proof.
  unfold Qfloor, Qplus, inject_Z. simpl.
  change (Z.pos (1 * 2)) with 2%Z. symmetry.
  apply Z.div_unique with (r := 1%Z); lia.
Qed.

(** Rounding to cents leaves a whole number of cents as it is. *)
Lemma round_cents_of_cents (k : Z) :
  round_cents (inject_Z k / inject_Z 100) == inject_Z k / inject_Z 100.
Proof.
  unfold round_cents.
  assert (E : inject_Z k / inject_Z 100 * 100 + (1 # 2) == inject_Z k + (1 # 2)) by field.
  rewrite E, Qfloor_Z_half. reflexivity.
Qed.

(** The breakdown on numbers, for the three tiers. *)
Lemma calculateFare_numeric (t : Tier) (d m s : Q) :
  calculateFare (Some (tier_name t)) (JNum d) (JNum m) (JNum s) =
  let dF := round_cents (d * per_km t) in
  let tF := round_cents (m * per_min t) in
  let sub := base t + dF + tF in
  let sF := if Qle_bool s 1 then 0 else round_cents (sub * (s - 1)) in
  let tx := round_cents ((sub + sF) * (5 # 100)) in
  mkFare (JNum (base t)) (JNum dF) (JNum tF) (JNum sF) (JNum s) (JNum tx)
    (JNum sub) (JNum (round_cents (sub + sF + tx))) "INR".
Proof.
  assert (G : jgt (JNum s) (JNum 1) = negb (Qle_bool s 1)) by reflexivity.
  destruct t; unfold calculateFare; rewrite G;
    destruct (Qle_bool s 1); reflexivity.
Qed.

(** On exact numbers, that is, were no product or quotient rounded to a
    double: for each of the three tiers and non-negative distance, duration
    and surge multiplier, [calculateFare] returns numbers with
    distanceFare = round(distance * per_km, 2),
    timeFare = round(duration * per_min, 2),
    surgeFare = round((base + distanceFare + timeFare) * (surge - 1), 2) when
    surge > 1 and 0 otherwise,
    taxes = round((subtotal + surgeFare) * 0.05, 2),
    and a total within 0.01 of
    round(base + distanceFare + timeFare + surgeFare + taxes, 2). *)
Theorem calculateFare_breakdown (t : Tier) (d m s : Q) :
  0 <= d -> 0 <= m -> 0 <= s ->
  exists dF tF sF tx tot : Q,
    let f := calculateFare (Some (tier_name t)) (JNum d) (JNum m) (JNum s) in
    baseFare f = JNum (base t) /\ distanceFare f = JNum dF /\ timeFare f = JNum tF /\
    surgeFare f = JNum sF /\ taxes f = JNum tx /\ total f = JNum tot /\
    dF == round2 (d * per_km t) /\
    tF == round2 (m * per_min t) /\
    (1 < s -> sF == round2 ((base t + dF + tF) * (s - 1))) /\
    (s <= 1 -> sF == 0) /\
    tx == round2 ((base t + dF + tF + sF) * (5 # 100)) /\
    Qabs (tot - round2 (base t + dF + tF + sF + tx)) <= 1 # 100.
Proof.
  intros Hd Hm Hs.
  set (dF := round_cents (d * per_km t)).
  set (tF := round_cents (m * per_min t)).
  set (sub := base t + dF + tF).
  set (sF := if Qle_bool s 1 then 0 else round_cents (sub * (s - 1))).
  set (tx := round_cents ((sub + sF) * (5 # 100))).
  exists dF, tF, sF, tx, (round_cents (sub + sF + tx)).
  rewrite calculateFare_numeric. cbn zeta.
  cbn [baseFare distanceFare timeFare surgeFare taxes total].
  assert (Hbase : 0 <= base t) by (destruct t; discriminate).
  assert (Hkm : 0 <= per_km t) by (destruct t; discriminate).
  assert (Hmin : 0 <= per_min t) by (destruct t; discriminate).
  assert (HdF : 0 <= dF) by (apply round_cents_nonneg, Qmult_le_0_compat; assumption).
  assert (HtF : 0 <= tF) by (apply round_cents_nonneg, Qmult_le_0_compat; assumption).
  assert (Hsub : 0 <= sub) by (unfold sub; lra).
  assert (HsF : 0 <= sF).
  { unfold sF. destruct (Qle_bool s 1) eqn:E; [lra |].
    apply round_cents_nonneg, Qmult_le_0_compat; [exact Hsub |].
    assert (~ s <= 1) by (rewrite <- Qle_bool_iff, E; discriminate). lra. }
  assert (Htx : 0 <= tx).
  { apply round_cents_nonneg, Qmult_le_0_compat; [lra | discriminate]. }
  repeat split; try reflexivity.
  - apply round_cents_round2, Qmult_le_0_compat; assumption.
  - apply round_cents_round2, Qmult_le_0_compat; assumption.
  - intros H1. unfold sF. destruct (Qle_bool s 1) eqn:E.
    + apply Qle_bool_iff in E. lra.
    + apply round_cents_round2, Qmult_le_0_compat; [exact Hsub | lra].
  - intros H1. unfold sF. apply Qle_bool_iff in H1. rewrite H1. reflexivity.
  - apply round_cents_round2, Qmult_le_0_compat; [fold sub; lra | discriminate].
  - fold sub. rewrite <- round_cents_round2 by lra.
    setoid_replace (round_cents (sub + sF + tx) - round_cents (sub + sF + tx))
      with 0 using relation Qeq by ring.
    discriminate.
Qed.

Lemma calculateFare_breakdown_witness :
  exists dF tF sF tx tot : Q,
    let f := calculateFare (Some (tier_name economy)) (JNum 10) (JNum 30) (JNum (3 # 2)) in
    baseFare f = JNum (base economy) /\ distanceFare f = JNum dF /\ timeFare f = JNum tF /\
    surgeFare f = JNum sF /\ taxes f = JNum tx /\ total f = JNum tot /\
    dF == round2 (10 * per_km economy) /\
    tF == round2 (30 * per_min economy) /\
    (1 < 3 # 2 -> sF == round2 ((base economy + dF + tF) * ((3 # 2) - 1))) /\
    ((3 # 2) <= 1 -> sF == 0) /\
    tx == round2 ((base economy + dF + tF + sF) * (5 # 100)) /\
    Qabs (tot - round2 (base economy + dF + tF + sF + tx)) <= 1 # 100.
Proof.
  apply (calculateFare_breakdown economy 10 30 (3 # 2)); discriminate.
Defined.

(** The values of the unit tests of the repository. *)
Example calculateFare_economy_10km_30min :
  calculateFare (Some "economy") (JNum 10) (JNum 30) (JNum 1)
  = mkFare (JNum 50) (JNum (12000 # 100)) (JNum (4500 # 100)) (JNum 0) (JNum 1)
      (JNum (1075 # 100)) (JNum (2150000 # 10000)) (JNum (22575 # 100)) "INR".
Proof. vm_compute. reflexivity. Qed.

Lemma is_cents_round (x : Q) : is_cents (round_cents x).
Proof. eexists. unfold round_cents. reflexivity. Qed.

Lemma is_cents_plus (a b : Q) : is_cents a -> is_cents b -> is_cents (a + b).
Proof.
  intros [k Hk] [l Hl]. exists (k + l)%Z. rewrite Hk, Hl, inject_Z_plus. field.
Qed.

Lemma is_cents_base (t : Tier) : is_cents (base t).
Proof.
  destruct t; [exists 5000%Z | exists 10000%Z | exists 15000%Z]; reflexivity.
Qed.

(** Fare closure holds exactly on exact numbers: every component is a whole
    number of cents, so the final rounding changes nothing. *)
Lemma calculateFare_total_exact (t : Tier) (d m s : Q) :
  exists dF tF sF tx tot : Q,
    let f := calculateFare (Some (tier_name t)) (JNum d) (JNum m) (JNum s) in
    distanceFare f = JNum dF /\ timeFare f = JNum tF /\ surgeFare f = JNum sF /\
    taxes f = JNum tx /\ total f = JNum tot /\
    tot == base t + dF + tF + sF + tx.
Proof.
  rewrite calculateFare_numeric. cbn zeta.
  do 5 eexists. repeat split.
  cbn [total].
  match goal with |- round_cents ?x == _ => assert (C : is_cents x) end.
  { repeat apply is_cents_plus; try apply is_cents_round; try apply is_cents_base.
    destruct (Qle_bool s 1); [exists 0%Z; reflexivity | apply is_cents_round]. }
  destruct C as [k Hk]. rewrite Hk, round_cents_of_cents. reflexivity.
Qed.

(** A tier that names neither a configured tier nor a member of
    [Object.prototype] is charged the economy rates. *)
Lemma unknown_tier_uses_economy (tier : option string) (d m s : jsval) :
  get_prop FARE_CONFIG (prop_key tier) = Absent ->
  calculateFare tier d m s = calculateFare (Some "economy") d m s
  /\ calculateEstimatedFare d tier = calculateEstimatedFare d (Some "economy").
Proof.
  intros H. split.
  - unfold calculateFare, select_config. rewrite H. reflexivity.
  - unfold calculateEstimatedFare.
    assert (Hb : get_prop baseFares (prop_key tier) = Absent
                 /\ get_prop perKmRates (prop_key tier) = Absent).
    { revert H. unfold get_prop. cbn [own_prop FARE_CONFIG baseFares perKmRates].
      destruct (String.eqb (prop_key tier) "economy"); [discriminate |].
      destruct (String.eqb (prop_key tier) "premium"); [discriminate |].
      destruct (String.eqb (prop_key tier) "xl"); [discriminate |].
      destruct (inherited_key (prop_key tier)); [discriminate |]. auto. }
    destruct Hb as [-> ->]. reflexivity.
Qed.

(** C9.  The tier [constructor] lies outside economy, premium and xl, yet
    neither function charges it the economy rates: the lookup finds the
    member every object inherits, the fallback is not taken, and the fare is
    NaN; for [unknown] and for [undefined] the fallback works. *)
Theorem inherited_tier_is_not_economy :
  total (calculateFare (Some "constructor") (JNum 10) (JNum 30) (JNum 1)) = JNaN
  /\ total (calculateFare (Some "economy") (JNum 10) (JNum 30) (JNum 1)) = JNum (22575 # 100)
  /\ calculateEstimatedFare (JNum 10) (Some "constructor") = JNaN
  /\ calculateEstimatedFare (JNum 10) (Some "economy") = JNum 170
  /\ calculateEstimatedFare (JNum 10) (Some "unknown") = JNum 170
  /\ calculateEstimatedFare (JNum 10) None = JNum 170.
Proof. vm_compute. repeat split; reflexivity. Qed.

End FareProofs.

(** ** The fare on doubles *)
Module Binary64Proofs.
Import PrimFloat Binary64.
Local Open Scope float_scope.

(** On the inputs of the unit tests the doubles give the expected values. *)
Example calculateFare_unit_tests :
  calculateFare (Some "economy") 10 30 1
  = mkFare 50 120 45 0 1 (1075 / 100) 215 (22575 / 100) "INR"
  /\ surgeFare (calculateFare (Some "economy") 10 30 (3 / 2)) = 1075 / 10.
Proof. vm_compute. split; reflexivity. Qed.

(** C7.  [calculateFare('economy', 22, 2, 1.1)]: the subtotal is 317 and the
    surge fare 31.7, so the taxes are to be round(348.7 * 0.05, 2) =
    round(17.435, 2) = 17.44; the doubles give 1743.4999999999998 for
    [(subtotal + surgeFare) * 0.05 * 100] and the taxes come out as 17.43,
    the total as 366.13.  Without surge, [calculateFare('economy', 1.3, 11,
    1)] has subtotal 82.1 and is to have taxes round(4.105, 2) = 4.11; it
    returns 4.1. *)
Theorem calculateFare_taxes_lose_a_cent :
  calculateFare (Some "economy") 22 2 (11 / 10)
  = mkFare 50 264 3 (317 / 10) (11 / 10) (1743 / 100) 317 (36613 / 100) "INR"
  /\ ((317 + 317 / 10) * of_Q (5 # 100) * 100 <? 17435 / 10) = true
  /\ (FareSpec.round2 ((317 + (317 # 10)) * (5 # 100)) == 1744 # 100)%Q
  /\ (1743 / 100 <? 1744 / 100) = true
  /\ calculateFare (Some "economy") (13 / 10) 11 1
     = mkFare 50 (156 / 10) (165 / 10) 0 1 (410 / 100) (821 / 10) (8620 / 100) "INR"
  /\ (FareSpec.round2 ((821 # 10) * (5 # 100)) == 411 # 100)%Q.
Proof.
  repeat split; vm_compute; reflexivity.
Qed.

End Binary64Proofs.

(** ** Trip end *)
Module TripProofs.
Import TripService Samples.

Lemma trip_distance_zero (dur : jsval) (polyline : option string) (ride : Ride) :
  trip_distance (mkTripData (JNum 0) dur polyline) ride
  = decimal_or (ride_estimated_distance_km ride) (JNum 5).
Proof. reflexivity. Qed.

Lemma trip_duration_zero (dist : jsval) (polyline : option string) (trip : Trip) (now : Z) :
  trip_duration (mkTripData dist (JNum 0) polyline) trip now
  = JNum (inject_Z (Qceiling (inject_Z (now - trip_started_at trip) / inject_Z 60000))).
Proof. reflexivity. Qed.


(** Ending the sample trip after 20 minutes with distance and duration given
    as 0 charges the estimated 4.9 km and the 20 minutes elapsed. *)
Example endTrip_zero_inputs_run :
  let w := sample_world [sample_ride IN_PROGRESS (Some "driver-1")] [sample_driver busy] []
             [sample_trip TRIP_IN_PROGRESS None] in
  snd (endTrip "trip-1" (mkTripData (JNum 0) (JNum 0) None) 1200000 w)
  = Ok (mkTripEnded "trip-1" "ride-1"
          (Fare.calculateFare (Some "economy") (JNum (49 # 10)) (JNum 20) (JNum 1))).
Proof. vm_compute. reflexivity. Qed.

End TripProofs.

(** ** Facts about the SQL fragments *)
Module SqlFacts.

Lemma sql_returning_nil {A} (p : A -> bool) (f : A -> A) (t : list A) :
  sql_returning p f t = [] <-> forall r, In r t -> p r = false.
Proof.
  unfold sql_returning. induction t as [| a t IH]; cbn.
  - split; [intros _ r [] | reflexivity].
  - destruct (p a) eqn:E; cbn.
    + split; [discriminate |]. intros H. specialize (H a (or_introl eq_refl)). congruence.
    + rewrite IH. split.
      * intros H r [<- | Hr]; [exact E | exact (H r Hr)].
      * intros H r Hr. apply H. right. exact Hr.
Qed.

Lemma sql_update_In {A} (p : A -> bool) (f : A -> A) (t : list A) (r : A) :
  In r t -> In (if p r then f r else r) (sql_update p f t).
Proof.
  intros H. unfold sql_update.
  apply (in_map (fun r => if p r then f r else r)). exact H.
Qed.

Lemma select_head_In {A} (p : A -> bool) (t : list A) (a : A) (rest : list A) :
  sql_select p t = a :: rest -> In a t /\ p a = true.
Proof.
  intros E. apply (filter_In p a t). unfold sql_select in E. rewrite E. left. reflexivity.
Qed.

Lemma returning_head {A} (p : A -> bool) (f : A -> A) (t : list A) (a : A) (rest : list A) :
  sql_select p t = a :: rest -> sql_returning p f t = f a :: map f rest.
Proof. unfold sql_select, sql_returning. intros ->. reflexivity. Qed.

Lemma RideStatus_eqb_eq (a b : RideStatus) : RideStatus_eqb a b = true <-> a = b.
Proof. destruct a, b; cbn; split; intros H; try reflexivity; discriminate. Qed.

Lemma DriverStatus_eqb_eq (a b : DriverStatus) : DriverStatus_eqb a b = true <-> a = b.
Proof. destruct a, b; cbn; split; intros H; try reflexivity; discriminate. Qed.

Lemma OfferStatus_eqb_eq (a b : OfferStatus) : OfferStatus_eqb a b = true <-> a = b.
Proof. destruct a, b; cbn; split; intros H; try reflexivity; discriminate. Qed.

End SqlFacts.

(** ** Ride lifecycle *)
Module LifecycleProofs.
Import RideService TripService MatchingService SimulationService Samples SqlFacts.

Lemma cancellable_iff (id : string) (r : Ride) :
  cancellable id r = true <->
  ride_id r = id /\ ride_status r <> COMPLETED /\ ride_status r <> CANCELLED.
Proof.
  unfold cancellable. rewrite andb_true_iff, String.eqb_eq.
  destruct (ride_status r); cbn; intuition congruence.
Qed.

(** What the guard of [cancelRide] lets through: every ride that is neither
    completed nor cancelled, a ride in progress included. *)
Lemma cancelRide_succeeds_iff (id : string) (reason : option string) (now : Z) (w : World) :
  (exists w' r, cancelRide id reason now w = (w', Ok r)) <->
  (exists r, In r (rides (db w)) /\ ride_id r = id
             /\ ride_status r <> COMPLETED /\ ride_status r <> CANCELLED).
Proof.
  unfold cancelRide.
  destruct (sql_returning (cancellable id) (cancel_row reason now) (rides (db w)))
    as [| ride rest] eqn:E.
  - split.
    + intros (w' & r & H). discriminate.
    + intros (r & Hin & Hc). apply cancellable_iff in Hc.
      rewrite sql_returning_nil in E. rewrite (E r Hin) in Hc. discriminate.
  - split.
    + intros _.
      destruct (list_find (fun r => cancellable id r = true) (rides (db w)))
        as [[i r] |] eqn:F.
      * apply list_find_Some in F as (Hl & Hc & _).
        exists r. split; [| apply cancellable_iff; exact Hc].
        apply list_elem_of_In. eapply list_elem_of_lookup_2. exact Hl.
      * exfalso. apply list_find_None in F.
        assert (N : sql_returning (cancellable id) (cancel_row reason now) (rides (db w)) = []).
        { apply sql_returning_nil. intros r Hr. apply list_elem_of_In in Hr.
          rewrite Forall_forall in F. specialize (F r Hr).
          destruct (cancellable id r); [contradiction | reflexivity]. }
        congruence.
    + intros _. destruct (ride_driver_id ride); eauto.
Qed.

(** A completed or cancelled ride is left as it is by [cancelRide]. *)
Lemma cancelRide_keeps_terminal (id : string) (reason : option string) (now : Z)
    (w : World) (r : Ride) :
  In r (rides (db w)) ->
  ride_status r = COMPLETED \/ ride_status r = CANCELLED ->
  In r (rides (db (fst (cancelRide id reason now w)))).
Proof.
  intros Hin Hst.
  assert (Hc : cancellable id r = false).
  { unfold cancellable. destruct Hst as [-> | ->]; cbn; apply andb_false_r. }
  pose proof (sql_update_In (cancellable id) (cancel_row reason now) _ _ Hin) as H.
  rewrite Hc in H. unfold cancelRide.
  destruct (sql_returning _ _ _) as [| ride ?]; [exact H |].
  destruct (ride_driver_id ride); exact H.
Qed.

(** C3.  A ride in status IN_PROGRESS is moved to CANCELLED by [cancelRide]:
    the call succeeds, the ride row reads CANCELLED with its version raised,
    the driver is set online, and the trip row stays IN_PROGRESS.  The
    sibling [updateRideStatus] refuses the same transition. *)
Theorem cancelRide_cancels_ride_in_progress :
  let w := sample_world [sample_ride IN_PROGRESS (Some "driver-1")] [sample_driver busy] []
             [sample_trip TRIP_IN_PROGRESS None] in
  let w' := fst (cancelRide "ride-1" (Some "Cancelled by rider") 100 w) in
  (exists r, snd (cancelRide "ride-1" (Some "Cancelled by rider") 100 w) = Ok r
             /\ ride_status r = CANCELLED /\ ride_version r = 4%Z)
  /\ map ride_status (rides (db w')) = [CANCELLED]
  /\ map driver_status (drivers (db w')) = [online]
  /\ map trip_status (trips (db w')) = [TRIP_IN_PROGRESS]
  /\ snd (updateRideStatus "ride-1" "CANCELLED" None 100 w)
     = Err (InvalidStateTransitionError "IN_PROGRESS" "CANCELLED" "Ride").
Proof.
  cbn zeta. split; [eexists; vm_compute; repeat split | vm_compute; repeat split].
Qed.

(** C4.  [updateRideStatusForTrip] writes DRIVER_ARRIVED (and likewise
    DRIVER_EN_ROUTE) over whatever status the ride has, a completed or
    cancelled ride included; [updateRideStatus] applies the transition table
    and refuses. *)
Theorem updateRideStatusForTrip_ignores_current_status (s : RideStatus) :
  let w := sample_world [sample_ride s (Some "driver-1")] [sample_driver busy] [] [] in
  (exists w' r, updateRideStatusForTrip "ride-1" "DRIVER_ARRIVED" 100 w = (w', Ok r)
                /\ ride_status r = DRIVER_ARRIVED
                /\ map ride_status (rides (db w')) = [DRIVER_ARRIVED])
  /\ (exists w' r, updateRideStatusForTrip "ride-1" "DRIVER_EN_ROUTE" 100 w = (w', Ok r)
                   /\ ride_status r = DRIVER_EN_ROUTE)
  /\ snd (updateRideStatus "ride-1" "DRIVER_ARRIVED" None 100
            (sample_world [sample_ride COMPLETED (Some "driver-1")] [sample_driver busy] [] []))
     = Err (InvalidStateTransitionError "COMPLETED" "DRIVER_ARRIVED" "Ride").
Proof.
  cbn zeta. repeat split.
  - destruct s; do 2 eexists; vm_compute; repeat split.
  - destruct s; do 2 eexists; vm_compute; repeat split.
Qed.

(** From COMPLETED back to DRIVER_ARRIVED and on to a second trip. *)
Example completed_ride_restarted :
  let w := sample_world [sample_ride COMPLETED (Some "driver-1")] [sample_driver online] []
             [sample_trip TRIP_COMPLETED None] in
  let w1 := fst (updateRideStatusForTrip "ride-1" "DRIVER_ARRIVED" 100 w) in
  let w2 := fst (startTrip "ride-1" "trip-2" 200 w1) in
  map ride_status (rides (db w1)) = [DRIVER_ARRIVED]
  /\ map ride_status (rides (db w2)) = [IN_PROGRESS]
  /\ map trip_id (trips (db w2)) = ["trip-1"; "trip-2"].
Proof. vm_compute. repeat split. Qed.

(** Both ways into IN_PROGRESS are guarded by DRIVER_ARRIVED. *)
Lemma startTrip_requires_arrived (rideId tripId : string) (now : Z) (w w' : World)
    (t : TripStarted) :
  startTrip rideId tripId now w = (w', Ok t) ->
  exists ride, In ride (rides (db w)) /\ ride_id ride = rideId
               /\ ride_status ride = DRIVER_ARRIVED.
Proof.
  unfold startTrip, executeTransaction. intros H.
  destruct (sql_select _ (rides (db w))) as [| ride rest] eqn:E; [discriminate |].
  assert (Hin : In ride (sql_select (fun r => String.eqb (ride_id r) rideId) (rides (db w))))
    by (rewrite E; left; reflexivity).
  apply filter_In in Hin as [Hin Hid]. apply String.eqb_eq in Hid.
  exists ride. repeat split; try assumption.
  destruct (ride_status ride); cbn in H; try discriminate. reflexivity.
Qed.

Lemma updateRideStatus_in_progress_requires_arrived (id : string) (v : option Z) (now : Z)
    (w w' : World) (r : Ride) :
  updateRideStatus id "IN_PROGRESS" v now w = (w', Ok r) ->
  read_current id w = CurrentRide DRIVER_ARRIVED.
Proof.
  unfold updateRideStatus. intros H.
  destruct (read_current id w) as [s | |]; try discriminate.
  destruct s; cbn in H; try discriminate. reflexivity.
Qed.

Lemma create_offers_rides (rideId : string) (scored : list ScoredDriver)
    (uuid : nat -> string) (n : nat) (now : Z) (w : World) :
  rides (db (create_offers rideId scored uuid n now w)) = rides (db w).
Proof.
  revert n w. induction scored as [| s rest IH]; intros n w; cbn; [reflexivity |].
  rewrite IH. reflexivity.
Qed.

Lemma set_status_only_version (p : Ride -> bool) (s : RideStatus) (now : Z) (t : list Ride) :
  map ride_version (sql_update p (set_status_only s now) t) = map ride_version t.
Proof.
  unfold sql_update. rewrite map_map. apply map_ext.
  intros r. destruct (p r); reflexivity.
Qed.

(** No run of [findDriversForRide] changes the version of any ride. *)
Lemma findDriversForRide_versions (rideId : string) (nearby : list (string * Q))
    (uuid : nat -> string) (now : Z) (w : World) :
  map ride_version (rides (db (fst (findDriversForRide rideId nearby uuid now w))))
  = map ride_version (rides (db w)).
Proof.
  unfold findDriversForRide.
  destruct (sql_select _ (rides (db w))) as [| ride rest]; [reflexivity |].
  destruct (negb _ && negb _); [reflexivity |].
  destruct nearby as [| d ds]; cbn [fst].
  - cbn [db rides with_db with_rides]. rewrite !set_status_only_version. reflexivity.
  - rewrite create_offers_rides. cbn [db rides with_db with_rides].
    apply set_status_only_version.
Qed.

(** C5.  The status writes of matching leave the version where it was: with
    a driver nearby the ride goes from REQUESTED to MATCHING at version 3,
    and with none it is written twice (MATCHING, then back to REQUESTED) and
    still reads version 3; the write of [updateRideStatus] raises it to 4. *)
Theorem findDriversForRide_does_not_increment_version :
  let w := sample_world [sample_ride REQUESTED None] [sample_driver online] [] [] in
  let matched := fst (findDriversForRide "ride-1" [("driver-1", 1%Q)] (fun _ => "offer-1") 100 w) in
  let reverted := fst (findDriversForRide "ride-1" [] (fun _ => "offer-1") 100 w) in
  map ride_version (rides (db w)) = [3%Z]
  /\ map ride_status (rides (db matched)) = [MATCHING]
  /\ map ride_version (rides (db matched)) = [3%Z]
  /\ map ride_updated_at (rides (db matched)) = [100%Z]
  /\ map ride_status (rides (db reverted)) = [REQUESTED]
  /\ map ride_version (rides (db reverted)) = [3%Z]
  /\ map ride_version (rides (db (fst (updateRideStatus "ride-1" "MATCHING" None 100 w)))) = [4%Z].
Proof. vm_compute. repeat split. Qed.

(** [cancelRide] touches neither the geo index nor the simulator. *)
Lemma cancelRide_geo_simulator (id : string) (reason : option string) (now : Z) (w : World) :
  geo (fst (cancelRide id reason now w)) = geo w
  /\ activeSimulations (fst (cancelRide id reason now w)) = activeSimulations w.
Proof.
  unfold cancelRide.
  destruct (sql_returning _ _ _) as [| ride ?]; [split; reflexivity |].
  destruct (ride_driver_id ride); split; reflexivity.
Qed.

(** C6.  Cancelling the sample ride while the driver is en route sets the
    driver online, but the driver, whose last known location is on record,
    is not put back into the geo index and the simulation keeps running;
    [endTrip], which releases a driver as well, does both. *)
Theorem cancelRide_does_not_restore_driver :
  let w' := fst (cancelRide "ride-1" (Some "Cancelled by rider") 100 en_route_world) in
  let in_progress :=
    mkWorld (mkDb [sample_ride IN_PROGRESS (Some "driver-1")] [sample_driver busy] []
                  [sample_trip TRIP_IN_PROGRESS None] [] [sample_location])
            ∅ ∅ {[ Some "driver-1" := sample_simulation ]} [] in
  let ended := fst (endTrip "trip-1" (mkTripData JUndefined JUndefined None) 1200000 in_progress) in
  map ride_status (rides (db w')) = [CANCELLED]
  /\ map driver_status (drivers (db w')) = [online]
  /\ latest_location "driver-1" (driver_locations (db w')) = Some sample_location
  /\ geo w' !! (geo_key "economy", "driver-1") = None
  /\ activeSimulations w' !! Some "driver-1" = Some sample_simulation
  /\ geo ended !! (geo_key "economy", "driver-1")
     = Some (loc_longitude sample_location, loc_latitude sample_location)
  /\ activeSimulations ended !! Some "driver-1" = None.
Proof. vm_compute. repeat split. Qed.

End LifecycleProofs.

(** ** Acceptance *)
Module MatchingProofs.
Import RideService MatchingService SimulationService LockingService Samples SqlFacts.


Lemma db_invalidateRideCache (rideId : string) (d r : option string) (w : World) :
  db (invalidateRideCache rideId d r w) = db w.
Proof. destruct d, r; reflexivity. Qed.

Lemma db_startDriverSimulation (rideId : string) (d r : option string) (ph : SimPhase)
    (w : World) :
  db (startDriverSimulation rideId d r ph w) = db w.
Proof.
  unfold startDriverSimulation.
  destruct (sql_select _ _); reflexivity.
Qed.

Lemma settle_offers_eq (rideId driverId : string) (now : Z) (t : list RideOffer) :
  sql_update (other_pending_offer rideId driverId) cancel_offer
    (sql_update (offer_of rideId driverId) (accept_offer now) t)
  = map (settle_offer rideId driverId now) t.
Proof.
  unfold sql_update. rewrite map_map. apply map_ext. intros o.
  unfold settle_offer, offer_of, other_pending_offer, accept_offer, cancel_offer, set_offer.
  destruct o as [i r d s e resp]; cbn.
  destruct (String.eqb r rideId) eqn:Er; destruct (String.eqb d driverId) eqn:Ed;
    destruct s; cbn; rewrite ?Er, ?Ed; reflexivity.
Qed.

(** The committed store after a successful acceptance. *)
Lemma accept_transaction_ok (rideId driverId : string) (now : Z) (w w' : World) (r : Ride) :
  accept_transaction rideId driverId now w = (w', Ok r) ->
  exists ride driver offer,
    (In ride (rides (db w)) /\ ride_id ride = rideId /\ ride_status ride = MATCHING)
    /\ (In driver (drivers (db w)) /\ driver_id driver = driverId
        /\ driver_status driver = online)
    /\ (In offer (ride_offers (db w)) /\ offer_ride_id offer = rideId
        /\ offer_driver_id offer = driverId /\ offer_status offer = pending)
    /\ r = assign_row driverId now ride
    /\ rides (db w') = sql_update (fun x => String.eqb (ride_id x) rideId)
                         (assign_row driverId now) (rides (db w))
    /\ drivers (db w') = sql_update (fun d => String.eqb (driver_id d) driverId)
                           (set_driver_status busy) (drivers (db w))
    /\ ride_offers (db w') = map (settle_offer rideId driverId now) (ride_offers (db w)).
Proof.
  unfold accept_transaction. intros H.
  destruct (sql_select _ (rides (db w))) as [| ride rest] eqn:Er; [discriminate |].
  destruct (RideStatus_eqb (ride_status ride) MATCHING) eqn:Es; cbn [negb] in H;
    [| destruct (ride_driver_id ride); discriminate].
  destruct (sql_select _ (drivers (db w))) as [| driver ?] eqn:Ed; [discriminate |].
  destruct (sql_select _ (ride_offers (db w))) as [| offer ?] eqn:Eo; [discriminate |].
  rewrite (returning_head _ _ _ _ _ Er) in H.
  injection H as Hw Hr.
  apply select_head_In in Er as [Hin Hid]. apply String.eqb_eq in Hid.
  apply select_head_In in Ed as [Hdin Hd]. apply andb_true_iff in Hd as [Hd1 Hd2].
  apply String.eqb_eq in Hd1. apply DriverStatus_eqb_eq in Hd2.
  apply select_head_In in Eo as [Hoin Ho]. unfold pending_offer_of, offer_of in Ho.
  apply andb_true_iff in Ho as [Ho12 Ho3]. apply andb_true_iff in Ho12 as [Ho1 Ho2].
  apply String.eqb_eq in Ho1, Ho2. apply OfferStatus_eqb_eq in Ho3.
  apply RideStatus_eqb_eq in Es.
  exists ride, driver, offer. subst w' r.
  rewrite db_startDriverSimulation.
  repeat split; try assumption; try reflexivity.
  cbn. apply settle_offers_eq.
Qed.

End MatchingProofs.

(** ** Payment *)
Module PaymentProofs.
Import PaymentService Samples SqlFacts.

Lemma world_eta (w : World) :
  mkWorld (db w) (kv w) (geo w) (activeSimulations w) (events w) = w.
Proof. destruct w; reflexivity. Qed.

(** A cache hit answers at once and changes nothing. *)
Lemma processPayment_hit (tripId method key : string) (o : Oracle) (w : World) (d : document) :
  checkIdempotencyKey key w = Some d ->
  processPayment tripId method key o w = (w, Ok d).
Proof. intros H. unfold processPayment. rewrite H. reflexivity. Qed.

Lemma check_invalidate (key k : string) (w : World) :
  k <> idempotency_redis_key key ->
  checkIdempotencyKey key (invalidateCache k w) = checkIdempotencyKey key w.
Proof.
  intros Hk. unfold checkIdempotencyKey, invalidateCache. cbn [kv with_kv].
  rewrite lookup_delete_ne by exact Hk. reflexivity.
Qed.

Lemma check_emit (key : string) (e : Event) (w : World) :
  checkIdempotencyKey key (emit e w) = checkIdempotencyKey key w.
Proof. reflexivity. Qed.

Lemma check_invalidateRideCache (key rideId : string) (d r : option string) (w : World) :
  checkIdempotencyKey key (invalidateRideCache rideId d r w) = checkIdempotencyKey key w.
Proof.
  unfold invalidateRideCache, invalidateDriverCache.
  destruct d, r; rewrite ?check_invalidate; try reflexivity; discriminate.
Qed.

Lemma check_cachePaymentStatus (key tripId : string) (p : Payment) (w : World) :
  checkIdempotencyKey key w = Some (DocPayment p) ->
  checkIdempotencyKey key (cachePaymentStatus tripId p w) = Some (DocPayment p).
Proof.
  unfold checkIdempotencyKey, cachePaymentStatus, cacheSet. cbn [kv with_kv]. intros H.
  destruct (decide (CACHE_KEY_PAYMENT tripId = idempotency_redis_key key)) as [-> | Hne].
  - rewrite lookup_insert_eq. reflexivity.
  - rewrite lookup_insert_ne by exact Hne. exact H.
Qed.



Lemma events_invalidateRideCache (rideId : string) (d r : option string) (w : World) :
  events (invalidateRideCache rideId d r w) = events w.
Proof. destruct d, r; reflexivity. Qed.

Lemma psp_charges_app (w : World) (es : list Event) (w' : World) :
  events w' = (events w ++ es)%list ->
  psp_charges w' = (psp_charges w + length (List.filter is_charge es))%nat.
Proof.
  intros H. unfold psp_charges. rewrite H, List.filter_app, List.length_app. reflexivity.
Qed.

(** Taking a free lock and giving it back leaves the store as it was. *)
Lemma lock_release_roundtrip (lockKey value : string) (w : World) :
  kv w !! lockKey = None ->
  release_payment_lock lockKey value (with_kv (<[lockKey := Raw value]> (kv w)) w) = w.
Proof.
  intros H. unfold release_payment_lock. cbn [kv with_kv].
  rewrite lookup_insert_eq, String.eqb_refl.
  unfold with_kv. cbn [db kv geo activeSimulations events].
  rewrite delete_insert_id by exact H. apply world_eta.
Qed.

(** What the tail of the transaction leaves in Redis and on the bus. *)
Ltac settle_tail :=
  unfold invalidateRiderCurrentRide, invalidateDriverCurrentRide, publishNotification,
    invalidateRideCache, invalidateDriverCache;
  repeat (rewrite check_emit || rewrite check_invalidate by discriminate).

Lemma stored_result_survives (tripId key : string) (payment : Payment) (ride : Ride)
    (w : World) :
  let w5 := cachePaymentStatus tripId payment (storeIdempotencyResult key payment w) in
  let w6 := invalidateRideCache (ride_id ride) (ride_driver_id ride)
              (Some (ride_rider_id ride)) w5 in
  let w8 := invalidateRiderCurrentRide (ride_rider_id ride)
              (invalidateDriverCurrentRide (opt_text (ride_driver_id ride)) w6) in
  let w9 := if PaymentStatus_eqb (payment_status payment) pay_completed
            then publishNotification (ride_driver_id ride) "PAYMENT_RECEIVED"
                   (publishNotification (Some (ride_rider_id ride)) "PAYMENT_COMPLETED" w8)
            else w8 in
  checkIdempotencyKey key w9 = Some (DocPayment payment)
  /\ exists es, events w9 = (events w ++ es)%list /\ List.filter is_charge es = [].
Proof.
  cbn zeta. split.
  - destruct (PaymentStatus_eqb (payment_status payment) pay_completed),
      (ride_driver_id ride); settle_tail;
      apply check_cachePaymentStatus;
      unfold checkIdempotencyKey, storeIdempotencyResult; cbn [kv with_kv];
      rewrite lookup_insert_eq; reflexivity.
  - destruct (PaymentStatus_eqb (payment_status payment) pay_completed),
      (ride_driver_id ride); cbn;
      first [ exists []; rewrite app_nil_r; split; reflexivity
            | eexists; rewrite <- app_assoc; split; reflexivity ].
Qed.

(** The two ways the transaction returns a payment: the trip was paid
    before, and nothing is done; or the provider is invoked once and the
    outcome is stored under the idempotency key. *)
Lemma payment_transaction_ok (tripId method key : string) (o : Oracle) (w w' : World)
    (d : document) :
  payment_transaction tripId method key o w = (w', Ok d) ->
  (exists existing rest,
      sql_select (of_trip tripId) (payments (db w)) = existing :: rest
      /\ PaymentStatus_eqb (payment_status existing) pay_completed = true
      /\ d = DocPayment existing /\ w' = w)
  \/ (checkIdempotencyKey key w' = Some d
      /\ exists es, events w' = (events w ++ es)%list
                    /\ length (List.filter is_charge es) = 1%nat).
Proof.
  unfold payment_transaction. intros H.
  destruct (sql_select (of_trip tripId) (payments (db w))) as [| existing rest] eqn:Ex.
  - right.
    destruct (trip_with_ride _ _ _) as [[trip ride] |]; [| discriminate].
    destruct (trip_status trip); try discriminate.
    destruct (insert_violates _ _ _); [discriminate |].
    destruct (is_null _); [discriminate |].
    destruct (charge method o _) as [res |]; [| discriminate].
    match type of H with context [sql_returning ?p ?f ?t] =>
      destruct (sql_returning p f t) as [| payment ?] end; [discriminate |].
    match type of H with context [storeIdempotencyResult key payment ?w0] =>
      destruct (stored_result_survives tripId key payment ride w0) as (Hc & es & He & Hf) end.
    injection H as <- <-. split; [exact Hc |].
    exists (PspCharge method tripId :: es). split.
    + match type of He with _ = ?rhs => transitivity rhs; [exact He |] end.
      cbn [events emit with_db]. rewrite <- app_assoc. reflexivity.
    + cbn. rewrite Hf. reflexivity.
  - destruct (PaymentStatus_eqb (payment_status existing) pay_completed) eqn:Ec.
    + left. injection H as <- <-. eauto 10.
    + right.
      destruct (trip_with_ride _ _ _) as [[trip ride] |]; [| discriminate].
      destruct (trip_status trip); try discriminate.
      destruct (update_violates_unique _ _ _); [discriminate |].
      destruct (charge method o _) as [res |]; [| discriminate].
      match type of H with context [sql_returning ?p ?f ?t] =>
        destruct (sql_returning p f t) as [| payment ?] end; [discriminate |].
      match type of H with context [storeIdempotencyResult key payment ?w0] =>
        destruct (stored_result_survives tripId key payment ride w0) as (Hc & es & He & Hf) end.
      injection H as <- <-. split; [exact Hc |].
      exists (PspCharge method tripId :: es). split.
      * match type of He with _ = ?rhs => transitivity rhs; [exact He |] end.
        cbn [events emit with_db]. rewrite <- app_assoc. reflexivity.
      * cbn. rewrite Hf. reflexivity.
Qed.



(** C8.  When the lock of the trip is held, [processPayment] sleeps 100 ms
    and looks the key up again: a result cached meanwhile is returned,
    otherwise the call fails with Conflict.  Either way the call itself
    writes nothing: the world it leaves is the one the other requests left,
    with the sleep logged. *)
Theorem processPayment_lock_held (tripId method key : string) (o : Oracle)
    (w : World) (held : cache_value) :
  checkIdempotencyKey key w = None ->
  kv w !! payment_lock_key tripId = Some held ->
  let w1 := interfere (meanwhile o) (emit (Sleep 100) w) in
  processPayment tripId method key o w
  = (w1, match checkIdempotencyKey key w1 with
         | Some cached => Ok cached
         | None => Err (ConflictError "Payment is being processed. Please try again.")
         end)
  /\ events w1 = (events w ++ [Sleep 100])%list
  /\ psp_charges w1 = psp_charges w
  /\ ((forall x, meanwhile o x = x) ->
      db w1 = db w /\ kv w1 = kv w
      /\ snd (processPayment tripId method key o w)
         = Err (ConflictError "Payment is being processed. Please try again.")).
Proof.
  intros C L. cbn zeta. unfold processPayment. rewrite C, L.
  split; [| split; [| split]].
  - destruct (checkIdempotencyKey key (interfere _ _)); reflexivity.
  - reflexivity.
  - rewrite (psp_charges_app w [Sleep 100]
               (interfere (meanwhile o) (emit (Sleep 100) w)) eq_refl). cbn. lia.
  - intros Hid.
    assert (Hc : checkIdempotencyKey key (interfere (meanwhile o) (emit (Sleep 100) w)) = None).
    { unfold checkIdempotencyKey, interfere. cbn [kv]. rewrite Hid. exact C. }
    rewrite Hc. unfold interfere. cbn [db kv]. rewrite Hid. repeat split.
Qed.

Lemma processPayment_lock_held_witness :
  snd (processPayment "trip-1" "card" "key-K2" (sample_oracle true) locked_world)
    = Err (ConflictError "Payment is being processed. Please try again.")
  /\ payments (db (fst (processPayment "trip-1" "card" "key-K2" (sample_oracle true)
                          locked_world))) = []
  /\ snd (processPayment "trip-1" "card" "key-K2" concurrent_oracle locked_world)
    = Ok (DocPayment sample_payment).
Proof.
  destruct (processPayment_lock_held "trip-1" "card" "key-K2" (sample_oracle true)
              locked_world (Raw "lock-token-0")
              ltac:(vm_compute; reflexivity) ltac:(vm_compute; reflexivity))
    as (H1 & _ & _ & H4).
  destruct (H4 (fun x => eq_refl)) as (Hdb & _ & Herr).
  destruct (processPayment_lock_held "trip-1" "card" "key-K2" concurrent_oracle
              locked_world (Raw "lock-token-0")
              ltac:(vm_compute; reflexivity) ltac:(vm_compute; reflexivity))
    as (H5 & _).
  split; [exact Herr | split].
  - rewrite H1. cbn [fst]. rewrite Hdb. reflexivity.
  - rewrite H5. vm_compute. reflexivity.
Defined.

End PaymentProofs.

(** ** Fare estimate *)
Module EstimateProofs.
Import Fare FareSpec.
Local Open Scope Q_scope.

Lemma calculateEstimatedFare_numeric (t : Tier) (d : Q) :
  calculateEstimatedFare (JNum d) (Some (tier_name t))
  = JNum (inject_Z (Qfloor (base t + d * per_km t + (1 # 2)))).
Proof. destruct t; reflexivity. Qed.

(** X1.  The estimate shown to the rider is a whole amount within half a unit of
    base + distance * per-km rate, never below the base fare, and it does not
    decrease when the distance grows. *)
Theorem calculateEstimatedFare_bounds (t : Tier) (d1 d2 : Q) :
  0 <= d1 -> d1 <= d2 ->
  exists z1 z2 : Z,
    calculateEstimatedFare (JNum d1) (Some (tier_name t)) = JNum (inject_Z z1)
    /\ calculateEstimatedFare (JNum d2) (Some (tier_name t)) = JNum (inject_Z z2)
    /\ (z1 <= z2)%Z
    /\ base t <= inject_Z z1
    /\ Qabs (inject_Z z1 - (base t + d1 * per_km t)) <= 1 # 2.
Proof.
  intros H0 H12. rewrite !calculateEstimatedFare_numeric.
  assert (Hkm : 0 <= per_km t) by (destruct t; discriminate).
  do 2 eexists. split; [reflexivity | split; [reflexivity |]].
  split; [| split].
  - apply Qfloor_resp_le.
    assert (d1 * per_km t <= d2 * per_km t) by (apply Qmult_le_compat_r; assumption).
    lra.
  - assert (Hb : exists b : Z, base t == inject_Z b)
      by (destruct t; [exists 50%Z | exists 100%Z | exists 150%Z]; reflexivity).
    destruct Hb as [b Hb]. rewrite Hb at 1. rewrite <- Zle_Qle.
    rewrite <- (Qfloor_Z b). apply Qfloor_resp_le. rewrite <- Hb.
    assert (0 <= d1 * per_km t) by (apply Qmult_le_0_compat; assumption). lra.
  - set (x := base t + d1 * per_km t).
    pose proof (Qfloor_le (x + (1 # 2))) as Hlo.
    pose proof (Qlt_floor (x + (1 # 2))) as Hhi.
    rewrite inject_Z_plus in Hhi. change (inject_Z 1) with 1 in Hhi.
    clearbody x. apply Qabs_Qle_condition. split; lra.
Qed.

Lemma calculateEstimatedFare_bounds_witness :
  exists z1 z2 : Z,
    calculateEstimatedFare (JNum (49 # 10)) (Some (tier_name economy)) = JNum (inject_Z z1)
    /\ calculateEstimatedFare (JNum 10) (Some (tier_name economy)) = JNum (inject_Z z2)
    /\ (z1 <= z2)%Z
    /\ base economy <= inject_Z z1
    /\ Qabs (inject_Z z1 - (base economy + (49 # 10) * per_km economy)) <= 1 # 2.
Proof.
  apply (calculateEstimatedFare_bounds economy (49 # 10) 10); discriminate.
Defined.

End EstimateProofs.

(** ** More facts about tables and worlds *)
Module TableFacts.
Import SqlFacts.

Lemma sql_update_none {A} (p : A -> bool) (f : A -> A) (t : list A) :
  sql_returning p f t = [] -> sql_update p f t = t.
Proof.
  rewrite sql_returning_nil. intros H. unfold sql_update.
  rewrite <- (map_id t) at 2. apply map_ext_in. intros r Hr. rewrite (H r Hr). reflexivity.
Qed.

Lemma sql_update_inv {A} (p : A -> bool) (f : A -> A) (t : list A) (r' : A) :
  In r' (sql_update p f t) -> exists r, In r t /\ r' = if p r then f r else r.
Proof.
  unfold sql_update. intros H. apply in_map_iff in H as (r & <- & Hr). eauto.
Qed.

Lemma select_nil {A} (p : A -> bool) (t : list A) :
  sql_select p t = [] <-> forall r, In r t -> p r = false.
Proof.
  unfold sql_select. induction t as [| a t IH]; cbn.
  - split; [intros _ r [] | reflexivity].
  - destruct (p a) eqn:E.
    + split; [discriminate |]. intros H. specialize (H a (or_introl eq_refl)). congruence.
    + rewrite IH. split.
      * intros H r [<- | Hr]; [exact E | exact (H r Hr)].
      * intros H r Hr. apply H. right. exact Hr.
Qed.

(** The first row a predicate selects, after an update that keeps the
    predicate's verdict on every row. *)
Lemma select_update_head {A} (p q : A -> bool) (f : A -> A) (t : list A) (a : A)
    (rest : list A) :
  (forall r, p (f r) = p r) ->
  sql_select p t = a :: rest ->
  exists rest', sql_select p (sql_update q f t) = (if q a then f a else a) :: rest'.
Proof.
  intros Hp. unfold sql_select, sql_update. revert a rest.
  induction t as [| b t IH]; intros a rest; cbn; [discriminate |].
  assert (Hb : p (if q b then f b else b) = p b) by (destruct (q b); [apply Hp | reflexivity]).
  rewrite Hb. destruct (p b).
  - intros [= -> _]. eauto.
  - apply IH.
Qed.

Lemma db_eta (d : Db) :
  mkDb (rides d) (drivers d) (ride_offers d) (trips d) (payments d) (driver_locations d) = d.
Proof. destruct d; reflexivity. Qed.

Lemma with_db_same (w : World) : with_db (db w) w = w.
Proof. destruct w; reflexivity. Qed.

End TableFacts.

(** ** Status updates and cancellation *)
Module RideProofs.
Import RideService MatchingService Samples SqlFacts TableFacts.

(** X2.  A successful [updateRideStatus] took a step of the transition table from
    the status it read, raised the version of the row by one, and left the
    updated ride in the cache. *)
Theorem updateRideStatus_follows_table (id newStatus : string) (v : option Z) (now : Z)
    (w w' : World) (r : Ride) :
  updateRideStatus id newStatus v now w = (w', Ok r) ->
  exists current r0,
    read_current id w = CurrentRide current
    /\ In (ride_status r) (STATUS_TRANSITIONS current)
    /\ status_name (ride_status r) = newStatus
    /\ In r0 (rides (db w)) /\ ride_id r0 = id
    /\ match v with Some expected => ride_version r0 = expected | None => True end
    /\ r = bump_status (ride_status r) now r0
    /\ ride_version r = (ride_version r0 + 1)%Z
    /\ In r (rides (db w'))
    /\ cacheGet (CACHE_KEY_RIDE id) w' = Some (DocRide r).
Proof.
  unfold updateRideStatus. intros H.
  destruct (read_current id w) as [current | |] eqn:Ec; try discriminate.
  destruct (includes (STATUS_TRANSITIONS current) newStatus) as [target |] eqn:Ei;
    [| discriminate].
  apply find_some in Ei as [Hin Hname]. apply String.eqb_eq in Hname.
  match type of H with context [sql_returning ?p ?f ?t] =>
    destruct (sql_select p t) as [| r0 rest] eqn:Es;
    [ unfold sql_returning, sql_select in *; rewrite Es in H; destruct v; discriminate
    | rewrite (returning_head p f t r0 rest Es) in H;
      pose proof (select_head_In p t r0 rest Es) as [Hr0 Hp];
      pose proof (sql_update_In p f t r0 Hr0) as Hu; cbn beta in Hp, Hu; rewrite Hp in Hu ]
  end.
  injection H as <- <-.
  apply andb_true_iff in Hp as [Hid Hv]. apply String.eqb_eq in Hid.
  exists current, r0. cbn [ride_status bump_status].
  repeat split; try assumption.
  - destruct v; [apply Z.eqb_eq in Hv; exact Hv | exact I].
  - unfold cacheGet, publishRideEvent, invalidateRiderCurrentRide, invalidateCache, cacheSet.
    cbn [kv emit with_kv]. rewrite lookup_delete_ne by discriminate.
    rewrite lookup_insert_eq. reflexivity.
Qed.

Lemma updateRideStatus_follows_table_witness :
  exists w' r,
    updateRideStatus "ride-1" "DRIVER_EN_ROUTE" (Some 3%Z) 100
      (sample_world [sample_ride DRIVER_ASSIGNED (Some "driver-1")] [sample_driver busy] [] [])
    = (w', Ok r)
    /\ ride_status r = DRIVER_EN_ROUTE /\ ride_version r = 4%Z
    /\ cacheGet (CACHE_KEY_RIDE "ride-1") w' = Some (DocRide r).
Proof.
  destruct (updateRideStatus "ride-1" "DRIVER_EN_ROUTE" (Some 3%Z) 100
              (sample_world [sample_ride DRIVER_ASSIGNED (Some "driver-1")]
                 [sample_driver busy] [] [])) as [w' res] eqn:E.
  assert (Hres : exists r, res = Ok r /\ ride_status r = DRIVER_EN_ROUTE /\ ride_version r = 4%Z)
    by (vm_compute in E; injection E as _ <-; eexists; repeat split).
  destruct Hres as (r & -> & Hs & Hv).
  destruct (updateRideStatus_follows_table _ _ _ _ _ _ _ E)
    as (_ & _ & _ & _ & _ & _ & _ & _ & _ & _ & _ & Hc).
  exists w', r. repeat split; assumption.
Defined.

(** X3.  A refused [updateRideStatus], a lost version race included, leaves the
    store, the cache and the bus exactly as they were. *)
Theorem updateRideStatus_refusal_changes_nothing (id newStatus : string) (v : option Z)
    (now : Z) (w w' : World) (e : Error) :
  updateRideStatus id newStatus v now w = (w', Err e) -> w' = w.
Proof.
  unfold updateRideStatus. intros H.
  destruct (read_current id w) as [current | |]; try (injection H as <- _; reflexivity).
  destruct (includes (STATUS_TRANSITIONS current) newStatus) as [target |];
    [| injection H as <- _; reflexivity].
  match type of H with context [sql_returning ?p ?f ?t] =>
    destruct (sql_returning p f t) as [| r0 rest] eqn:Es; [| discriminate];
    rewrite (sql_update_none p f t Es) in H
  end.
  unfold with_rides in H. rewrite db_eta, with_db_same in H.
  destruct v; injection H as <- _; reflexivity.
Qed.

Lemma updateRideStatus_refusal_changes_nothing_witness :
  updateRideStatus "ride-1" "DRIVER_EN_ROUTE" (Some 7%Z) 100
    (sample_world [sample_ride DRIVER_ASSIGNED (Some "driver-1")] [sample_driver busy] [] [])
  = (sample_world [sample_ride DRIVER_ASSIGNED (Some "driver-1")] [sample_driver busy] [] [],
     Err (ConflictError "Ride was modified by another request. Please retry.")).
Proof.
  destruct (updateRideStatus "ride-1" "DRIVER_EN_ROUTE" (Some 7%Z) 100
              (sample_world [sample_ride DRIVER_ASSIGNED (Some "driver-1")]
                 [sample_driver busy] [] [])) as [w' res] eqn:E.
  assert (Hres : res = Err (ConflictError "Ride was modified by another request. Please retry."))
    by (vm_compute in E; injection E as _ <-; reflexivity).
  subst res. rewrite (updateRideStatus_refusal_changes_nothing _ _ _ _ _ _ _ E). reflexivity.
Defined.

(** X4.  The guard of [updateRideStatus] trusts a cached ride: the transition is
    checked against the cached status and then written over the row, whatever
    status the row itself has. *)
Theorem updateRideStatus_trusts_cache (id newStatus : string) (now : Z) (w : World)
    (cached row : Ride) (rest : list Ride) (target : RideStatus) :
  cacheGet (CACHE_KEY_RIDE id) w = Some (DocRide cached) ->
  includes (STATUS_TRANSITIONS (ride_status cached)) newStatus = Some target ->
  sql_select (fun r => String.eqb (ride_id r) id) (rides (db w)) = row :: rest ->
  exists w', updateRideStatus id newStatus None now w = (w', Ok (bump_status target now row)).
Proof.
  intros Hc Hi Hs. unfold updateRideStatus, read_current. rewrite Hc, Hi.
  assert (Hr : sql_returning (fun r => String.eqb (ride_id r) id && true)
                 (bump_status target now) (rides (db w))
               = bump_status target now row :: map (bump_status target now) rest).
  { apply returning_head. rewrite <- Hs. unfold sql_select. apply filter_ext.
    intros r. apply andb_true_r. }
  rewrite Hr. eauto.
Qed.

(** A ride put to MATCHING through [updateRideStatus] and reverted to
    REQUESTED by a search that found nobody is still MATCHING in the cache,
    and is then moved from REQUESTED to DRIVER_ASSIGNED without a driver. *)
Lemma updateRideStatus_trusts_cache_witness :
  map ride_status
    (rides (db (fst (findDriversForRide "ride-1" [] (fun _ => "offer-1") 200
                       (fst (updateRideStatus "ride-1" "MATCHING" None 100
                               (sample_world [sample_ride REQUESTED None]
                                  [sample_driver online] [] [])))))))
  = [REQUESTED]
  /\ exists w' r,
       updateRideStatus "ride-1" "DRIVER_ASSIGNED" None 300
         (fst (findDriversForRide "ride-1" [] (fun _ => "offer-1") 200
                 (fst (updateRideStatus "ride-1" "MATCHING" None 100
                         (sample_world [sample_ride REQUESTED None]
                            [sample_driver online] [] [])))))
       = (w', Ok r)
       /\ ride_status r = DRIVER_ASSIGNED /\ ride_driver_id r = None.
Proof.
  split; [vm_compute; reflexivity |].
  edestruct (updateRideStatus_trusts_cache "ride-1" "DRIVER_ASSIGNED" 300
               (fst (findDriversForRide "ride-1" [] (fun _ => "offer-1") 200
                  (fst (updateRideStatus "ride-1" "MATCHING" None 100
                     (sample_world [sample_ride REQUESTED None] [sample_driver online] [] []))))))
    as [w' Hw'].
  - vm_compute. reflexivity.
  - vm_compute. reflexivity.
  - vm_compute. reflexivity.
  - exists w'. eexists. split; [exact Hw' |]. split; reflexivity.
Defined.

Lemma cancelRide_rides (id : string) (reason : option string) (now : Z) (w : World) :
  rides (db (fst (cancelRide id reason now w)))
  = sql_update (cancellable id) (cancel_row reason now) (rides (db w)).
Proof.
  unfold cancelRide. destruct (sql_returning _ _ _) as [| ride ?]; [reflexivity |].
  destruct (ride_driver_id ride); reflexivity.
Qed.

(** X6.  [cancelRide] writes to the ride and to its driver only: offers of the
    ride stay pending, its trip row and payments stay as they are, and no
    event is published. *)
Theorem cancelRide_leaves_offers_trips_payments (id : string) (reason : option string)
    (now : Z) (w : World) :
  let w' := fst (cancelRide id reason now w) in
  ride_offers (db w') = ride_offers (db w)
  /\ trips (db w') = trips (db w)
  /\ payments (db w') = payments (db w)
  /\ events w' = events w
  /\ (forall r, In r (rides (db w)) -> ride_id r <> id -> In r (rides (db w'))).
Proof.
  cbn zeta. repeat split.
  1-4: unfold cancelRide; destruct (sql_returning _ _ _) as [| ride ?]; [reflexivity |];
       destruct (ride_driver_id ride); reflexivity.
  intros r Hr Hid. rewrite cancelRide_rides.
  pose proof (sql_update_In (cancellable id) (cancel_row reason now) _ _ Hr) as Hu.
  assert (Hc : cancellable id r = false).
  { unfold cancellable. apply String.eqb_neq in Hid. rewrite Hid. reflexivity. }
  rewrite Hc in Hu. exact Hu.
Qed.

Lemma cancelRide_leaves_offers_trips_payments_witness :
  map offer_status
    (ride_offers (db (fst (cancelRide "ride-1" None 100 matching_world))))
  = [pending; pending; expired]
  /\ events (fst (cancelRide "ride-1" None 100 matching_world)) = [].
Proof.
  destruct (cancelRide_leaves_offers_trips_payments "ride-1" None 100 matching_world)
    as (Ho & _ & _ & He & _).
  split; [rewrite Ho; reflexivity | rewrite He; reflexivity].
Defined.

(** A ride all of whose rows are completed or cancelled cannot be cancelled. *)
Lemma cancelRide_terminal_refused (id : string) (reason : option string) (now : Z)
    (w : World) :
  (forall x, In x (rides (db w)) -> ride_id x = id ->
     ride_status x = COMPLETED \/ ride_status x = CANCELLED) ->
  cancelRide id reason now w = (w, Err (ConflictError "Ride cannot be cancelled")).
Proof.
  intros Hall. unfold cancelRide.
  assert (Hn : sql_returning (cancellable id) (cancel_row reason now) (rides (db w)) = []).
  { apply sql_returning_nil. intros x Hx. unfold cancellable.
    destruct (String.eqb (ride_id x) id) eqn:E; [| reflexivity].
    apply String.eqb_eq in E. destruct (Hall x Hx E) as [-> | ->]; reflexivity. }
  rewrite Hn, (sql_update_none _ _ _ Hn).
  destruct w as [d k g s ev]. destruct d. reflexivity.
Qed.

(** X5.  Cancelling is not repeatable: [cancelRide] leaves every row of the ride
    cancelled or completed, and on a ride in that state, so on the state the
    first call left, [cancelRide] fails with Conflict and changes
    nothing. *)
Theorem cancelRide_twice_conflicts (id : string) (reason reason' : option string)
    (now now' : Z) (w w' : World) (r : Ride) :
  cancelRide id reason now w = (w', Ok r) ->
  (forall x, In x (rides (db w')) -> ride_id x = id ->
     ride_status x = COMPLETED \/ ride_status x = CANCELLED)
  /\ cancelRide id reason' now' w' = (w', Err (ConflictError "Ride cannot be cancelled"))
  /\ (forall w2,
        (forall x, In x (rides (db w2)) -> ride_id x = id ->
           ride_status x = COMPLETED \/ ride_status x = CANCELLED) ->
        cancelRide id reason' now' w2 = (w2, Err (ConflictError "Ride cannot be cancelled"))).
Proof.
  intros H.
  assert (Hr : rides (db w') = sql_update (cancellable id) (cancel_row reason now) (rides (db w)))
    by (rewrite <- cancelRide_rides, H; reflexivity).
  assert (Hall : forall x, In x (rides (db w')) -> ride_id x = id ->
            ride_status x = COMPLETED \/ ride_status x = CANCELLED).
  { intros x Hx Hid. rewrite Hr in Hx. apply sql_update_inv in Hx as (x0 & _ & ->).
    destruct (cancellable id x0) eqn:E; [right; reflexivity |].
    unfold cancellable in E. rewrite (proj2 (String.eqb_eq _ _) Hid) in E. cbn in E.
    destruct (ride_status x0); cbn in E; try discriminate; auto. }
  split; [exact Hall |]. split; [exact (cancelRide_terminal_refused _ _ _ _ Hall) |].
  intros w2 H2. exact (cancelRide_terminal_refused _ _ _ _ H2).
Qed.

Lemma cancelRide_twice_conflicts_witness :
  cancelRide "ride-1" None 200
    (fst (cancelRide "ride-1" (Some "Cancelled by rider") 100 en_route_world))
  = (fst (cancelRide "ride-1" (Some "Cancelled by rider") 100 en_route_world),
     Err (ConflictError "Ride cannot be cancelled")).
Proof.
  destruct (cancelRide "ride-1" (Some "Cancelled by rider") 100 en_route_world)
    as [w' res] eqn:E.
  assert (Hres : exists r, res = Ok r) by (vm_compute in E; injection E as _ <-; eauto).
  destruct Hres as [r ->]. cbn [fst].
  exact (proj1 (proj2 (cancelRide_twice_conflicts _ _ None _ 200 _ _ _ E))).
Defined.


End RideProofs.

(** ** Trips *)
Module TripLifeProofs.
Import RideService TripService SimulationService Samples SqlFacts TableFacts.

Lemma executeTransaction_err {A} (body : World -> World * result A) (w w' : World) (e : Error) :
  executeTransaction body w = (w', Err e) ->
  exists wb, body w = (wb, Err e) /\ w' = with_db (db w) wb.
Proof.
  unfold executeTransaction. destruct (body w) as [wb [a | e']]; intros H.
  - discriminate.
  - injection H as <- <-. eauto.
Qed.

Lemma executeTransaction_ok {A} (body : World -> World * result A) (w w' : World) (a : A) :
  executeTransaction body w = (w', Ok a) -> body w = (w', Ok a).
Proof.
  unfold executeTransaction. destruct (body w) as [wb [a' | e']]; intros H.
  - injection H as <- <-. reflexivity.
  - discriminate.
Qed.

(** X7.  A [startTrip] or [endTrip] that its guard refuses leaves the store,
    Redis, the simulator and the bus exactly as they were: [startTrip] for a
    ride that is not found or not DRIVER_ARRIVED, [endTrip] for a trip that
    is not found or not IN_PROGRESS. *)
Theorem refused_trip_call_changes_nothing (w : World) :
  (forall rideId tripId now,
      match sql_select (fun r => String.eqb (ride_id r) rideId) (rides (db w)) with
      | [] => startTrip rideId tripId now w = (w, Err (NotFoundError "Ride"))
      | ride :: _ =>
          ride_status ride <> DRIVER_ARRIVED ->
          startTrip rideId tripId now w
          = (w, Err (InvalidStateTransitionError (status_name (ride_status ride))
                       "IN_PROGRESS" "Ride"))
      end)
  /\ (forall tripId tripData now,
        match sql_select (fun t => String.eqb (trip_id t) tripId) (trips (db w)) with
        | [] => endTrip tripId tripData now w = (w, Err (NotFoundError "Trip"))
        | trip :: _ =>
            trip_status trip <> TRIP_IN_PROGRESS ->
            endTrip tripId tripData now w
            = (w, Err (InvalidStateTransitionError (trip_status_name (trip_status trip))
                         "COMPLETED" "Trip"))
        end).
Proof.
  split.
  - intros rideId tripId now. unfold startTrip, executeTransaction.
    destruct (sql_select _ (rides (db w))) as [| ride ?]; [rewrite with_db_same; reflexivity |].
    intros Hst.
    destruct (RideStatus_eqb (ride_status ride) DRIVER_ARRIVED) eqn:E.
    + apply RideStatus_eqb_eq in E. contradiction.
    + cbn [negb]. rewrite with_db_same. reflexivity.
  - intros tripId tripData now. unfold endTrip, executeTransaction.
    destruct (sql_select _ (trips (db w))) as [| trip ?]; [rewrite with_db_same; reflexivity |].
    intros Hst. destruct (trip_status trip); try (rewrite with_db_same; reflexivity).
    contradiction.
Qed.

Lemma refused_trip_call_changes_nothing_witness :
  startTrip "ride-1" "trip-9" 100 en_route_world
    = (en_route_world, Err (InvalidStateTransitionError "DRIVER_EN_ROUTE" "IN_PROGRESS" "Ride"))
  /\ endTrip "trip-1" (mkTripData JUndefined JUndefined None) 100 unpaid_world
    = (unpaid_world, Err (InvalidStateTransitionError "COMPLETED" "COMPLETED" "Trip"))
  /\ endTrip "trip-7" (mkTripData JUndefined JUndefined None) 100 unpaid_world
    = (unpaid_world, Err (NotFoundError "Trip")).
Proof.
  split; [| split].
  - apply (proj1 (refused_trip_call_changes_nothing en_route_world) "ride-1" "trip-9" 100%Z).
    discriminate.
  - apply (proj2 (refused_trip_call_changes_nothing unpaid_world) "trip-1"
             (mkTripData JUndefined JUndefined None) 100%Z).
    discriminate.
  - exact (proj2 (refused_trip_call_changes_nothing unpaid_world) "trip-7"
             (mkTripData JUndefined JUndefined None) 100%Z).
Defined.


Lemma bump_status_id (s : RideStatus) (now : Z) (id : string) (r : Ride) :
  String.eqb (ride_id (bump_status s now r)) id = String.eqb (ride_id r) id.
Proof. reflexivity. Qed.

(** The store a successful [startTrip] leaves. *)
Lemma startTrip_ok (rideId tripId : string) (now : Z) (w w' : World) (t : TripStarted) :
  startTrip rideId tripId now w = (w', Ok t) ->
  exists ride rest,
    sql_select (fun r => String.eqb (ride_id r) rideId) (rides (db w)) = ride :: rest
    /\ ride_status ride = DRIVER_ARRIVED
    /\ trips (db w') = (trips (db w) ++
                        [mkTrip tripId rideId TRIP_IN_PROGRESS now None JNull JNull None None])%list
    /\ rides (db w') = sql_update (fun r => String.eqb (ride_id r) rideId)
                         (bump_status IN_PROGRESS now) (rides (db w))
    /\ activeSimulations w' !! ride_driver_id ride
       = Some (mkSim rideId (ride_rider_id ride) TO_DROPOFF (ride_tier ride))
    /\ kv w' = delete (CACHE_KEY_RIDE rideId) (kv w).
Proof.
  unfold startTrip. intros H. apply executeTransaction_ok in H.
  destruct (sql_select _ (rides (db w))) as [| ride rest] eqn:Es; [discriminate |].
  destruct (RideStatus_eqb (ride_status ride) DRIVER_ARRIVED) eqn:Est; [| discriminate].
  cbn [negb] in H. injection H as <- _.
  apply RideStatus_eqb_eq in Est.
  exists ride, rest. split; [reflexivity | split; [exact Est |]].
  destruct (select_update_head (fun r => String.eqb (ride_id r) rideId)
              (fun r => String.eqb (ride_id r) rideId) (bump_status IN_PROGRESS now)
              (rides (db w)) ride rest (fun r => eq_refl) Es) as [rest' Hsel].
  apply select_head_In in Es as [_ Hid]. cbn beta in Hid, Hsel. rewrite Hid in Hsel.
  unfold switchToTripPhase, startDriverSimulation, stopDriverSimulation.
  cbn [db rides with_db with_rides with_sims with_trips with_kv invalidateCache
       publishRideEvent publishNotification emit activeSimulations kv trips drivers
       ride_offers payments driver_locations geo events].
  rewrite Hsel.
  cbn [db rides with_db with_rides with_sims with_trips with_kv invalidateCache
       publishRideEvent publishNotification emit activeSimulations kv trips
       opt_text ride_tier bump_status].
  repeat split. apply lookup_insert_eq.
Qed.

(** X8.  A successful [startTrip] found the ride at DRIVER_ARRIVED; it adds one
    trip row IN_PROGRESS started now, leaves every row of the ride
    IN_PROGRESS, drops the cached ride and points the driver's simulation at
    the drop-off. *)
Theorem startTrip_effects (rideId tripId : string) (now : Z) (w w' : World) (t : TripStarted) :
  startTrip rideId tripId now w = (w', Ok t) ->
  exists ride,
    In ride (rides (db w)) /\ ride_id ride = rideId /\ ride_status ride = DRIVER_ARRIVED
    /\ trips (db w') = (trips (db w) ++
                        [mkTrip tripId rideId TRIP_IN_PROGRESS now None JNull JNull None None])%list
    /\ (forall r, In r (rides (db w')) -> ride_id r = rideId ->
          ride_status r = IN_PROGRESS)
    /\ In (bump_status IN_PROGRESS now ride) (rides (db w'))
    /\ activeSimulations w' !! ride_driver_id ride
       = Some (mkSim rideId (ride_rider_id ride) TO_DROPOFF (ride_tier ride))
    /\ cacheGet (CACHE_KEY_RIDE rideId) w' = None.
Proof.
  intros H. apply startTrip_ok in H as (ride & rest & Hs & Hst & Ht & Hr & Hsim & Hkv).
  apply select_head_In in Hs as [Hin Hid]. pose proof Hid as Hid'. apply String.eqb_eq in Hid.
  exists ride. repeat split; try assumption.
  - intros r Hr' Hrid. rewrite Hr in Hr'. apply sql_update_inv in Hr' as (r0 & _ & ->).
    destruct (String.eqb (ride_id r0) rideId) eqn:E; [reflexivity |].
    apply String.eqb_neq in E. contradiction.
  - rewrite Hr. pose proof (sql_update_In (fun r => String.eqb (ride_id r) rideId)
                             (bump_status IN_PROGRESS now) _ _ Hin) as Hu.
    cbn beta in Hu. rewrite Hid' in Hu. exact Hu.
  - unfold cacheGet. rewrite Hkv, lookup_delete_eq. reflexivity.
Qed.

Lemma startTrip_effects_witness :
  exists w',
    fst (startTrip "ride-1" "trip-1" 100 arrived_world) = w'
    /\ map trip_status (trips (db w')) = [TRIP_IN_PROGRESS]
    /\ (forall r, In r (rides (db w')) -> ride_id r = "ride-1" -> ride_status r = IN_PROGRESS)
    /\ activeSimulations w' !! Some "driver-1"
       = Some (mkSim "ride-1" "rider-1" TO_DROPOFF "economy").
Proof.
  destruct (startTrip "ride-1" "trip-1" 100 arrived_world) as [w' res] eqn:E.
  assert (Hres : exists t, res = Ok t) by (vm_compute in E; injection E as _ <-; eauto).
  destruct Hres as [t ->].
  destruct (startTrip_effects _ _ _ _ _ _ E) as (ride & Hin & _ & _ & Ht & Hr & _ & Hs & _).
  destruct Hin as [<- | []].
  exists w'. cbn [fst]. repeat split; try assumption. rewrite Ht. reflexivity.
Defined.

(** X9.  After a successful [startTrip], a [startTrip] for the ride made on the
    state it left is refused, the ride being IN_PROGRESS, and changes
    nothing. *)
Theorem startTrip_twice_refused (rideId tripId tripId' : string) (now now' : Z)
    (w w' : World) (t : TripStarted) :
  startTrip rideId tripId now w = (w', Ok t) ->
  startTrip rideId tripId' now' w'
  = (w', Err (InvalidStateTransitionError "IN_PROGRESS" "IN_PROGRESS" "Ride")).
Proof.
  intros H. apply startTrip_ok in H as (ride & rest & Hs & _ & _ & Hr & _ & _).
  destruct (select_update_head (fun r => String.eqb (ride_id r) rideId)
              (fun r => String.eqb (ride_id r) rideId) (bump_status IN_PROGRESS now)
              (rides (db w)) ride rest (fun r => eq_refl) Hs) as [rest' Hsel].
  apply select_head_In in Hs as [_ Hid]. cbn beta in Hid, Hsel. rewrite Hid in Hsel.
  unfold startTrip, executeTransaction. rewrite Hr, Hsel. cbn. rewrite with_db_same.
  reflexivity.
Qed.

Lemma startTrip_twice_refused_witness :
  snd (startTrip "ride-1" "trip-2" 200 (fst (startTrip "ride-1" "trip-1" 100 arrived_world)))
  = Err (InvalidStateTransitionError "IN_PROGRESS" "IN_PROGRESS" "Ride").
Proof.
  destruct (startTrip "ride-1" "trip-1" 100 arrived_world) as [w' res] eqn:E.
  assert (Hres : exists t, res = Ok t) by (vm_compute in E; injection E as _ <-; eauto).
  destruct Hres as [t ->]. cbn [fst].
  rewrite (startTrip_twice_refused "ride-1" "trip-1" "trip-2" 100 200 _ _ _ E). reflexivity.
Defined.

(** The store a successful [endTrip] leaves. *)
Lemma endTrip_ok (tripId : string) (td : TripData) (now : Z) (w w' : World) (res : TripEnded) :
  endTrip tripId td now w = (w', Ok res) ->
  exists trip trest ride rrest,
    sql_select (fun t => String.eqb (trip_id t) tripId) (trips (db w)) = trip :: trest
    /\ trip_status trip = TRIP_IN_PROGRESS
    /\ sql_select (fun r => String.eqb (ride_id r) (trip_ride_id trip)) (rides (db w))
       = ride :: rrest
    /\ res = mkTripEnded tripId (trip_ride_id trip)
               (Fare.calculateFare (Some (ride_tier ride)) (trip_distance td ride)
                  (trip_duration td trip now) (decimal_value (ride_surge_multiplier ride)))
    /\ trips (db w') = sql_update (fun t => String.eqb (trip_id t) tripId)
                         (complete_trip now (trip_distance td ride) (trip_duration td trip now)
                            (route_polyline td) (ended_fare res)) (trips (db w))
    /\ rides (db w') = sql_update (fun r => String.eqb (ride_id r) (trip_ride_id trip))
                         (bump_status COMPLETED now) (rides (db w))
    /\ drivers (db w') = sql_update (fun d => id_is (driver_id d) (ride_driver_id ride))
                           release_driver (drivers (db w))
    /\ ride_offers (db w') = ride_offers (db w)
    /\ payments (db w') = payments (db w)
    /\ activeSimulations w' = delete (ride_driver_id ride) (activeSimulations w)
    /\ match ride_driver_id ride with
       | Some driverId =>
           match latest_location driverId (driver_locations (db w)) with
           | Some loc =>
               exists d drest,
                 sql_select (fun d => id_is (driver_id d) (ride_driver_id ride)) (drivers (db w))
                 = d :: drest
                 /\ geo w' = <[(geo_key (driver_vehicle_type d), driver_id d)
                                := (loc_longitude loc, loc_latitude loc)]> (geo w)
           | None => geo w' = geo w
           end
       | None => geo w' = geo w
       end.
Proof.
  unfold endTrip. intros H. apply executeTransaction_ok in H.
  destruct (sql_select _ (trips (db w))) as [| trip trest] eqn:Et; [discriminate |].
  destruct (trip_status trip) eqn:Est; try discriminate.
  destruct (sql_select _ (rides (db w))) as [| ride rrest] eqn:Er; [discriminate |].
  cbv zeta in H. exists trip, trest, ride, rrest.
  cbn [db rides drivers trips with_db with_rides with_trips with_drivers driver_locations] in H.
  destruct (ride_driver_id ride) as [driverId |] eqn:Ed.
  - destruct (latest_location driverId (driver_locations (db w))) as [loc |] eqn:El.
    + unfold sql_returning in H.
      destruct (List.filter _ (drivers (db w))) as [| d drest] eqn:Edr; [discriminate |].
      cbn [map] in H. injection H as <- <-.
      repeat split; try assumption. exists d, drest. split; [exact Edr | reflexivity].
    + injection H as <- <-. repeat split; assumption.
  - injection H as <- <-. repeat split; assumption.
Qed.

Lemma id_is_eq (id : string) (o : option string) : id_is id o = true <-> o = Some id.
Proof.
  destruct o as [s |]; cbn; [| split; discriminate].
  rewrite String.eqb_eq. split; [intros -> | intros [= ->]]; reflexivity.
Qed.

(** X10.  A successful [endTrip] found the trip IN_PROGRESS; it prices the trip with
    [calculateFare] on the ride's tier and surge, completes every row of the
    trip with that fare, completes the ride, puts the driver back online with
    one more ride to their name, stops the driver's simulation and, when a
    position of the driver is on record, lists the driver in the geo index
    there. *)
Theorem endTrip_effects (tripId : string) (td : TripData) (now : Z) (w w' : World)
    (res : TripEnded) :
  endTrip tripId td now w = (w', Ok res) ->
  exists trip ride,
    In trip (trips (db w)) /\ trip_id trip = tripId /\ trip_status trip = TRIP_IN_PROGRESS
    /\ In ride (rides (db w)) /\ ride_id ride = trip_ride_id trip
    /\ ended_ride_id res = trip_ride_id trip
    /\ ended_fare res
       = Fare.calculateFare (Some (ride_tier ride)) (trip_distance td ride)
           (trip_duration td trip now) (decimal_value (ride_surge_multiplier ride))
    /\ (forall t', In t' (trips (db w')) -> trip_id t' = tripId ->
          trip_status t' = TRIP_COMPLETED /\ trip_fare t' = Some (ended_fare res)
          /\ trip_ended_at t' = Some now)
    /\ (forall r', In r' (rides (db w')) -> ride_id r' = trip_ride_id trip ->
          ride_status r' = COMPLETED)
    /\ (forall d', In d' (drivers (db w')) -> ride_driver_id ride = Some (driver_id d') ->
          exists d, In d (drivers (db w)) /\ d' = release_driver d)
    /\ activeSimulations w' !! ride_driver_id ride = None
    /\ (forall driverId loc,
          ride_driver_id ride = Some driverId ->
          latest_location driverId (driver_locations (db w)) = Some loc ->
          exists d, In d (drivers (db w)) /\ driver_id d = driverId
                    /\ geo w' !! (geo_key (driver_vehicle_type d), driverId)
                       = Some (loc_longitude loc, loc_latitude loc)).
Proof.
  intros H.
  apply endTrip_ok in H
    as (trip & trest & ride & rrest & Et & Est & Er & -> & Ht & Hr & Hd & _ & _ & Hs & Hg).
  apply select_head_In in Et as [Htin Htid]. apply String.eqb_eq in Htid.
  apply select_head_In in Er as [Hrin Hrid]. apply String.eqb_eq in Hrid.
  exists trip, ride. repeat split; try assumption.
  - rewrite Ht in H. apply sql_update_inv in H as (t0 & _ & ->).
    destruct (String.eqb (trip_id t0) tripId) eqn:E; [reflexivity |].
    apply String.eqb_neq in E. contradiction.
  - rewrite Ht in H. apply sql_update_inv in H as (t0 & _ & ->).
    destruct (String.eqb (trip_id t0) tripId) eqn:E; [reflexivity |].
    apply String.eqb_neq in E. contradiction.
  - rewrite Ht in H. apply sql_update_inv in H as (t0 & _ & ->).
    destruct (String.eqb (trip_id t0) tripId) eqn:E; [reflexivity |].
    apply String.eqb_neq in E. contradiction.
  - intros r' Hin Hid. rewrite Hr in Hin. apply sql_update_inv in Hin as (r0 & _ & ->).
    destruct (String.eqb (ride_id r0) (trip_ride_id trip)) eqn:E; [reflexivity |].
    apply String.eqb_neq in E. contradiction.
  - intros d' Hin Hid. rewrite Hd in Hin. apply sql_update_inv in Hin as (d & Hdin & ->).
    exists d. split; [exact Hdin |].
    destruct (id_is (driver_id d) (ride_driver_id ride)) eqn:E; [reflexivity |].
    rewrite Hid in E. cbn in E. rewrite String.eqb_refl in E. discriminate.
  - rewrite Hs. apply lookup_delete_eq.
  - intros driverId loc Hdrv Hloc. rewrite Hdrv, Hloc in Hg.
    destruct Hg as (d & drest & Hsel & Hgeo).
    apply select_head_In in Hsel as [Hdin Hdid]. cbn beta in Hdid.
    cbn in Hdid. apply String.eqb_eq in Hdid. symmetry in Hdid.
    exists d. repeat split; try assumption.
    rewrite Hgeo, Hdid. apply lookup_insert_eq.
Qed.

Lemma endTrip_effects_witness :
  exists w' res,
    endTrip "trip-1" (mkTripData (JNum 10) (JNum 30) None) 5000 on_trip_world = (w', Ok res)
    /\ (exists q, Fare.total (ended_fare res) = JNum q /\ (q == 22575 # 100)%Q)
    /\ (forall r', In r' (rides (db w')) -> ride_id r' = "ride-1" -> ride_status r' = COMPLETED)
    /\ activeSimulations w' !! Some "driver-1" = None
    /\ geo w' !! (geo_key "economy", "driver-1") = Some (775946 # 10000, 129716 # 10000)%Q.
Proof.
  destruct (endTrip "trip-1" (mkTripData (JNum 10) (JNum 30) None) 5000 on_trip_world)
    as [w' r] eqn:E.
  assert (Hres : exists res, r = Ok res) by (vm_compute in E; injection E as _ <-; eauto).
  destruct Hres as [res ->].
  destruct (endTrip_effects _ _ _ _ _ _ E)
    as (trip & ride & Ht & _ & _ & Hr & _ & _ & Hf & _ & Hrs & _ & Hs & Hg).
  destruct Ht as [<- | []]. destruct Hr as [<- | []].
  destruct (Hg "driver-1" sample_location eq_refl eq_refl) as (d & [<- | []] & _ & Hgeo).
  exists w', res. split; [reflexivity |]. split; [| split; [exact Hrs | split; [exact Hs | exact Hgeo]]].
  rewrite Hf. vm_compute. eexists. split; reflexivity.
Defined.

(** X11.  A trip ends once: after a successful [endTrip], ending it again is
    refused and changes nothing. *)
Theorem endTrip_twice_refused (tripId : string) (td td' : TripData) (now now' : Z)
    (w w' : World) (res : TripEnded) :
  endTrip tripId td now w = (w', Ok res) ->
  endTrip tripId td' now' w'
  = (w', Err (InvalidStateTransitionError "COMPLETED" "COMPLETED" "Trip")).
Proof.
  intros H.
  apply endTrip_ok in H
    as (trip & trest & ride & rrest & Et & _ & _ & _ & Ht & _).
  destruct (select_update_head (fun t => String.eqb (trip_id t) tripId)
              (fun t => String.eqb (trip_id t) tripId)
              (complete_trip now (trip_distance td ride) (trip_duration td trip now)
                 (route_polyline td) (ended_fare res))
              (trips (db w)) trip trest (fun r => eq_refl) Et) as [rest' Hsel].
  apply select_head_In in Et as [_ Hid]. cbn beta in Hid, Hsel. rewrite Hid in Hsel.
  unfold endTrip, executeTransaction. rewrite Ht, Hsel. cbn. rewrite with_db_same.
  reflexivity.
Qed.

Lemma endTrip_twice_refused_witness :
  snd (endTrip "trip-1" (mkTripData JUndefined JUndefined None) 9000
         (fst (endTrip "trip-1" (mkTripData (JNum 10) (JNum 30) None) 5000 on_trip_world)))
  = Err (InvalidStateTransitionError "COMPLETED" "COMPLETED" "Trip").
Proof.
  destruct (endTrip "trip-1" (mkTripData (JNum 10) (JNum 30) None) 5000 on_trip_world)
    as [w' r] eqn:E.
  assert (Hres : exists res, r = Ok res) by (vm_compute in E; injection E as _ <-; eauto).
  destruct Hres as [res ->]. cbn [fst].
  rewrite (endTrip_twice_refused _ _ (mkTripData JUndefined JUndefined None) _ 9000 _ _ _ E).
  reflexivity.
Defined.




End TripLifeProofs.

(** ** Scoring, offers and acceptance *)
Module DispatchProofs.
Import RideService MatchingService SimulationService LockingService OfferService Ranking
  Samples SqlFacts TableFacts LifecycleProofs.

Lemma insert_by_score_perm (x : ScoredDriver) (l : list ScoredDriver) :
  Permutation (insert_by_score x l) (x :: l).
Proof.
  induction l as [| y rest IH]; cbn; [reflexivity |].
  destruct (Qle_bool (scored_score y) (scored_score x)); [reflexivity |].
  rewrite IH. apply perm_swap.
Qed.

Lemma sort_by_score_perm (l : list ScoredDriver) : Permutation (sort_by_score l) l.
Proof.
  induction l as [| x l IH]; cbn; [reflexivity |].
  rewrite insert_by_score_perm. apply perm_skip. exact IH.
Qed.

Lemma insert_by_score_sorted (x : ScoredDriver) (l : list ScoredDriver) :
  Sorted ranks_before l -> Sorted ranks_before (insert_by_score x l).
Proof.
  induction l as [| y rest IH]; intros Hs; cbn.
  - repeat constructor.
  - destruct (Qle_bool (scored_score y) (scored_score x)) eqn:E.
    + constructor; [exact Hs |]. constructor. apply Qle_bool_iff. exact E.
    + inversion Hs as [| ? ? Hrest Hhd]; subst.
      assert (Hxy : ranks_before y x).
      { unfold ranks_before. apply Qlt_le_weak. apply Qnot_le_lt. intros Hle.
        apply Qle_bool_iff in Hle. congruence. }
      constructor; [apply IH; exact Hrest |].
      destruct rest as [| z rest']; cbn.
      * constructor. exact Hxy.
      * destruct (Qle_bool (scored_score z) (scored_score x)); constructor.
        -- exact Hxy.
        -- inversion Hhd; assumption.
Qed.

Lemma sort_by_score_sorted (l : list ScoredDriver) :
  StronglySorted ranks_before (sort_by_score l).
Proof.
  apply Sorted_StronglySorted.
  - intros a b c Hab Hbc. unfold ranks_before in *. eapply Qle_trans; eassumption.
  - induction l as [| x l IH]; cbn; [constructor |].
    apply insert_by_score_sorted. exact IH.
Qed.

Lemma create_offers_offers (rideId : string) (scored : list ScoredDriver)
    (uuid : nat -> string) (n : nat) (now : Z) (w : World) (o : RideOffer) :
  In o (ride_offers (db (create_offers rideId scored uuid n now w))) ->
  In o (ride_offers (db w))
  \/ (offer_ride_id o = rideId /\ offer_status o = pending
      /\ offer_expires_at o = (now + OFFER_EXPIRY_MS)%Z
      /\ exists s, In s scored /\ offer_driver_id o = driver_id (scored_driver s)).
Proof.
  revert n w. induction scored as [| s rest IH]; intros n w; cbn [create_offers].
  - intros H. left. exact H.
  - intros H. apply IH in H as [H | (H1 & H2 & H3 & s' & Hs' & H4)].
    + unfold createRideOffer in H.
      cbn [db ride_offers with_db with_offers publishNotification emit] in H.
      destruct (existsb _ _); [left; exact H |].
      apply in_app_iff in H as [H | [<- | []]]; [left; exact H |].
      right. repeat split. exists s. split; [left; reflexivity | reflexivity].
    + right. repeat split; try assumption. exists s'. split; [right; exact Hs' | exact H4].
Qed.

Lemma create_offers_drivers (rideId : string) (scored : list ScoredDriver)
    (uuid : nat -> string) (n : nat) (now : Z) (w : World) :
  drivers (db (create_offers rideId scored uuid n now w)) = drivers (db w).
Proof.
  revert n w. induction scored as [| s rest IH]; intros n w; cbn; [reflexivity |].
  rewrite IH. reflexivity.
Qed.

(** X12.  What a completed [findDriversForRide] has done: the drivers it returns
    are the online drivers among those of the reply, each with its score,
    best score first; the ride is left in MATCHING, or back in REQUESTED when
    the reply was empty; every offer row that is new is a pending offer for
    this ride to one of the returned drivers, expiring 15 s from now; no
    driver row is written. *)
Theorem findDriversForRide_offers (rideId : string) (nearby : list (string * Q))
    (uuid : nat -> string) (now : Z) (w w' : World) (scored : list ScoredDriver) :
  findDriversForRide rideId nearby uuid now w = (w', Ok scored) ->
  Permutation scored
    (map (score_driver nearby)
       (sql_select (fun d => existsb (String.eqb (driver_id d)) (map fst nearby)
                             && DriverStatus_eqb (driver_status d) online)
          (drivers (db w))))
  /\ StronglySorted ranks_before scored
  /\ (forall r, In r (rides (db w')) -> ride_id r = rideId ->
        ride_status r = match nearby with [] => REQUESTED | _ => MATCHING end)
  /\ (forall o, In o (ride_offers (db w')) ->
        In o (ride_offers (db w))
        \/ (offer_ride_id o = rideId /\ offer_status o = pending
            /\ offer_expires_at o = (now + 15000)%Z
            /\ exists s, In s scored /\ offer_driver_id o = driver_id (scored_driver s)))
  /\ drivers (db w') = drivers (db w).
Proof.
  unfold findDriversForRide. intros H.
  destruct (sql_select _ (rides (db w))) as [| ride rest]; [discriminate |].
  destruct (negb _ && negb _); [discriminate |].
  destruct nearby as [| nb nbs].
  - injection H as <- <-. cbn [map existsb andb].
    assert (Hnil : sql_select (fun d : Driver => false) (drivers (db w)) = []).
    { apply select_nil. reflexivity. }
    cbn [andb]. rewrite Hnil. cbn [map].
    split; [reflexivity |]. split; [constructor |].
    cbn [db rides with_db with_rides ride_offers drivers].
    split; [| split; [intros o Ho; left; exact Ho | reflexivity]].
    intros r Hr Hid. apply sql_update_inv in Hr as (r1 & Hr1 & ->).
    apply sql_update_inv in Hr1 as (r0 & _ & ->).
    cbn in Hid |- *.
    destruct (String.eqb (ride_id r0) rideId) eqn:E; cbn in Hid |- *.
    + rewrite E. reflexivity.
    + rewrite E in Hid |- *. apply String.eqb_neq in E. contradiction.
  - injection H as <- <-.
    split; [apply sort_by_score_perm |]. split; [apply sort_by_score_sorted |].
    rewrite create_offers_rides, create_offers_drivers.
    cbn [db rides with_db with_rides ride_offers drivers].
    split; [| split; [| reflexivity]].
    + intros r Hr Hid. apply sql_update_inv in Hr as (r0 & _ & ->).
      destruct (String.eqb (ride_id r0) rideId) eqn:E; [reflexivity |].
      apply String.eqb_neq in E. contradiction.
    + intros o Ho. apply create_offers_offers in Ho. exact Ho.
Qed.

Lemma findDriversForRide_offers_witness :
  exists w' scored,
    findDriversForRide "ride-1" [("driver-1", 2%Q); ("driver-2", 1%Q)]
      (fun n => match n with O => "offer-3" | _ => "offer-4" end) 100 matching_world
    = (w', Ok scored)
    /\ map (fun s => driver_id (scored_driver s)) scored = ["driver-2"; "driver-1"]
    /\ StronglySorted ranks_before scored
    /\ drivers (db w') = drivers (db matching_world).
Proof.
  destruct (findDriversForRide "ride-1" [("driver-1", 2%Q); ("driver-2", 1%Q)]
              (fun n => match n with O => "offer-3" | _ => "offer-4" end) 100 matching_world)
    as [w' res] eqn:E.
  assert (Hres : exists scored, res = Ok scored
                   /\ map (fun s => driver_id (scored_driver s)) scored
                      = ["driver-2"; "driver-1"])
    by (vm_compute in E; injection E as _ <-; eexists; split; reflexivity).
  destruct Hres as (scored & -> & Hids).
  destruct (findDriversForRide_offers _ _ _ _ _ _ _ E) as (_ & Hsorted & _ & _ & Hd).
  exists w', scored. repeat split; assumption.
Defined.

Lemma distance_of_In (driverId : string) (nearby : list (string * Q)) (q : Q) :
  distance_of driverId nearby = Some q -> In (driverId, q) nearby.
Proof.
  induction nearby as [| [d dist] rest IH]; cbn; [discriminate |].
  destruct (distance_of driverId rest) as [later |].
  - intros [= <-]. right. apply IH. reflexivity.
  - destruct (String.eqb d driverId) eqn:E; [| discriminate].
    apply String.eqb_eq in E. intros [= <-]. left. rewrite E. reflexivity.
Qed.

Lemma scored_distance_pos (nearby : list (string * Q)) (d : Driver) :
  (forall id q, In (id, q) nearby -> 0 <= q)%Q ->
  (0 < scored_distance (score_driver nearby d))%Q.
Proof.
  intros Hn. unfold score_driver. cbn [scored_distance].
  destruct (distance_of (driver_id d) nearby) as [q |] eqn:E; [| reflexivity].
  destruct (Qeq_bool q 0) eqn:Z0; [reflexivity |].
  apply distance_of_In in E. apply Hn in E.
  apply Qeq_bool_neq in Z0. apply Qle_lteq in E as [E | E]; [exact E |].
  exfalso. apply Z0. symmetry. exact E.
Qed.

Lemma scored_score_eq (nearby : list (string * Q)) (d : Driver) :
  scored_score (score_driver nearby d)
  = (1 / (1 + scored_distance (score_driver nearby d)) * (4 # 10)
     + driver_rating d / 5 * (3 # 10) + driver_acceptance_rate d / 100 * (3 # 10))%Q.
Proof. reflexivity. Qed.

Lemma inv_succ_bounds (x : Q) : (0 < x -> 0 < 1 / (1 + x) /\ 1 / (1 + x) < 1)%Q.
Proof.
  intros Hx. assert (H1 : (0 < 1 + x)%Q) by lra. split.
  - apply Qlt_shift_div_l; [exact H1 | lra].
  - apply Qlt_shift_div_r; [exact H1 | lra].
Qed.

Lemma inv_succ_antitone (x y : Q) : (0 < x -> x < y -> 1 / (1 + y) < 1 / (1 + x))%Q.
Proof.
  intros Hx Hxy.
  assert (H1 : (0 < 1 + x)%Q) by lra. assert (H2 : (0 < 1 + y)%Q) by lra.
  apply Qlt_shift_div_l; [exact H1 |].
  setoid_replace (1 / (1 + y) * (1 + x))%Q with ((1 + x) / (1 + y))%Q
    using relation Qeq by (field; lra).
  apply Qlt_shift_div_r; [exact H2 | lra].
Qed.

(** X13.  With a rating between 0 and 5, an acceptance rate between 0 and 100 and
    no negative distance in the reply, the score of a driver lies above 0 and
    below 1. *)
Theorem score_driver_range (nearby : list (string * Q)) (d : Driver) :
  (0 <= driver_rating d)%Q -> (driver_rating d <= 5)%Q ->
  (0 <= driver_acceptance_rate d)%Q -> (driver_acceptance_rate d <= 100)%Q ->
  (forall id q, In (id, q) nearby -> 0 <= q)%Q ->
  (0 < scored_score (score_driver nearby d))%Q
  /\ (scored_score (score_driver nearby d) < 1)%Q.
Proof.
  intros Hr0 Hr5 Ha0 Ha100 Hn. rewrite scored_score_eq.
  pose proof (inv_succ_bounds _ (scored_distance_pos nearby d Hn)) as [Hd0 Hd1].
  assert (Hr0' : (0 <= driver_rating d / 5)%Q) by (apply Qle_shift_div_l; lra).
  assert (Hr1' : (driver_rating d / 5 <= 1)%Q) by (apply Qle_shift_div_r; lra).
  assert (Ha0' : (0 <= driver_acceptance_rate d / 100)%Q) by (apply Qle_shift_div_l; lra).
  assert (Ha1' : (driver_acceptance_rate d / 100 <= 1)%Q) by (apply Qle_shift_div_r; lra).
  set (a := (1 / (1 + scored_distance (score_driver nearby d)))%Q) in *.
  set (b := (driver_rating d / 5)%Q) in *.
  set (c := (driver_acceptance_rate d / 100)%Q) in *.
  clearbody a b c. split; lra.
Qed.

Lemma score_driver_range_witness :
  (0 < scored_score (score_driver [("driver-1", 2%Q)] (sample_driver online)))%Q
  /\ (scored_score (score_driver [("driver-1", 2%Q)] (sample_driver online)) < 1)%Q.
Proof.
  apply score_driver_range; cbn; try (intros q; discriminate).
  intros id q [[= <- <-] | []]. discriminate.
Defined.

(** X14.  Of two drivers with the same rating and acceptance rate, the one with
    the smaller distance scores higher; but a driver the reply places at
    distance 0 is scored as if 999 km away, and so scores below an equally
    rated driver at any distance short of 999 km. *)
Theorem score_prefers_nearer (nearby : list (string * Q)) (a b : Driver) :
  (driver_rating a == driver_rating b)%Q ->
  (driver_acceptance_rate a == driver_acceptance_rate b)%Q ->
  ((0 < scored_distance (score_driver nearby a))%Q ->
   (scored_distance (score_driver nearby a) < scored_distance (score_driver nearby b))%Q ->
   (scored_score (score_driver nearby b) < scored_score (score_driver nearby a))%Q)
  /\ (forall q,
        distance_of (driver_id a) nearby = Some 0%Q ->
        distance_of (driver_id b) nearby = Some q ->
        (0 < q)%Q -> (q < 999)%Q ->
        (scored_score (score_driver nearby a) < scored_score (score_driver nearby b))%Q).
Proof.
  intros Hr Ha.
  assert (Hmono : forall x y : Driver,
            (driver_rating x == driver_rating y)%Q ->
            (driver_acceptance_rate x == driver_acceptance_rate y)%Q ->
            (0 < scored_distance (score_driver nearby x))%Q ->
            (scored_distance (score_driver nearby x)
             < scored_distance (score_driver nearby y))%Q ->
            (scored_score (score_driver nearby y) < scored_score (score_driver nearby x))%Q).
  { intros x y Hrx Hax H0 Hlt. rewrite !scored_score_eq.
    pose proof (inv_succ_antitone _ _ H0 Hlt) as Hinv.
    assert (E1 : (driver_rating x / 5 == driver_rating y / 5)%Q) by (rewrite Hrx; reflexivity).
    assert (E2 : (driver_acceptance_rate x / 100 == driver_acceptance_rate y / 100)%Q)
      by (rewrite Hax; reflexivity).
    set (dx := (1 / (1 + scored_distance (score_driver nearby x)))%Q) in *.
    set (dy := (1 / (1 + scored_distance (score_driver nearby y)))%Q) in *.
    set (rx := (driver_rating x / 5)%Q) in *. set (ry := (driver_rating y / 5)%Q) in *.
    set (ax := (driver_acceptance_rate x / 100)%Q) in *.
    set (ay := (driver_acceptance_rate y / 100)%Q) in *.
    clearbody dx dy rx ry ax ay. lra. }
  split.
  - apply Hmono; assumption.
  - intros q Da Db Hq0 Hq.
    assert (Hda : scored_distance (score_driver nearby a) = 999%Q).
    { unfold score_driver. cbn [scored_distance]. rewrite Da. reflexivity. }
    assert (Hdb : scored_distance (score_driver nearby b) = q).
    { unfold score_driver. cbn [scored_distance]. rewrite Db.
      destruct (Qeq_bool q 0) eqn:Z0; [| reflexivity].
      apply Qeq_bool_eq in Z0. lra. }
    apply Hmono; [symmetry; exact Hr | symmetry; exact Ha | rewrite Hdb; exact Hq0 |].
    rewrite Hda, Hdb. exact Hq.
Qed.

Lemma score_prefers_nearer_witness :
  (scored_score (score_driver [("driver-1", 0%Q); ("driver-3", 5%Q)] (sample_driver online))
   < scored_score (score_driver [("driver-1", 0%Q); ("driver-3", 5%Q)]
                     (mkDriver "driver-3" "Chitra" "economy" online (48 # 10) 0 90)))%Q.
Proof.
  apply (proj2 (score_prefers_nearer [("driver-1", 0%Q); ("driver-3", 5%Q)]
                  (sample_driver online)
                  (mkDriver "driver-3" "Chitra" "economy" online (48 # 10) 0 90)
                  ltac:(reflexivity) ltac:(reflexivity)) 5%Q);
    reflexivity.
Defined.

(** *** acceptRide *)

Lemma accept_transaction_err (rideId driverId : string) (now : Z) (w w' : World) (e : Error) :
  accept_transaction rideId driverId now w = (w', Err e) -> w' = w.
Proof.
  unfold accept_transaction. intros H.
  destruct (sql_select _ (rides (db w))) as [| ride rest]; [injection H as <- _; reflexivity |].
  destruct (negb _).
  - destruct (ride_driver_id ride); injection H as <- _; reflexivity.
  - destruct (sql_select _ (drivers (db w))) as [| driver ?];
      [injection H as <- _; reflexivity |].
    destruct (sql_select _ (ride_offers (db w))) as [| offer ?];
      [injection H as <- _; reflexivity |].
    destruct (sql_returning _ _ _); discriminate.
Qed.



Lemma kv_invalidateRideCache_other (rideId : string) (d r : option string) (key : string)
    (w : World) :
  key <> CACHE_KEY_RIDE rideId -> key <> CACHE_KEY_RIDE_DETAILS rideId ->
  (forall x, key <> CACHE_KEY_DRIVER x) -> (forall x, key <> CACHE_KEY_DRIVER_STATUS x) ->
  (forall x, key <> CACHE_KEY_DRIVER_CURRENT_RIDE x) ->
  (forall x, key <> CACHE_KEY_RIDER_CURRENT_RIDE x) ->
  kv (invalidateRideCache rideId d r w) !! key = kv w !! key.
Proof.
  intros H1 H2 H3 H4 H5 H6.
  unfold invalidateRideCache, invalidateDriverCache, invalidateCache.
  destruct d as [d |], r as [r |]; cbn [kv with_kv];
    repeat (rewrite lookup_delete_ne by (apply not_eq_sym; auto)); reflexivity.
Qed.


Lemma acceptRide_ok_offer (rideId driverId token : string) (now : Z) (w w' : World)
    (r : Ride) :
  acceptRide rideId driverId token now w = (w', Ok r) ->
  exists o, In o (ride_offers (db w)) /\ offer_ride_id o = rideId
            /\ offer_driver_id o = driverId /\ offer_status o = pending.
Proof.
  unfold acceptRide, acquireLock. intros H.
  destruct (kv w !! ("lock:" ++ "ride:" ++ rideId)); [discriminate |].
  destruct (executeTransaction _ _) as [w1 res] eqn:T. injection H as _ ->.
  apply TripLifeProofs.executeTransaction_ok in T.
  apply MatchingProofs.accept_transaction_ok in T
    as (_ & _ & offer & _ & _ & Ho & _). exists offer. exact Ho.
Qed.



End DispatchProofs.

(** ** Acceptance with and without Redlock *)
Module LockModeProofs.
Import RideService MatchingService SimulationService LockingService OfferService
  Samples SqlFacts TableFacts LifecycleProofs MatchingProofs DispatchProofs.


(** With Redlock, [acceptRideIn] is [acceptRide]. *)
Lemma acceptRideIn_redlock (rideId driverId token : string) (now : Z) (w : World) :
  acceptRideIn true rideId driverId token now w = acceptRide rideId driverId token now w.
Proof.
  unfold acceptRideIn, acceptRide, acquireLockIn, acquireLock.
  destruct (kv w !! ("lock:" ++ "ride:" ++ rideId)); reflexivity.
Qed.

(** Without it, the transaction runs on the world as it is. *)
Lemma acceptRideIn_mock (rideId driverId token : string) (now : Z) (w : World) :
  acceptRideIn false rideId driverId token now w
  = executeTransaction (accept_transaction rideId driverId now) w.
Proof.
  unfold acceptRideIn, acquireLockIn, releaseLockIn.
  destruct (executeTransaction _ w) as [w1 r]. reflexivity.
Qed.



(** Everything the transaction of a successful [acceptRide] leaves behind. *)
Lemma accept_transaction_run (rideId driverId : string) (now : Z) (w w' : World) (r : Ride) :
  accept_transaction rideId driverId now w = (w', Ok r) ->
  exists ride rest driver drest,
    sql_select (fun x => String.eqb (ride_id x) rideId) (rides (db w)) = ride :: rest
    /\ ride_status ride = MATCHING
    /\ sql_select (fun d => String.eqb (driver_id d) driverId
                            && DriverStatus_eqb (driver_status d) online) (drivers (db w))
       = driver :: drest
    /\ r = assign_row driverId now ride
    /\ geo w' = delete (geo_key (driver_vehicle_type driver), driverId) (geo w)
    /\ activeSimulations w'
       = <[Some driverId := mkSim rideId (ride_rider_id ride) TO_PICKUP (ride_tier ride)]>
           (delete (Some driverId) (activeSimulations w))
    /\ kv w' = kv (invalidateRideCache rideId (Some driverId) (Some (ride_rider_id ride)) w)
    /\ events w' = (events w ++ [RideEvent rideId (ride_tenant_id ride) "RIDE_ACCEPTED";
                                 Notification (Some (ride_rider_id ride)) "DRIVER_ASSIGNED";
                                 Notification (Some (ride_rider_id ride)) "DRIVER_LOCATION"])%list.
Proof.
  intros T. unfold accept_transaction in T.
  destruct (sql_select _ (rides (db w))) as [| ride rest] eqn:Er; [discriminate |].
  destruct (RideStatus_eqb (ride_status ride) MATCHING) eqn:Es; cbn [negb] in T;
    [| destruct (ride_driver_id ride); discriminate].
  destruct (sql_select _ (drivers (db w))) as [| driver drest] eqn:Ed; [discriminate |].
  destruct (sql_select _ (ride_offers (db w))) as [| offer ?] eqn:Eo; [discriminate |].
  rewrite (returning_head _ _ _ _ _ Er) in T.
  injection T as <- <-.
  apply RideStatus_eqb_eq in Es.
  exists ride, rest, driver, drest.
  destruct (select_update_head (fun x => String.eqb (ride_id x) rideId)
              (fun x => String.eqb (ride_id x) rideId) (assign_row driverId now)
              (rides (db w)) ride rest (fun x => eq_refl) Er) as [rest' Hsel].
  pose proof (select_head_In _ _ _ _ Er) as [_ Hid]. cbn beta in Hid, Hsel.
  rewrite Hid in Hsel.
  unfold startDriverSimulation, stopDriverSimulation.
  cbn [db rides with_db with_rides with_drivers with_offers with_sims with_kv with_geo
       publishRideEvent publishNotification emit removeDriverLocation
       invalidateCache invalidateDriverCache invalidateRideCache
       activeSimulations kv geo events drivers ride_offers].
  rewrite Hsel.
  destruct w as [d k g s ev]. cbn. repeat split; try assumption; try reflexivity.
  rewrite <- !app_assoc. reflexivity.
Qed.

Lemma kv_releaseLock_other (l : Lock) (k : string) (w : World) :
  k <> lock_key l -> kv (releaseLock l w) !! k = kv w !! k.
Proof.
  intros Hk. unfold releaseLock.
  destruct (kv w !! lock_key l) as [[| t] |]; try reflexivity.
  destruct (String.eqb t (lock_token l)); [| reflexivity].
  cbn [kv with_kv]. apply lookup_delete_ne. apply not_eq_sym. exact Hk.
Qed.

Lemma releaseLock_keeps (l : Lock) (w : World) :
  geo (releaseLock l w) = geo w
  /\ activeSimulations (releaseLock l w) = activeSimulations w
  /\ events (releaseLock l w) = events w.
Proof.
  unfold releaseLock.
  repeat match goal with
         | |- context [match ?x with _ => _ end] => destruct x
         | |- context [if ?x then _ else _] => destruct x
         end; repeat split.
Qed.

(** Everything a successful [acceptRide] leaves behind, with Redlock and
    without. *)
Lemma acceptRideIn_ok (redlock : bool) (rideId driverId token : string) (now : Z)
    (w w' : World) (r : Ride) :
  acceptRideIn redlock rideId driverId token now w = (w', Ok r) ->
  exists ride rest driver drest,
    (redlock = false \/ kv w !! ("lock:ride:" ++ rideId) = None)
    /\ sql_select (fun x => String.eqb (ride_id x) rideId) (rides (db w)) = ride :: rest
    /\ ride_status ride = MATCHING
    /\ sql_select (fun d => String.eqb (driver_id d) driverId
                            && DriverStatus_eqb (driver_status d) online) (drivers (db w))
       = driver :: drest
    /\ r = assign_row driverId now ride
    /\ geo w' = delete (geo_key (driver_vehicle_type driver), driverId) (geo w)
    /\ activeSimulations w'
       = <[Some driverId := mkSim rideId (ride_rider_id ride) TO_PICKUP (ride_tier ride)]>
           (delete (Some driverId) (activeSimulations w))
    /\ (forall k, k <> "lock:ride:" ++ rideId ->
          kv w' !! k
          = kv (invalidateRideCache rideId (Some driverId) (Some (ride_rider_id ride)) w) !! k)
    /\ events w' = (events w ++ [RideEvent rideId (ride_tenant_id ride) "RIDE_ACCEPTED";
                                 Notification (Some (ride_rider_id ride)) "DRIVER_ASSIGNED";
                                 Notification (Some (ride_rider_id ride)) "DRIVER_LOCATION"])%list.
Proof.
  intros H. destruct redlock.
  - unfold acceptRideIn, acquireLockIn, acquireLock in H.
    change ("lock:" ++ "ride:" ++ rideId) with ("lock:ride:" ++ rideId) in H.
    destruct (kv w !! ("lock:ride:" ++ rideId)) eqn:L; [discriminate |].
    destruct (executeTransaction _ _) as [w1 res] eqn:T.
    injection H as <- ->.
    apply TripLifeProofs.executeTransaction_ok in T.
    apply accept_transaction_run in T
      as (ride & rest & driver & drest & Er & Es & Ed & Hr & Hg & Hs & Hk & He).
    exists ride, rest, driver, drest.
    cbn [releaseLockIn].
    destruct (releaseLock_keeps (mkLock ("lock:ride:" ++ rideId) token) w1) as (-> & -> & ->).
    repeat split; try assumption; [right; reflexivity |].
    intros k Hk0. rewrite kv_releaseLock_other by exact Hk0. rewrite Hk.
    unfold invalidateRideCache, invalidateDriverCache, invalidateCache. cbn [kv with_kv].
    repeat match goal with
           | |- delete ?x _ !! k = delete ?x _ !! k =>
               destruct (decide (x = k)) as [-> | ?];
               [rewrite !lookup_delete_eq; reflexivity
               | rewrite !(lookup_delete_ne _ x k) by assumption]
           end.
    apply lookup_insert_ne. apply not_eq_sym. exact Hk0.
  - rewrite acceptRideIn_mock in H.
    apply TripLifeProofs.executeTransaction_ok in H.
    apply accept_transaction_run in H
      as (ride & rest & driver & drest & Er & Es & Ed & Hr & Hg & Hs & Hk & He).
    exists ride, rest, driver, drest. rewrite Hk.
    repeat split; try assumption. left; reflexivity.
Qed.






Lemma acceptRideIn_ok_offer (redlock : bool) (rideId driverId token : string) (now : Z)
    (w w' : World) (r : Ride) :
  acceptRideIn redlock rideId driverId token now w = (w', Ok r) ->
  exists o, In o (ride_offers (db w)) /\ offer_ride_id o = rideId
            /\ offer_driver_id o = driverId /\ offer_status o = pending.
Proof.
  intros H. destruct redlock.
  - rewrite acceptRideIn_redlock in H. exact (acceptRide_ok_offer _ _ _ _ _ _ _ H).
  - rewrite acceptRideIn_mock in H. apply TripLifeProofs.executeTransaction_ok in H.
    apply accept_transaction_ok in H as (_ & _ & offer & _ & _ & Ho & _).
    exists offer. exact Ho.
Qed.

(** X16.  [acceptRide] succeeds exactly when the lock of the ride is free or the
    process runs without Redlock, the ride row is in MATCHING, the driver is
    online and holds a pending offer for the ride.  The expiry time of the
    offer plays no part. *)
Theorem acceptRide_succeeds_iff (redlock : bool) (rideId driverId token : string) (now : Z)
    (w : World) :
  (exists w' r, acceptRideIn redlock rideId driverId token now w = (w', Ok r))
  <-> ((redlock = false \/ kv w !! ("lock:ride:" ++ rideId) = None)
       /\ (exists ride rest,
              sql_select (fun x => String.eqb (ride_id x) rideId) (rides (db w)) = ride :: rest
              /\ ride_status ride = MATCHING)
       /\ (exists d, In d (drivers (db w)) /\ driver_id d = driverId
                     /\ driver_status d = online)
       /\ (exists o, In o (ride_offers (db w)) /\ offer_ride_id o = rideId
                     /\ offer_driver_id o = driverId /\ offer_status o = pending)).
Proof.
  split.
  - intros (w' & r & H).
    pose proof H as H0.
    apply acceptRideIn_ok in H
      as (ride & rest & driver & drest & L & Er & Es & Ed & _).
    split; [exact L |]. split; [eauto |].
    apply select_head_In in Ed as [Hdin Hd]. apply andb_true_iff in Hd as [Hd1 Hd2].
    apply String.eqb_eq in Hd1. apply DriverStatus_eqb_eq in Hd2.
    split; [eauto |].
    exact (acceptRideIn_ok_offer _ _ _ _ _ _ _ _ H0).
  - intros (L & (ride & rest & Er & Es) & (d & Hdin & Hdid & Hdst)
            & (o & Hoin & Hor & Hod & Hos)).
    assert (Hbody : forall w0, db w0 = db w ->
              exists w1 r, accept_transaction rideId driverId now w0 = (w1, Ok r)).
    { intros w0 Hw0. unfold accept_transaction. rewrite Hw0, Er, Es.
      cbn [RideStatus_eqb negb].
      destruct (sql_select _ (drivers (db w))) as [| driver drest] eqn:Ed.
      { exfalso. rewrite select_nil in Ed. specialize (Ed d Hdin). cbn beta in Ed.
        rewrite Hdid, Hdst, String.eqb_refl in Ed. discriminate. }
      destruct (sql_select _ (ride_offers (db w))) as [| offer orest] eqn:Eo.
      { exfalso. rewrite select_nil in Eo. specialize (Eo o Hoin).
        unfold pending_offer_of, offer_of in Eo.
        rewrite Hor, Hod, Hos, !String.eqb_refl in Eo. discriminate. }
      rewrite (returning_head _ _ _ _ _ Er). eauto. }
    destruct redlock.
    + destruct L as [L | L]; [discriminate |].
      unfold acceptRideIn, acquireLockIn, acquireLock.
      change ("lock:" ++ "ride:" ++ rideId) with ("lock:ride:" ++ rideId).
      rewrite L. unfold executeTransaction.
      destruct (Hbody (with_kv (<["lock:ride:" ++ rideId := Raw token]> (kv w)) w) eq_refl)
        as (w1 & r & ->). eauto.
    + rewrite acceptRideIn_mock. unfold executeTransaction.
      destruct (Hbody w eq_refl) as (w1 & r & ->). eauto.
Qed.

Lemma acceptRide_succeeds_iff_witness :
  (exists w' r, acceptRideIn true "ride-1" "driver-1" "token-1" 100000 matching_world
                = (w', Ok r))
  /\ (exists w' r, acceptRideIn false "ride-1" "driver-1" "token-1" 100000
                     (with_kv {[ "lock:ride:ride-1" := Raw "token-0" ]} matching_world)
                   = (w', Ok r)).
Proof.
  split.
  - apply (proj2 (acceptRide_succeeds_iff true "ride-1" "driver-1" "token-1" 100000
                    matching_world)).
    split; [right; reflexivity |].
    split; [exists (sample_ride MATCHING None), []; split; reflexivity |].
    split.
    + exists (sample_driver online). split; [left; reflexivity | split; reflexivity].
    + exists (sample_offer "offer-1" "driver-1" pending).
      split; [left; reflexivity | repeat split].
  - apply (proj2 (acceptRide_succeeds_iff false "ride-1" "driver-1" "token-1" 100000
                    (with_kv {[ "lock:ride:ride-1" := Raw "token-0" ]} matching_world))).
    split; [left; reflexivity |].
    split; [exists (sample_ride MATCHING None), []; split; reflexivity |].
    split.
    + exists (sample_driver online). split; [left; reflexivity | split; reflexivity].
    + exists (sample_offer "offer-1" "driver-1" pending).
      split; [left; reflexivity | repeat split].
Defined.

(** X17.  Beside the rows it writes, a successful [acceptRide] takes the driver out
    of the geo index of their vehicle type, starts the driver's simulation
    towards the pickup, and drops the cached ride and the cached current
    ride of driver and rider. *)
Theorem acceptRide_side_effects (redlock : bool) (rideId driverId token : string) (now : Z)
    (w w' : World) (r : Ride) :
  acceptRideIn redlock rideId driverId token now w = (w', Ok r) ->
  (exists driver, In driver (drivers (db w)) /\ driver_id driver = driverId
                  /\ geo w' !! (geo_key (driver_vehicle_type driver), driverId) = None)
  /\ activeSimulations w' !! Some driverId
     = Some (mkSim rideId (ride_rider_id r) TO_PICKUP (ride_tier r))
  /\ cacheGet (CACHE_KEY_RIDE rideId) w' = None
  /\ cacheGet (CACHE_KEY_DRIVER_CURRENT_RIDE driverId) w' = None
  /\ cacheGet (CACHE_KEY_RIDER_CURRENT_RIDE (ride_rider_id r)) w' = None.
Proof.
  intros H. apply acceptRideIn_ok in H
    as (ride & rest & driver & drest & _ & _ & _ & Ed & -> & Hg & Hs & Hk & _).
  apply select_head_In in Ed as [Hdin Hd]. apply andb_true_iff in Hd as [Hd1 _].
  apply String.eqb_eq in Hd1.
  split; [exists driver; repeat split; try assumption; rewrite Hg; apply lookup_delete_eq |].
  split; [rewrite Hs; apply lookup_insert_eq |].
  unfold cacheGet. rewrite !Hk by discriminate.
  unfold invalidateRideCache, invalidateDriverCache, invalidateCache.
  cbn [kv with_kv assign_row ride_rider_id].
  assert (Hgone : forall (m : gmap string cache_value) (k : string),
            m !! k = None ->
            match m !! k with Some (Json d) => Some d | _ => None end = None)
    by (intros m k ->; reflexivity).
  repeat split; apply Hgone;
    repeat first [apply lookup_delete_eq | apply lookup_delete_None; right].
Qed.

Lemma acceptRide_side_effects_witness :
  exists w',
    fst (acceptRideIn true "ride-1" "driver-1" "token-1" 100 matching_world) = w'
    /\ activeSimulations w' !! Some "driver-1" = Some sample_simulation
    /\ cacheGet (CACHE_KEY_RIDE "ride-1") w' = None.
Proof.
  destruct (acceptRideIn true "ride-1" "driver-1" "token-1" 100 matching_world)
    as [w' res] eqn:E.
  assert (Hres : exists r, res = Ok r /\ ride_rider_id r = "rider-1" /\ ride_tier r = "economy")
    by (vm_compute in E; injection E as _ <-; eexists; repeat split).
  destruct Hres as (r & -> & Hrider & Htier).
  destruct (acceptRide_side_effects _ _ _ _ _ _ _ _ E) as (_ & Hs & Hk & _).
  exists w'. cbn [fst]. rewrite Hrider, Htier in Hs. repeat split; assumption.
Defined.

End LockModeProofs.

(** ** Declining and expiring offers *)
Module OfferProofs.
Import RideService MatchingService LockingService OfferService Samples SqlFacts TableFacts.

Lemma with_offers_same (d : Db) : with_offers (ride_offers d) d = d.
Proof. destruct d; reflexivity. Qed.

Lemma declined_not_pending (rideId driverId : string) (now : Z) (t : list RideOffer) :
  sql_select (pending_offer_of rideId driverId)
    (sql_update (pending_offer_of rideId driverId) (decline_offer now) t) = [].
Proof.
  apply select_nil. intros o Ho. apply sql_update_inv in Ho as (o0 & _ & ->).
  destruct (pending_offer_of rideId driverId o0) eqn:E; [| exact E].
  unfold pending_offer_of, decline_offer, set_offer. cbn. apply andb_false_r.
Qed.

Lemma declineRide_ok (rideId driverId : string) (now : Z) (w w' : World) (offer : RideOffer) :
  declineRide rideId driverId now w = (w', Ok offer) ->
  (exists o0, In o0 (ride_offers (db w)) /\ pending_offer_of rideId driverId o0 = true
              /\ offer = decline_offer now o0)
  /\ ride_offers (db w') = sql_update (pending_offer_of rideId driverId) (decline_offer now)
                             (ride_offers (db w))
  /\ rides (db w') = rides (db w)
  /\ drivers (db w') = sql_update (fun d => String.eqb (driver_id d) driverId)
                         (set_acceptance_rate (acceptance_rate_of driverId (ride_offers (db w'))))
                         (drivers (db w)).
Proof.
  unfold declineRide. intros H.
  destruct (sql_returning _ _ (ride_offers (db w))) as [| o rest] eqn:Er; [discriminate |].
  injection H as <- <-.
  assert (Ho : In o (sql_returning (pending_offer_of rideId driverId) (decline_offer now)
                       (ride_offers (db w)))) by (rewrite Er; left; reflexivity).
  unfold sql_returning in Ho. apply in_map_iff in Ho as (o0 & <- & Ho0).
  apply filter_In in Ho0 as [Hin Hp].
  split; [exists o0; repeat split; assumption |]. repeat split.
Qed.

Lemma declineRide_none (rideId driverId : string) (now : Z) (w : World) :
  sql_select (pending_offer_of rideId driverId) (ride_offers (db w)) = [] ->
  declineRide rideId driverId now w = (w, Err (NotFoundError "Ride offer")).
Proof.
  intros Hnone. unfold declineRide.
  assert (Hret : sql_returning (pending_offer_of rideId driverId) (decline_offer now)
                   (ride_offers (db w)) = []).
  { apply sql_returning_nil. apply select_nil. exact Hnone. }
  rewrite Hret, (sql_update_none _ _ _ Hret), with_offers_same, with_db_same. reflexivity.
Qed.

(** Without a pending offer of the pair, [acceptRide] does not succeed. *)
Lemma acceptRideIn_needs_offer (redlock : bool) (rideId driverId token : string) (now : Z)
    (w : World) :
  sql_select (pending_offer_of rideId driverId) (ride_offers (db w)) = [] ->
  exists e, snd (acceptRideIn redlock rideId driverId token now w) = Err e.
Proof.
  intros Hnone.
  destruct (acceptRideIn redlock rideId driverId token now w) as [w2 [r | e]] eqn:A; [| eauto].
  exfalso.
  apply LockModeProofs.acceptRideIn_ok_offer in A as (p & Hpin & Hp1' & Hp2' & Hp3').
  rewrite select_nil in Hnone. specialize (Hnone p Hpin).
  unfold pending_offer_of, offer_of in Hnone.
  rewrite Hp1', Hp2', Hp3', !String.eqb_refl in Hnone. discriminate.
Qed.

(** X19.  A successful [declineRide] returns the pending offer of the pair, now
    declined, and leaves no pending offer of the pair; rides are not
    touched.  On the state it leaves, and on any state in which the pair
    has no pending offer, [acceptRide] of the pair is refused and
    [declineRide] of the pair finds no offer and changes nothing. *)
Theorem declineRide_closes_offer (rideId driverId : string) (now : Z) (w w' : World)
    (offer : RideOffer) :
  declineRide rideId driverId now w = (w', Ok offer) ->
  (offer_ride_id offer = rideId /\ offer_driver_id offer = driverId
   /\ offer_status offer = declined /\ offer_responded_at offer = Some now)
  /\ sql_select (pending_offer_of rideId driverId) (ride_offers (db w')) = []
  /\ rides (db w') = rides (db w)
  /\ (forall w2,
        sql_select (pending_offer_of rideId driverId) (ride_offers (db w2)) = [] ->
        (forall redlock token now', exists e,
            snd (acceptRideIn redlock rideId driverId token now' w2) = Err e)
        /\ (forall now',
              declineRide rideId driverId now' w2 = (w2, Err (NotFoundError "Ride offer")))).
Proof.
  intros H. apply declineRide_ok in H as ((o0 & _ & Hp & ->) & Hoff & Hrides & _).
  unfold pending_offer_of, offer_of in Hp.
  apply andb_true_iff in Hp as [Hp12 _]. apply andb_true_iff in Hp12 as [Hp1 Hp2].
  apply String.eqb_eq in Hp1, Hp2.
  assert (Hnone : sql_select (pending_offer_of rideId driverId) (ride_offers (db w')) = [])
    by (rewrite Hoff; apply declined_not_pending).
  split; [repeat split; assumption |]. split; [exact Hnone |]. split; [exact Hrides |].
  intros w2 H2. split.
  - intros redlock token now'. apply acceptRideIn_needs_offer. exact H2.
  - intros now'. apply declineRide_none. exact H2.
Qed.

Lemma declineRide_closes_offer_witness :
  exists w',
    fst (declineRide "ride-1" "driver-1" 100 matching_world) = w'
    /\ map offer_status (ride_offers (db w')) = [declined; pending; expired]
    /\ (exists e, snd (acceptRideIn true "ride-1" "driver-1" "token-1" 200 w') = Err e)
    /\ declineRide "ride-1" "driver-1" 300 w' = (w', Err (NotFoundError "Ride offer")).
Proof.
  destruct (declineRide "ride-1" "driver-1" 100 matching_world) as [w' res] eqn:E.
  assert (Hres : exists o, res = Ok o
                   /\ map offer_status (ride_offers (db w')) = [declined; pending; expired])
    by (vm_compute in E; injection E as <- <-; eexists; split; reflexivity).
  destruct Hres as (o & -> & Hst).
  destruct (declineRide_closes_offer _ _ _ _ _ _ E) as (_ & Hnone & _ & Hafter).
  destruct (Hafter w' Hnone) as [Hacc Hdec].
  exists w'. cbn [fst]. repeat split; [exact Hst | apply Hacc | apply Hdec].
Defined.

Lemma filter_length_lt {A} (p : A -> bool) (l : list A) (x : A) :
  In x l -> p x = false -> (length (List.filter p l) < length l)%nat.
Proof.
  induction l as [| a l IH]; cbn; [intros [] |].
  intros [-> | Hin] Hp.
  - rewrite Hp. pose proof (List.filter_length_le p l). lia.
  - specialize (IH Hin Hp). destruct (p a); cbn; lia.
Qed.

Lemma share_bounds (a n : nat) :
  (a < n)%nat ->
  (0 <= inject_Z (Z.of_nat a) / inject_Z (Z.of_nat n) * 100)%Q
  /\ (inject_Z (Z.of_nat a) / inject_Z (Z.of_nat n) * 100 < 100)%Q.
Proof.
  intros H.
  assert (Hn : (0 < inject_Z (Z.of_nat n))%Q)
    by (change 0%Q with (inject_Z 0); rewrite <- Zlt_Qlt; lia).
  assert (Ha : (0 <= inject_Z (Z.of_nat a))%Q)
    by (change 0%Q with (inject_Z 0); rewrite <- Zle_Qle; lia).
  assert (Han : (inject_Z (Z.of_nat a) < inject_Z (Z.of_nat n))%Q)
    by (rewrite <- Zlt_Qlt; lia).
  assert (H0 : (0 <= inject_Z (Z.of_nat a) / inject_Z (Z.of_nat n))%Q)
    by (apply Qle_shift_div_l; [exact Hn | lra]).
  assert (H1 : (inject_Z (Z.of_nat a) / inject_Z (Z.of_nat n) < 1)%Q)
    by (apply Qlt_shift_div_r; [exact Hn | lra]).
  set (x := (inject_Z (Z.of_nat a) / inject_Z (Z.of_nat n))%Q) in *. clearbody x.
  split; lra.
Qed.

Lemma decimal_5_2_bounds (x : Q) :
  (0 <= x)%Q -> (x <= 100)%Q -> (0 <= decimal_5_2 x)%Q /\ (decimal_5_2 x <= 100)%Q.
Proof.
  intros H0 H100. unfold decimal_5_2, FareSpec.round2, FareSpec.round_half_away.
  assert (H : Qle_bool 0 (x * 100) = true) by (apply Qle_bool_iff; lra).
  rewrite H.
  assert (Hlo : (0 <= Qfloor (x * 100 + (1 # 2)))%Z).
  { change 0%Z with (Qfloor 0). apply Qfloor_resp_le. lra. }
  assert (Hhi : (Qfloor (x * 100 + (1 # 2)) <= 10000)%Z).
  { change 10000%Z with (Qfloor (10000 + (1 # 2))). apply Qfloor_resp_le. lra. }
  rewrite Zle_Qle in Hlo, Hhi.
  set (k := inject_Z (Qfloor (x * 100 + (1 # 2)))) in *. clearbody k.
  change (inject_Z 0) with 0%Q in Hlo. change (inject_Z 10000) with 10000%Q in Hhi.
  split.
  - apply Qle_shift_div_l; lra.
  - apply Qle_shift_div_r; lra.
Qed.

(** X20.  After a decline, every row of the driver carries the share of accepted
    offers among all offers of the driver, in percent and rounded to two
    decimals, as the offer table now stands.  With the declined offer
    counted the share is below 100, and what is stored lies between 0 and
    100.  Other drivers keep their rows. *)
Theorem declineRide_acceptance_rate (rideId driverId : string) (now : Z) (w w' : World)
    (offer : RideOffer) :
  declineRide rideId driverId now w = (w', Ok offer) ->
  let share := acceptance_rate_of driverId (ride_offers (db w')) in
  (forall d', In d' (drivers (db w')) -> driver_id d' = driverId ->
     driver_acceptance_rate d' = decimal_5_2 share)
  /\ (0 <= share)%Q /\ (share < 100)%Q
  /\ (0 <= decimal_5_2 share)%Q /\ (decimal_5_2 share <= 100)%Q
  /\ (forall d', In d' (drivers (db w')) -> driver_id d' <> driverId ->
        In d' (drivers (db w))).
Proof.
  intros H. cbn zeta.
  apply declineRide_ok in H as ((o0 & Hin & Hp & ->) & Hoff & _ & Hdrv).
  assert (Hmine : In (decline_offer now o0) (offers_of_driver driverId (ride_offers (db w')))).
  { unfold offers_of_driver, sql_select. apply filter_In. split.
    - rewrite Hoff. pose proof (sql_update_In (pending_offer_of rideId driverId)
                                  (decline_offer now) _ _ Hin) as Hu.
      cbn beta in Hu. rewrite Hp in Hu. exact Hu.
    - unfold pending_offer_of, offer_of in Hp.
      apply andb_true_iff in Hp as [Hp12 _]. apply andb_true_iff in Hp12 as [_ Hp2].
      exact Hp2. }
  assert (Hb : (0 <= acceptance_rate_of driverId (ride_offers (db w')))%Q
               /\ (acceptance_rate_of driverId (ride_offers (db w')) < 100)%Q).
  { unfold acceptance_rate_of.
    destruct (offers_of_driver driverId (ride_offers (db w'))) as [| m ms] eqn:Em;
      [destruct Hmine |].
    apply share_bounds. unfold accepted_count, sql_select.
    apply (filter_length_lt _ _ (decline_offer now o0)); [exact Hmine | reflexivity]. }
  destruct Hb as [Hb0 Hb1].
  pose proof (decimal_5_2_bounds _ Hb0 (Qlt_le_weak _ _ Hb1)) as [Hs0 Hs1].
  repeat split; try assumption.
  - intros d' Hd' Hid. rewrite Hdrv in Hd'. apply sql_update_inv in Hd' as (d & _ & ->).
    destruct (String.eqb (driver_id d) driverId) eqn:E; [reflexivity |].
    apply String.eqb_neq in E. contradiction.
  - intros d' Hd' Hid. rewrite Hdrv in Hd'. apply sql_update_inv in Hd' as (d & Hd & ->).
    destruct (String.eqb (driver_id d) driverId) eqn:E; [| exact Hd].
    apply String.eqb_eq in E. contradiction.
Qed.

Lemma declineRide_acceptance_rate_witness :
  (acceptance_rate_of "driver-2"
     (ride_offers (db (fst (declineRide "ride-1" "driver-2" 100 matching_world)))) < 100)%Q.
Proof.
  destruct (declineRide "ride-1" "driver-2" 100 matching_world) as [w' res] eqn:E.
  assert (Hres : exists o, res = Ok o)
    by (vm_compute in E; injection E as _ <-; eexists; reflexivity).
  destruct Hres as (o & ->).
  destruct (declineRide_acceptance_rate _ _ _ _ _ _ E) as (_ & _ & Hlt & _).
  exact Hlt.
Defined.

Lemma expired_not_overdue (now now' : Z) (t : list RideOffer) :
  (now' <= now)%Z ->
  sql_select (overdue now') (sql_update (overdue now) expire_offer t) = [].
Proof.
  intros Hle. apply select_nil. intros o Ho. apply sql_update_inv in Ho as (o0 & _ & ->).
  destruct (overdue now o0) eqn:E; [reflexivity |].
  unfold overdue in *. apply andb_false_iff in E as [E | E].
  - rewrite E. reflexivity.
  - apply andb_false_iff. right. apply Z.ltb_ge in E. apply Z.ltb_ge. lia.
Qed.

(** X21.  The sweep over pending offers: afterwards no offer is pending past its
    expiry; the rows returned are the pairs of the offers that were; rides
    and drivers are not touched; a second sweep at that time or earlier
    finds nothing and changes nothing; and a pair all of whose pending
    offers had run out can no longer accept the ride. *)
Theorem expirePendingOffers_sweep (now : Z) (w : World) :
  let w' := fst (expirePendingOffers now w) in
  sql_select (overdue now) (ride_offers (db w')) = []
  /\ snd (expirePendingOffers now w)
     = map (fun o => (offer_ride_id o, offer_driver_id o))
         (sql_select (overdue now) (ride_offers (db w)))
  /\ rides (db w') = rides (db w) /\ drivers (db w') = drivers (db w)
  /\ (forall now', (now' <= now)%Z -> expirePendingOffers now' w' = (w', []))
  /\ (forall rideId driverId token t,
        (forall o, In o (ride_offers (db w)) -> pending_offer_of rideId driverId o = true ->
                   (offer_expires_at o < now)%Z) ->
        exists e, snd (acceptRide rideId driverId token t w') = Err e).
Proof.
  cbn zeta. unfold expirePendingOffers at 1 2 3 4 5. cbn [fst snd db ride_offers rides drivers with_db with_offers].
  split; [apply expired_not_overdue; lia |].
  split; [unfold sql_returning, sql_select; rewrite map_map; reflexivity |].
  split; [reflexivity |]. split; [reflexivity |]. split.
  - intros now' Hle. unfold expirePendingOffers.
    cbn [fst db ride_offers with_db with_offers].
    pose proof (expired_not_overdue now now' (ride_offers (db w)) Hle) as Hnone.
    assert (Hret : sql_returning (overdue now') expire_offer
                     (sql_update (overdue now) expire_offer (ride_offers (db w))) = []).
    { apply sql_returning_nil. apply select_nil. exact Hnone. }
    rewrite Hret, (sql_update_none _ _ _ Hret). reflexivity.
  - intros rideId driverId token t Hall.
    match goal with |- exists e, snd (acceptRide _ _ _ _ ?w0) = _ => set (w1 := w0) end.
    destruct (acceptRide rideId driverId token t w1) as [w2 [r | e]] eqn:A; [| eauto].
    exfalso. apply DispatchProofs.acceptRide_ok_offer in A as (p & Hpin & Hp1 & Hp2 & Hp3).
    subst w1. cbn [db ride_offers with_db with_offers] in Hpin.
    apply sql_update_inv in Hpin as (p0 & Hp0 & ->).
    destruct (overdue now p0) eqn:E; [discriminate |].
    assert (Hpend : pending_offer_of rideId driverId p0 = true).
    { unfold pending_offer_of, offer_of.
      rewrite Hp1, Hp2, Hp3, !String.eqb_refl. reflexivity. }
    specialize (Hall p0 Hp0 Hpend). unfold overdue in E. rewrite Hp3 in E.
    cbn in E. apply Z.ltb_ge in E. lia.
Qed.

Lemma expirePendingOffers_sweep_witness :
  expirePendingOffers 20000 (fst (expirePendingOffers 20000 matching_world))
  = (fst (expirePendingOffers 20000 matching_world), [])
  /\ exists e, snd (acceptRide "ride-1" "driver-1" "token-1" 20001
                      (fst (expirePendingOffers 20000 matching_world))) = Err e.
Proof.
  destruct (expirePendingOffers_sweep 20000 matching_world) as (_ & _ & _ & _ & Hidem & Hacc).
  split; [apply Hidem; lia |].
  apply Hacc. intros o Ho Hp.
  destruct Ho as [<- | [<- | [<- | []]]]; try reflexivity; discriminate.
Defined.

(** X22.  An offer lives 15 seconds: the offer [createRideOffer] writes at time [t]
    under a fresh id is still pending after a sweep at any time up to
    [t + 15000] ms, and expired after a sweep at any later time. *)
Theorem offer_lifetime (rideId driverId offerId : string) (t now : Z) (w : World) :
  existsb (fun o => String.eqb (offer_id o) offerId) (ride_offers (db w)) = false ->
  In (mkOffer offerId rideId driverId
        (if (t + 15000 <? now)%Z then expired else pending) (t + 15000) None)
     (ride_offers (db (fst (expirePendingOffers now
                              (createRideOffer rideId driverId offerId t w))))).
Proof.
  intros Hfresh. unfold expirePendingOffers, createRideOffer.
  cbn [fst db ride_offers with_db with_offers publishNotification emit]. rewrite Hfresh.
  pose proof (sql_update_In (overdue now) expire_offer
                (ride_offers (db w) ++ [mkOffer offerId rideId driverId pending
                                          (t + OFFER_EXPIRY_MS) None])%list
                (mkOffer offerId rideId driverId pending (t + OFFER_EXPIRY_MS) None)) as Hu.
  cbn beta in Hu. unfold overdue at 1 in Hu. cbn in Hu.
  change OFFER_EXPIRY_MS with 15000%Z in *.
  destruct (t + 15000 <? now)%Z; apply Hu; apply in_app_iff; right; left; reflexivity.
Qed.

Lemma offer_lifetime_witness :
  In (mkOffer "offer-9" "ride-1" "driver-1" expired 15100 None)
     (ride_offers (db (fst (expirePendingOffers 15101
                              (createRideOffer "ride-1" "driver-1" "offer-9" 100
                                 matching_world))))).
Proof.
  apply (offer_lifetime "ride-1" "driver-1" "offer-9" 100 15101 matching_world). reflexivity.
Defined.

End OfferProofs.

(** ** Payments: what a call leaves behind, retry and refund *)
Module PaymentMoreProofs.
Import PaymentService PaymentAdmin Samples SqlFacts TableFacts PaymentProofs.

(** The rows the final update returns are never none: the table written
    before the provider is called holds a row of the trip. *)
Lemma returning_of_trip (tripId : string) (f : Payment -> Payment) (t : list Payment)
    (p : Payment) :
  In p t -> of_trip tripId p = true -> sql_returning (of_trip tripId) f t <> [].
Proof.
  intros Hin Hp Hnil. rewrite sql_returning_nil in Hnil. rewrite (Hnil p Hin) in Hp.
  discriminate.
Qed.

Lemma tail_keys (tripId key : string) (payment : Payment) (ride : Ride) (w : World) :
  let w5 := cachePaymentStatus tripId payment (storeIdempotencyResult key payment w) in
  let w6 := invalidateRideCache (ride_id ride) (ride_driver_id ride)
              (Some (ride_rider_id ride)) w5 in
  let w8 := invalidateRiderCurrentRide (ride_rider_id ride)
              (invalidateDriverCurrentRide (opt_text (ride_driver_id ride)) w6) in
  let w9 := if PaymentStatus_eqb (payment_status payment) pay_completed
            then publishNotification (ride_driver_id ride) "PAYMENT_RECEIVED"
                   (publishNotification (Some (ride_rider_id ride)) "PAYMENT_COMPLETED" w8)
            else w8 in
  cacheGet (CACHE_KEY_PAYMENT tripId) w9 = Some (DocPayment payment)
  /\ kv w9 !! payment_lock_key tripId = kv w !! payment_lock_key tripId
  /\ db w9 = db w.
Proof.
  cbn zeta.
  destruct (PaymentStatus_eqb (payment_status payment) pay_completed),
    (ride_driver_id ride);
    unfold cacheGet, invalidateRiderCurrentRide, invalidateDriverCurrentRide,
      publishNotification, invalidateRideCache, invalidateDriverCache, invalidateCache,
      cachePaymentStatus, cacheSet, storeIdempotencyResult;
    cbn [kv db emit with_kv];
    repeat (rewrite lookup_delete_ne by discriminate);
    rewrite lookup_insert_eq;
    (split; [reflexivity |]); (split; [| reflexivity]);
    rewrite lookup_insert_ne by discriminate;
    rewrite lookup_insert_ne by discriminate; reflexivity.
Qed.

(** What the part of the transaction after the first write does, for any
    table [table] that holds a row of the trip. *)
Lemma payment_settle (tripId method key : string) (o : Oracle) (ride : Ride) (amount : jsval)
    (table : list Payment) (w w' : World) (r : result document) :
  (exists p, In p table /\ of_trip tripId p = true) ->
  (let w1 := with_db (with_payments table (db w)) w in
   match charge method o amount with
   | None => (w1, Err (ConflictError ("Invalid payment method: " ++ method)))
   | Some paymentResult =>
       let w2 := emit (PspCharge method tripId) w1 in
       let finalResult :=
         sql_returning (of_trip tripId) (record_outcome paymentResult (now o))
           (payments (db w2)) in
       let w3 := with_db (with_payments
                   (sql_update (of_trip tripId) (record_outcome paymentResult (now o))
                      (payments (db w2))) (db w2)) w2 in
       match finalResult with
       | [] => (w3, Err (TypeError "Cannot read properties of undefined"))
       | payment :: _ =>
           let w4 := storeIdempotencyResult key payment w3 in
           let w5 := cachePaymentStatus tripId payment w4 in
           let w6 := invalidateRideCache (ride_id ride) (ride_driver_id ride)
                       (Some (ride_rider_id ride)) w5 in
           let w7 := invalidateDriverCurrentRide (opt_text (ride_driver_id ride)) w6 in
           let w8 := invalidateRiderCurrentRide (ride_rider_id ride) w7 in
           let w9 :=
             if PaymentStatus_eqb (payment_status payment) pay_completed
             then publishNotification (ride_driver_id ride) "PAYMENT_RECEIVED"
                    (publishNotification (Some (ride_rider_id ride))
                       "PAYMENT_COMPLETED" w8)
             else w8 in
           (w9, Ok (DocPayment payment))
       end
   end) = (w', r) ->
  match r with
  | Err _ => with_db (db w) w' = w
  | Ok d =>
      exists res p rest,
        charge method o amount = Some res
        /\ sql_returning (of_trip tripId) (record_outcome res (now o)) table = p :: rest
        /\ payments (db w') = sql_update (of_trip tripId) (record_outcome res (now o)) table
        /\ d = DocPayment p
        /\ checkIdempotencyKey key w' = Some d
        /\ cacheGet (CACHE_KEY_PAYMENT tripId) w' = Some d
        /\ kv w' !! payment_lock_key tripId = kv w !! payment_lock_key tripId
        /\ psp_charges w' = (psp_charges w + 1)%nat
  end.
Proof.
  intros (p0 & Hin0 & Hp0). cbn zeta.
  destruct (charge method o amount) as [res |].
  - cbn [db payments emit with_db with_payments].
    destruct (sql_returning (of_trip tripId) (record_outcome res (now o)) table)
      as [| payment rest] eqn:Ef.
    { exfalso. exact (returning_of_trip _ _ _ _ Hin0 Hp0 Ef). }
    intros H.
    match type of H with context [storeIdempotencyResult key payment ?w0] =>
      destruct (stored_result_survives tripId key payment ride w0) as (Hc & es & He & Hf);
      destruct (tail_keys tripId key payment ride w0) as (Hg & Hl & Hd)
    end.
    cbn zeta in Hc, He, Hg, Hl, Hd.
    injection H as <- <-.
    exists res, payment, rest. split; [reflexivity |]. split; [exact Ef |].
    split; [exact (f_equal payments Hd) |]. split; [reflexivity |].
    split; [exact Hc |]. split; [exact Hg |]. split; [exact Hl |].
    match goal with |- psp_charges ?w9 = _ =>
      rewrite (psp_charges_app w (PspCharge method tripId :: es) w9) end.
    + cbn. rewrite Hf. reflexivity.
    + match type of He with _ = ?rhs => transitivity rhs; [exact He |] end.
      cbn [events emit with_db]. rewrite <- app_assoc. reflexivity.
  - intros H. injection H as <- <-. destruct w; reflexivity.
Qed.

(** The ways the transaction of [processPayment] ends. *)
Lemma payment_transaction_run (tripId method key : string) (o : Oracle) (w w' : World)
    (r : result document) :
  payment_transaction tripId method key o w = (w', r) ->
  match r with
  | Err _ => with_db (db w) w' = w
  | Ok d =>
      (exists existing rest,
          sql_select (of_trip tripId) (payments (db w)) = existing :: rest
          /\ payment_status existing = pay_completed
          /\ d = DocPayment existing /\ w' = w)
      \/ (exists table res p rest,
            ((sql_select (of_trip tripId) (payments (db w)) <> []
              /\ table = sql_update (of_trip tripId) (mark_processing key) (payments (db w)))
             \/ (exists amount,
                   sql_select (of_trip tripId) (payments (db w)) = []
                   /\ table = (payments (db w) ++
                               [mkPayment (paymentId o) tripId amount "INR" method
                                  pay_processing None None (Some key) None])%list))
            /\ (exists amount, charge method o amount = Some res)
            /\ sql_returning (of_trip tripId) (record_outcome res (now o)) table = p :: rest
            /\ payments (db w') = sql_update (of_trip tripId) (record_outcome res (now o)) table
            /\ d = DocPayment p
            /\ checkIdempotencyKey key w' = Some d
            /\ cacheGet (CACHE_KEY_PAYMENT tripId) w' = Some d
            /\ kv w' !! payment_lock_key tripId = kv w !! payment_lock_key tripId
            /\ psp_charges w' = (psp_charges w + 1)%nat)
  end.
Proof.
  unfold payment_transaction. intros H.
  assert (Hsame : forall e, (w, @Err document e) = (w', r) ->
            match r with
            | Err _ => with_db (db w) w' = w
            | Ok d => False
            end).
  { intros e [= <- <-]. apply with_db_same. }
  destruct (sql_select (of_trip tripId) (payments (db w))) as [| existing erest] eqn:Ex.
  - destruct (trip_with_ride _ _ _) as [[trip ride] |];
      [| specialize (Hsame _ H); destruct r; [exfalso; exact Hsame | exact Hsame]].
    destruct (trip_status trip);
      try (specialize (Hsame _ H); destruct r; [exfalso; exact Hsame | exact Hsame]).
    destruct (insert_violates _ _ _);
      [specialize (Hsame _ H); destruct r; [exfalso; exact Hsame | exact Hsame] |].
    destruct (is_null _);
      [specialize (Hsame _ H); destruct r; [exfalso; exact Hsame | exact Hsame] |].
    apply payment_settle in H.
    + destruct r as [d | e]; [| exact H]. right.
      destruct H as (res & p & rest & H1 & H2 & H3 & H4 & H5 & H6 & H7 & H8).
      eexists _, res, p, rest. split; [right; eexists; split; reflexivity |].
      split; [eexists; exact H1 |]. repeat split; eassumption.
    + eexists. split; [apply in_app_iff; right; left; reflexivity |].
      unfold of_trip. cbn. apply String.eqb_refl.
  - destruct (PaymentStatus_eqb (payment_status existing) pay_completed) eqn:Ec.
    + injection H as <- <-. left. exists existing, erest.
      repeat split. destruct (payment_status existing); try discriminate. reflexivity.
    + destruct (trip_with_ride _ _ _) as [[trip ride] |];
        [| specialize (Hsame _ H); destruct r; [exfalso; exact Hsame | exact Hsame]].
      destruct (trip_status trip);
        try (specialize (Hsame _ H); destruct r; [exfalso; exact Hsame | exact Hsame]).
      destruct (update_violates_unique _ _ _);
        [specialize (Hsame _ H); destruct r; [exfalso; exact Hsame | exact Hsame] |].
      apply payment_settle in H.
      * destruct r as [d | e]; [| exact H]. right.
        destruct H as (res & p & rest & H1 & H2 & H3 & H4 & H5 & H6 & H7 & H8).
        eexists _, res, p, rest. split; [left; split; [discriminate | reflexivity] |].
        split; [eexists; exact H1 |]. repeat split; assumption.
      * apply select_head_In in Ex as [Hin Hp].
        exists (mark_processing key existing). split; [| exact Hp].
        pose proof (sql_update_In (of_trip tripId) (mark_processing key) _ _ Hin) as Hu.
        cbn beta in Hu. rewrite Hp in Hu. exact Hu.
Qed.

Lemma db_release (lockKey value : string) (w : World) :
  db (release_payment_lock lockKey value w) = db w.
Proof.
  unfold release_payment_lock.
  destruct (kv w !! lockKey) as [[| current] |]; try reflexivity.
  destruct (String.eqb current value); reflexivity.
Qed.

(** With the lock of the trip free and no stored answer, [processPayment] is
    the transaction between taking and releasing the lock. *)
Lemma processPayment_free (tripId method key : string) (o : Oracle) (w : World) :
  checkIdempotencyKey key w = None ->
  kv w !! payment_lock_key tripId = None ->
  processPayment tripId method key o w
  = let '(w2, result) :=
      executeTransaction (payment_transaction tripId method key o)
        (with_kv (<[payment_lock_key tripId := Raw (lockValue o)]> (kv w)) w) in
    (release_payment_lock (payment_lock_key tripId) (lockValue o) w2, result).
Proof. intros C L. unfold processPayment. rewrite C, L. reflexivity. Qed.

Lemma ids_update (p : Payment -> bool) (f : Payment -> Payment) (t : list Payment) :
  (forall x, payment_id (f x) = payment_id x /\ payment_trip_id (f x) = payment_trip_id x) ->
  map (fun x => (payment_id x, payment_trip_id x)) (sql_update p f t)
  = map (fun x => (payment_id x, payment_trip_id x)) t.
Proof.
  intros Hf. unfold sql_update. rewrite map_map. apply map_ext. intros x.
  destruct (p x); [| reflexivity]. destruct (Hf x) as [-> ->]. reflexivity.
Qed.

(** X24.  [processPayment] keeps to one payment row per trip: a call that found
    the lock free leaves the payment rows of all trips in place, with their
    ids, and adds at most one row, for this trip, and only when the trip had
    none. *)
Theorem processPayment_one_row_per_trip (tripId method key : string) (o : Oracle)
    (w w' : World) (r : result document) :
  kv w !! payment_lock_key tripId = None ->
  processPayment tripId method key o w = (w', r) ->
  let ids (x : World) := map (fun p => (payment_id p, payment_trip_id p)) (payments (db x)) in
  ids w' = ids w
  \/ (sql_select (of_trip tripId) (payments (db w)) = []
      /\ ids w' = (ids w ++ [(paymentId o, tripId)])%list).
Proof.
  intros L H. cbn zeta.
  destruct (checkIdempotencyKey key w) as [hit |] eqn:C.
  { rewrite (processPayment_hit _ _ _ _ _ _ C) in H. injection H as <- _. left. reflexivity. }
  rewrite (processPayment_free _ _ _ _ _ C L) in H.
  destruct (executeTransaction _ _) as [w2 r2] eqn:T. injection H as <- <-.
  rewrite db_release.
  destruct r2 as [d | e].
  - apply TripLifeProofs.executeTransaction_ok in T. apply payment_transaction_run in T.
    destruct T as [(existing & rest & _ & _ & _ & ->)
                  | (table & res & p & rest & Htab & _ & _ & Hpay & _)]; [left; reflexivity |].
    rewrite Hpay, ids_update by (intros x; split; reflexivity).
    cbn [db payments with_kv] in Htab.
    destruct Htab as [[_ ->] | (amount & Hnone & ->)].
    + left. apply ids_update. intros x; split; reflexivity.
    + right. split; [exact Hnone |]. rewrite map_app. reflexivity.
  - apply TripLifeProofs.executeTransaction_err in T as (wb & _ & ->). left. reflexivity.
Qed.

Lemma processPayment_one_row_per_trip_witness :
  map payment_id
    (payments (db (fst (processPayment "trip-1" "card" "key-K3" (sample_oracle true)
                          (fst (processPayment "trip-1" "card" "key-K2" (sample_oracle false)
                                  unpaid_world))))))
  = ["payment-1"].
Proof.
  destruct (processPayment "trip-1" "card" "key-K2" (sample_oracle false) unpaid_world)
    as [w1 r1] eqn:E1.
  assert (H1 : map (fun p => (payment_id p, payment_trip_id p)) (payments (db w1))
               = [("payment-1", "trip-1")]
               /\ kv w1 !! payment_lock_key "trip-1" = None)
    by (vm_compute in E1; injection E1 as <- _; split; reflexivity).
  destruct H1 as [Hids L1]. cbn [fst].
  destruct (processPayment "trip-1" "card" "key-K3" (sample_oracle true) w1) as [w2 r2] eqn:E2.
  destruct (processPayment_one_row_per_trip _ _ _ _ _ _ _ L1 E2) as [H | [Hnone H]].
  - cbn [fst]. cbn zeta in H. rewrite Hids in H.
    apply (f_equal (map fst)) in H. rewrite map_map in H. exact H.
  - exfalso. rewrite select_nil in Hnone.
    destruct (payments (db w1)) as [| p ps]; [discriminate |].
    injection Hids as Hid Htrip _. specialize (Hnone p (or_introl eq_refl)).
    unfold of_trip in Hnone. rewrite Htrip in Hnone. discriminate.
Defined.

(** *** retryPayment *)

Lemma set_status_head (id : string) (s : PaymentStatus) (t : list Payment) (p : Payment)
    (rest : list Payment) :
  sql_select (has_id id) t = p :: rest ->
  exists rest', sql_select (has_id id) (sql_update (has_id id) (set_payment_status s) t)
                = set_payment_status s p :: rest'.
Proof.
  intros H.
  destruct (select_update_head (has_id id) (has_id id) (set_payment_status s) t p rest
              (fun x => eq_refl) H) as [rest' Hsel].
  apply select_head_In in H as [_ Hid]. rewrite Hid in Hsel. eauto.
Qed.

Lemma getPaymentById_ok (id : string) (w : World) (p : Payment) :
  getPaymentById id w = Ok p ->
  exists rest, sql_select (has_id id) (payments (db w)) = p :: rest.
Proof.
  unfold getPaymentById. destruct (sql_select _ _) as [| q rest]; [discriminate |].
  intros [= ->]. eauto.
Qed.

(** X26.  Only a failed payment can be retried.  And a retry that reuses an
    idempotency key under which an answer is stored, such as the key of the
    attempt that failed, is answered with that stored document: the provider
    is not invoked, yet the payment row has been put to pending, so that a
    retry of the payment made on the state this one left is refused. *)
Theorem retryPayment_with_used_key (paymentId key : string) (o : Oracle) (w : World)
    (p : Payment) :
  getPaymentById paymentId w = Ok p ->
  (payment_status p <> pay_failed ->
   retryPayment paymentId key o w
   = (w, Err (ConflictError "Only failed payments can be retried")))
  /\ (forall d,
        payment_status p = pay_failed ->
        checkIdempotencyKey key w = Some d ->
        exists w',
          retryPayment paymentId key o w = (w', Ok d)
          /\ (forall row, In row (payments (db w')) -> payment_id row = paymentId ->
                payment_status row = pay_pending)
          /\ psp_charges w' = psp_charges w /\ kv w' = kv w
          /\ (forall key' o',
                retryPayment paymentId key' o' w'
                = (w', Err (ConflictError "Only failed payments can be retried")))).
Proof.
  intros Hget. split.
  - intros Hst. unfold retryPayment. rewrite Hget.
    destruct (payment_status p); try reflexivity. contradiction.
  - intros d Hst C. unfold retryPayment at 1. rewrite Hget, Hst. cbn [PaymentStatus_eqb negb].
    match goal with |- context [processPayment _ _ _ _ ?w0] => set (w1 := w0) end.
    assert (C1 : checkIdempotencyKey key w1 = Some d) by exact C.
    rewrite (processPayment_hit _ _ _ _ _ _ C1).
    exists w1. split; [reflexivity |]. split; [| split; [reflexivity | split; [reflexivity |]]].
    + intros row Hrow Hid. subst w1. cbn [db payments with_db with_payments] in Hrow.
      apply sql_update_inv in Hrow as (x & _ & ->).
      destruct (has_id paymentId x) eqn:E; [reflexivity |].
      unfold has_id in E. apply String.eqb_neq in E. contradiction.
    + intros key' o'. apply getPaymentById_ok in Hget as [rest Hsel].
      destruct (set_status_head paymentId pay_pending _ _ _ Hsel) as [rest' Hsel'].
      unfold retryPayment, getPaymentById. subst w1.
      cbn [db payments with_db with_payments]. rewrite Hsel'. reflexivity.
Qed.

Lemma retryPayment_with_used_key_witness :
  exists w1 w2 p,
    processPayment "trip-1" "card" "key-K2" (sample_oracle false) unpaid_world
    = (w1, Ok (DocPayment p))
    /\ payment_status p = pay_failed
    /\ retryPayment "payment-1" "key-K2" (sample_oracle true) w1 = (w2, Ok (DocPayment p))
    /\ psp_charges w2 = 1%nat
    /\ retryPayment "payment-1" "key-K3" (sample_oracle true) w2
       = (w2, Err (ConflictError "Only failed payments can be retried")).
Proof.
  destruct (processPayment "trip-1" "card" "key-K2" (sample_oracle false) unpaid_world)
    as [w1 r] eqn:E.
  assert (Hr : exists p, r = Ok (DocPayment p) /\ payment_status p = pay_failed
                         /\ getPaymentById "payment-1" w1 = Ok p
                         /\ checkIdempotencyKey "key-K2" w1 = Some (DocPayment p)
                         /\ psp_charges w1 = 1%nat)
    by (vm_compute in E; injection E as <- <-; eexists; repeat split).
  destruct Hr as (p & -> & Hst & Hget & C & Hn).
  destruct (proj2 (retryPayment_with_used_key "payment-1" "key-K2" (sample_oracle true) w1 p
                     Hget) _ Hst C) as (w2 & Hretry & _ & Hn2 & _ & Hstuck).
  exists w1, w2, p. repeat split; try assumption; [congruence | apply Hstuck].
Defined.

(** *** initiateRefund *)

Lemma append_cancel_l (pre a b : string) : pre ++ a = pre ++ b -> a = b.
Proof. induction pre as [| c pre IH]; cbn; [auto | intros [= H]; auto]. Qed.

(** X27.  A successful [initiateRefund] found the payment completed and not paid
    in cash; it leaves every row of the payment refunded and drops the cached
    payment of the trip; refunding once more is refused and changes nothing.
    The answer stored under an idempotency key is not dropped: [processPayment]
    called again with such a key still returns the stored document. *)
Theorem initiateRefund_effects (paymentId : string) (w w' : World) (refunded : Payment) :
  initiateRefund paymentId w = (w', Ok refunded) ->
  exists p,
    getPaymentById paymentId w = Ok p
    /\ payment_status p = pay_completed /\ payment_method p <> "cash"
    /\ refunded = set_payment_status pay_refunded p
    /\ (forall row, In row (payments (db w')) -> payment_id row = paymentId ->
          payment_status row = pay_refunded)
    /\ cacheGet (CACHE_KEY_PAYMENT (payment_trip_id p)) w' = None
    /\ initiateRefund paymentId w'
       = (w', Err (ConflictError "Only completed payments can be refunded"))
    /\ (forall key d tripId method o,
          checkIdempotencyKey key w = Some d ->
          payment_trip_id p <> "idempotency:" ++ key ->
          processPayment tripId method key o w' = (w', Ok d)).
Proof.
  unfold initiateRefund. intros H.
  destruct (getPaymentById paymentId w) as [p | e] eqn:Hget; [| discriminate].
  destruct (PaymentStatus_eqb (payment_status p) pay_completed) eqn:Est;
    cbn [negb] in H; [| discriminate].
  destruct (String.eqb (payment_method p) "cash") eqn:Ecash; [discriminate |].
  apply getPaymentById_ok in Hget as [rest Hsel].
  rewrite (returning_head _ (set_payment_status pay_refunded) _ _ _ Hsel) in H.
  injection H as <- <-.
  destruct (set_status_head paymentId pay_refunded _ _ _ Hsel) as [rest' Hsel'].
  exists p. split; [reflexivity |].
  split; [destruct (payment_status p); try discriminate; reflexivity |].
  split; [apply String.eqb_neq; exact Ecash |]. split; [reflexivity |].
  cbn [db payments with_db with_payments invalidateCache with_kv kv].
  split; [| split; [| split]].
  - intros row Hrow Hid. apply sql_update_inv in Hrow as (x & _ & ->).
    destruct (has_id paymentId x) eqn:E; [reflexivity |].
    unfold has_id in E. apply String.eqb_neq in E. contradiction.
  - unfold cacheGet, invalidateCache. cbn [kv with_kv with_db].
    rewrite lookup_delete_eq. reflexivity.
  - unfold getPaymentById, invalidateCache.
    cbn [db payments with_db with_payments with_kv]. rewrite Hsel'. reflexivity.
  - intros key d tripId method o C Hne. apply processPayment_hit.
    unfold checkIdempotencyKey, invalidateCache in *. cbn [kv with_kv with_db].
    rewrite lookup_delete_ne; [exact C |].
    intros Heq. apply Hne. apply (append_cancel_l "payment:"). exact Heq.
Qed.

Lemma initiateRefund_effects_witness :
  exists w1 w2 p,
    processPayment "trip-1" "card" "key-K2" (sample_oracle true) unpaid_world
    = (w1, Ok (DocPayment p))
    /\ payment_status p = pay_completed
    /\ fst (initiateRefund "payment-1" w1) = w2
    /\ map payment_status (payments (db w2)) = [pay_refunded]
    /\ processPayment "trip-1" "card" "key-K2" (sample_oracle true) w2
       = (w2, Ok (DocPayment p)).
Proof.
  destruct (processPayment "trip-1" "card" "key-K2" (sample_oracle true) unpaid_world)
    as [w1 r] eqn:E.
  assert (Hr : exists p, r = Ok (DocPayment p) /\ payment_status p = pay_completed
                         /\ checkIdempotencyKey "key-K2" w1 = Some (DocPayment p)
                         /\ (exists q, snd (initiateRefund "payment-1" w1) = Ok q)
                         /\ map payment_status
                              (payments (db (fst (initiateRefund "payment-1" w1))))
                            = [pay_refunded]
                         /\ map payment_trip_id (payments (db w1)) = ["trip-1"]
                         /\ map payment_id (payments (db w1)) = ["payment-1"])
    by (vm_compute in E; injection E as <- <-; eexists; repeat split; eexists; reflexivity).
  destruct Hr as (p & -> & Hst & C & (q & Hq) & Hmap & Htrips & Hids).
  destruct (initiateRefund "payment-1" w1) as [w2 r2] eqn:E2. cbn [fst snd] in *. subst r2.
  destruct (initiateRefund_effects _ _ _ _ E2) as (p0 & Hget & _ & _ & _ & _ & _ & _ & Hstale).
  exists w1, w2, p. split; [reflexivity |]. split; [exact Hst |].
  split; [rewrite E2; reflexivity |]. split; [exact Hmap |].
  apply Hstale; [exact C |].
  unfold getPaymentById in Hget.
  destruct (payments (db w1)) as [| x [| y ys]]; try discriminate.
  injection Htrips as Htrip. injection Hids as Hid.
  cbn in Hget. unfold has_id in Hget. rewrite Hid in Hget. cbn in Hget.
  injection Hget as <-. rewrite Htrip. discriminate.
Defined.

End PaymentMoreProofs.

(** ** Payment with the retries of its transaction *)
Module RetryProofs.
Import PaymentService PaymentAdmin Samples SqlFacts TableFacts PaymentProofs PaymentMoreProofs.

(** A callback that throws ends the loop at once, rolled back. *)
Lemma attempts_refused {A} (remaining attempt conflicts : nat) (delay : Z)
    (callback : nat -> World -> World * result A) (w w1 : World) (e : Error) :
  callback attempt w = (w1, Err e) ->
  attempts (S remaining) attempt conflicts delay callback w = (with_db (db w) w1, Err e).
Proof. intros H. cbn [attempts]. rewrite H. reflexivity. Qed.

(** With no conflict the loop is its first attempt. *)
Lemma attempts_first {A} (remaining attempt : nat) (delay : Z)
    (callback : nat -> World -> World * result A) (w : World) :
  attempts (S remaining) attempt 0 delay callback w = executeTransaction (callback attempt) w.
Proof.
  cbn [attempts]. unfold executeTransaction.
  destruct (callback attempt w) as [w1 [a | e]]; reflexivity.
Qed.





(** With no conflict, [processPaymentRetrying] is [processPayment]. *)
Lemma processPaymentRetrying_first (tripId method key : string) (o : nat -> Oracle)
    (w : World) :
  processPaymentRetrying tripId method key 0 o w = processPayment tripId method key (o 1%nat) w.
Proof.
  unfold processPaymentRetrying, processPayment, executeTransactionRetrying.
  destruct (checkIdempotencyKey key w); [reflexivity |].
  destruct (kv w !! payment_lock_key tripId); [reflexivity |].
  rewrite attempts_first. reflexivity.
Qed.




Lemma processPaymentRetrying_free (tripId method key : string) (conflicts : nat)
    (o : nat -> Oracle) (w : World) :
  checkIdempotencyKey key w = None ->
  kv w !! payment_lock_key tripId = None ->
  processPaymentRetrying tripId method key conflicts o w
  = let '(w2, result) :=
      executeTransactionRetrying conflicts
        (fun attempt => payment_transaction tripId method key (o attempt))
        (with_kv (<[payment_lock_key tripId := Raw (lockValue (o 1%nat))]> (kv w)) w) in
    (release_payment_lock (payment_lock_key tripId) (lockValue (o 1%nat)) w2, result).
Proof. intros C L. unfold processPaymentRetrying. rewrite C, L. reflexivity. Qed.

(** A transaction that its first attempt refuses leaves the call as it
    found the world. *)
Lemma processPaymentRetrying_refused (tripId method key : string) (conflicts : nat)
    (o : nat -> Oracle) (w : World) (e : Error) :
  checkIdempotencyKey key w = None ->
  kv w !! payment_lock_key tripId = None ->
  (forall w0, db w0 = db w ->
     exists w1, payment_transaction tripId method key (o 1%nat) w0 = (w1, Err e)) ->
  processPaymentRetrying tripId method key conflicts o w = (w, Err e).
Proof.
  intros C L Hbody. rewrite (processPaymentRetrying_free _ _ _ _ _ _ C L).
  unfold executeTransactionRetrying.
  match goal with |- context [attempts _ _ _ _ _ ?w0] =>
    destruct (Hbody w0 eq_refl) as [w1 T]; rewrite (attempts_refused _ _ _ _ _ _ _ _ T);
    apply payment_transaction_run in T; rewrite T
  end.
  rewrite (lock_release_roundtrip _ _ _ L). reflexivity.
Qed.

(** X23.  A [processPayment] that found no stored answer, the lock of the trip
    free and the trip unpaid, and whose transaction is refused by a guard,
    leaves the store, Redis and the bus exactly as they were: for a trip
    that is not found, for a trip that is not completed, and for a payment
    method that is not known, where the payment row written before the
    method is examined is rolled back.  The provider is not invoked and the
    lock is free again. *)
Theorem processPayment_refusal_changes_nothing (tripId method key : string) (conflicts : nat)
    (o : nat -> Oracle) (w : World) :
  checkIdempotencyKey key w = None ->
  kv w !! payment_lock_key tripId = None ->
  already_paid tripId (db w) = false ->
  match trip_with_ride tripId (trips (db w)) (rides (db w)) with
  | None =>
      processPaymentRetrying tripId method key conflicts o w = (w, Err (NotFoundError "Trip"))
  | Some (trip, ride) =>
      match trip_status trip with
      | TRIP_COMPLETED =>
          charge method (o 1%nat) (trip_total_fare trip) = None ->
          exists e,
            processPaymentRetrying tripId method key conflicts o w = (w, Err e)
            /\ (e = ConflictError ("Invalid payment method: " ++ method)
                \/ e = DatabaseError "23505" \/ e = DatabaseError "23502")
      | _ =>
          processPaymentRetrying tripId method key conflicts o w
          = (w, Err (ConflictError "Trip must be completed before payment"))
      end
  end.
Proof.
  intros C L Hpaid.
  assert (Hnone : forall w0, db w0 = db w ->
            match sql_select (of_trip tripId) (payments (db w0)) with
            | existing :: _ =>
                if PaymentStatus_eqb (payment_status existing) pay_completed
                then Some existing else None
            | [] => None
            end = None).
  { intros w0 ->. unfold already_paid in Hpaid.
    destruct (sql_select _ _) as [| existing ?]; [reflexivity |]. rewrite Hpaid. reflexivity. }
  destruct (trip_with_ride tripId (trips (db w)) (rides (db w))) as [[trip ride] |] eqn:Et.
  - destruct (trip_status trip) eqn:Es;
      try (apply (processPaymentRetrying_refused _ _ _ _ _ _ _ C L);
           intros w0 Hw0; unfold payment_transaction;
           rewrite (Hnone w0 Hw0), Hw0, Et, Es; eauto).
    intros Hch.
    assert (Hbody : exists e,
              (e = ConflictError ("Invalid payment method: " ++ method)
               \/ e = DatabaseError "23505" \/ e = DatabaseError "23502")
              /\ forall w0, db w0 = db w ->
                   exists w1, payment_transaction tripId method key (o 1%nat) w0
                              = (w1, Err e)).
    { destruct (sql_select (of_trip tripId) (payments (db w))) as [| existing erest] eqn:Ex.
      - destruct (insert_violates (paymentId (o 1%nat)) key (payments (db w))) eqn:Ei.
        + exists (DatabaseError "23505"). split; [auto |]. intros w0 Hw0.
          unfold payment_transaction. rewrite (Hnone w0 Hw0), Hw0, Et, Es, Ex, Ei. eauto.
        + destruct (is_null (trip_total_fare trip)) eqn:En.
          * exists (DatabaseError "23502"). split; [auto |]. intros w0 Hw0.
            unfold payment_transaction. rewrite (Hnone w0 Hw0), Hw0, Et, Es, Ex, Ei, En. eauto.
          * exists (ConflictError ("Invalid payment method: " ++ method)). split; [auto |].
            intros w0 Hw0.
            unfold payment_transaction.
            rewrite (Hnone w0 Hw0), Hw0, Et, Es, Ex, Ei, En, Hch. eauto.
      - destruct (update_violates_unique tripId key (payments (db w))) eqn:Eu.
        + exists (DatabaseError "23505"). split; [auto |]. intros w0 Hw0.
          unfold payment_transaction. rewrite (Hnone w0 Hw0), Hw0, Et, Es, Ex, Eu. eauto.
        + exists (ConflictError ("Invalid payment method: " ++ method)). split; [auto |].
          intros w0 Hw0.
          unfold payment_transaction. rewrite (Hnone w0 Hw0), Hw0, Et, Es, Ex, Eu, Hch. eauto. }
    destruct Hbody as (e & He & Hbody). exists e. split; [| exact He].
    exact (processPaymentRetrying_refused _ _ _ _ _ _ _ C L Hbody).
  - apply (processPaymentRetrying_refused _ _ _ _ _ _ _ C L).
    intros w0 Hw0. unfold payment_transaction. rewrite (Hnone w0 Hw0), Hw0, Et. eauto.
Qed.

Lemma processPayment_refusal_changes_nothing_witness :
  processPaymentRetrying "trip-1" "cheque" "key-K9" 2 (steady (sample_oracle true)) unpaid_world
  = (unpaid_world, Err (ConflictError "Invalid payment method: cheque"))
  /\ processPaymentRetrying "trip-7" "card" "key-K9" 0 (steady (sample_oracle true)) unpaid_world
     = (unpaid_world, Err (NotFoundError "Trip")).
Proof.
  split.
  - destruct (processPayment_refusal_changes_nothing "trip-1" "cheque" "key-K9" 2
                (steady (sample_oracle true)) unpaid_world eq_refl eq_refl eq_refl eq_refl)
      as (e & H & He).
    rewrite H. f_equal. f_equal.
    assert (E : snd (processPaymentRetrying "trip-1" "cheque" "key-K9" 2
                       (steady (sample_oracle true)) unpaid_world)
                = Err (ConflictError "Invalid payment method: cheque"))
      by (vm_compute; reflexivity).
    rewrite H in E. injection E as ->. reflexivity.
  - exact (processPayment_refusal_changes_nothing "trip-7" "card" "key-K9" 0
             (steady (sample_oracle true)) unpaid_world eq_refl eq_refl eq_refl).
Defined.







End RetryProofs.

(** ** Driver status and the geo index *)
Module DriverProofs.
Import RideService DriverService Samples SqlFacts TableFacts.

Lemma with_drivers_same (d : Db) : with_drivers (drivers d) d = d.
Proof. destruct d; reflexivity. Qed.

(** X28.  [updateDriverStatus] keeps the geo index in step with the status.  A
    refused call (unknown status text or unknown driver) changes nothing.  A
    successful one sets the status on every row of the driver; going offline
    or busy takes the driver out of the geo index of their vehicle type;
    going online lists them at their latest recorded position, and leaves
    the index alone when no position is on record.  The cached driver
    documents are dropped; rides are not touched. *)
Theorem updateDriverStatus_geo (driverId status : string) (w w' : World) :
  (forall e, updateDriverStatus driverId status w = (w', Err e) -> w' = w)
  /\ (forall d,
        updateDriverStatus driverId status w = (w', Ok d) ->
        exists s,
          parse_driver_status status = Some s
          /\ driver_id d = driverId /\ driver_status d = s
          /\ (forall row, In row (drivers (db w')) -> driver_id row = driverId ->
                driver_status row = s)
          /\ match s, latest_location driverId (driver_locations (db w)) with
             | online, Some loc =>
                 geo w' !! (geo_key (driver_vehicle_type d), driverId)
                 = Some (loc_longitude loc, loc_latitude loc)
             | online, None => geo w' = geo w
             | _, _ => geo w' !! (geo_key (driver_vehicle_type d), driverId) = None
             end
          /\ cacheGet (CACHE_KEY_DRIVER driverId) w' = None
          /\ cacheGet (CACHE_KEY_DRIVER_CURRENT_RIDE driverId) w' = None
          /\ rides (db w') = rides (db w)).
Proof.
  unfold updateDriverStatus. split.
  - intros e H. destruct (parse_driver_status status) as [s |];
      [| injection H as <- _; reflexivity].
    destruct (sql_returning _ _ (drivers (db w))) as [| d ds] eqn:Er; [| discriminate].
    injection H as <- _.
    rewrite (sql_update_none _ _ _ Er), with_drivers_same. apply with_db_same.
  - intros d H. destruct (parse_driver_status status) as [s |]; [| discriminate].
    destruct (sql_returning _ _ (drivers (db w))) as [| d0 ds] eqn:Er; [discriminate |].
    injection H as <- <-. exists s. split; [reflexivity |].
    assert (Hd0 : In d0 (sql_returning (fun d => String.eqb (driver_id d) driverId)
                           (set_driver_status s) (drivers (db w))))
      by (rewrite Er; left; reflexivity).
    unfold sql_returning in Hd0. apply in_map_iff in Hd0 as (x & <- & Hx).
    apply filter_In in Hx as [_ Hid]. apply String.eqb_eq in Hid.
    split; [exact Hid |]. split; [reflexivity |].
    assert (Hgone : forall (m : gmap string cache_value) (k : string),
              m !! k = None ->
              match m !! k with Some (Json d) => Some d | _ => None end = None)
      by (intros m k ->; reflexivity).
    split; [| split; [| split; [| split]]].
    + intros row Hrow Hrid.
      assert (Hrows : In row (sql_update (fun d => String.eqb (driver_id d) driverId)
                                (set_driver_status s) (drivers (db w))))
        by (destruct s; [| destruct (latest_location _ _) |]; exact Hrow).
      apply sql_update_inv in Hrows as (y & _ & ->).
      destruct (String.eqb (driver_id y) driverId) eqn:E; [reflexivity |].
      apply String.eqb_neq in E. contradiction.
    + destruct s; cbn [db driver_locations with_db with_drivers].
      * apply lookup_delete_eq.
      * destruct (latest_location driverId (driver_locations (db w))) as [loc |];
          [apply lookup_insert_eq | reflexivity].
      * apply lookup_delete_eq.
    + unfold cacheGet, invalidateDriverCache, invalidateCache. cbn [kv with_kv].
      apply Hgone. repeat first [apply lookup_delete_eq | apply lookup_delete_None; right].
    + unfold cacheGet, invalidateDriverCache, invalidateCache. cbn [kv with_kv].
      apply Hgone. repeat first [apply lookup_delete_eq | apply lookup_delete_None; right].
    + destruct s; [| destruct (latest_location _ _) |]; reflexivity.
Qed.

Lemma updateDriverStatus_geo_witness :
  geo (fst (updateDriverStatus "driver-1" "online"
              (fst (cancelRide "ride-1" None 100 en_route_world))))
    !! (geo_key "economy", "driver-1")
  = Some (775946 # 10000, 129716 # 10000)%Q.
Proof.
  destruct (cancelRide "ride-1" None 100 en_route_world) as [w1 r1] eqn:E1. cbn [fst].
  assert (H1 : latest_location "driver-1" (driver_locations (db w1)) = Some sample_location)
    by (vm_compute in E1; injection E1 as <- _; reflexivity).
  destruct (updateDriverStatus "driver-1" "online" w1) as [w2 r2] eqn:E2.
  assert (H2 : exists d, r2 = Ok d /\ driver_vehicle_type d = "economy")
    by (vm_compute in E1; injection E1 as <- _; vm_compute in E2; injection E2 as _ <-;
        eexists; split; reflexivity).
  destruct H2 as (d & -> & Hvt).
  destruct (proj2 (updateDriverStatus_geo "driver-1" "online" w1 w2) d E2)
    as (s & Hs & _ & _ & _ & Hgeo & _).
  injection Hs as <-. rewrite H1, Hvt in Hgeo. exact Hgeo.
Defined.

End DriverProofs.

(** ** Rate limiter *)
Module RateLimiterProofs.
Import RateLimiter.


Lemma trim_nonneg (hi : Z) (s : zset) :
  Forall (fun e => (0 <= snd e)%Z) s ->
  zremrangebyscore hi s = List.filter (fun e => (hi <? snd e)%Z) s.
Proof.
  unfold zremrangebyscore. induction 1 as [| e s He _ IH]; cbn; [reflexivity |].
  rewrite IH.
  replace (negb ((0 <=? snd e)%Z && (snd e <=? hi)%Z)) with (hi <? snd e)%Z;
    [reflexivity |].
  destruct (Z.leb_spec 0 (snd e)); [| lia]. cbn.
  destruct (Z.leb_spec (snd e) hi), (Z.ltb_spec hi (snd e)); cbn; try reflexivity; lia.
Qed.

Lemma filter_filter_window (lo lo' : Z) (s : zset) :
  (lo <= lo')%Z ->
  List.filter (fun e => (lo' <? snd e)%Z) (List.filter (fun e => (lo <? snd e)%Z) s)
  = List.filter (fun e => (lo' <? snd e)%Z) s.
Proof.
  intros H. induction s as [| e s IH]; cbn; [reflexivity |].
  destruct (Z.ltb_spec lo (snd e)); cbn.
  - rewrite IH. reflexivity.
  - destruct (Z.ltb_spec lo' (snd e)); [lia | exact IH].
Qed.

Lemma sorted_snoc (l : list Z) (x : Z) :
  Sorted Z.le (l ++ [x]) -> Sorted Z.le l /\ Forall (fun y => (y <= x)%Z) l.
Proof.
  intros Hsorted. apply Sorted_StronglySorted in Hsorted; [| intros a b c; lia].
  induction l as [| a l IHl]; cbn in *.
  - split; constructor.
  - inversion Hsorted as [| ? ? Hs Hall]; subst.
    destruct (IHl Hs) as [H1 H2]. split.
    + constructor; [exact H1 |]. destruct l; constructor.
      apply Forall_inv in Hall. exact Hall.
    + constructor; [| exact H2].
      apply Forall_app in Hall as [_ Hall]. apply Forall_inv in Hall. exact Hall.
Qed.

Lemma serve_snoc (windowMs max : Z) (pre : list (Z * string)) (r : Z * string) :
  serve windowMs max (pre ++ [r]) = serve_one windowMs max (serve windowMs max pre) r.
Proof. unfold serve. rewrite fold_left_app. reflexivity. Qed.

(** The set after serving [pre]: trimmed for any later time, it holds
    exactly the requests of [pre] inside the window, let through or not. *)
Lemma serve_set (windowMs max : Z) (pre : list (Z * string)) :
  (0 < windowMs)%Z ->
  Forall (fun r => (0 <= fst r)%Z) pre ->
  Sorted Z.le (map fst pre) ->
  List.NoDup (map snd pre) ->
  Forall (fun e => (0 <= snd e)%Z) (fst (serve windowMs max pre))
  /\ (forall m, In m (map fst (fst (serve windowMs max pre))) -> In m (map snd pre))
  /\ forall t, Forall (fun r => (fst r <= t)%Z) pre ->
       zremrangebyscore (t - windowMs) (fst (serve windowMs max pre))
       = List.filter (fun e => (t - windowMs <? snd e)%Z) (map as_entry pre).
Proof.
  intros HW. induction pre as [| r pre IH] using rev_ind; intros Hpos Hsorted Hnodup.
  - cbn. split; [constructor | split; [intros m [] | intros t _; reflexivity]].
  - apply Forall_app in Hpos as [Hpos Hr]. apply Forall_inv in Hr.
    rewrite map_app in Hsorted, Hnodup. cbn [map] in Hsorted, Hnodup.
    destruct (sorted_snoc _ _ Hsorted) as [Hsorted' Hle].
    assert (Hnodup' : List.NoDup (map snd pre) /\ ~ In (snd r) (map snd pre)).
    { apply NoDup_remove in Hnodup. rewrite app_nil_r in Hnodup. exact Hnodup. }
    destruct Hnodup' as [Hnodup' Hfresh].
    destruct (IH Hpos Hsorted' Hnodup') as (IHpos & IHmem & IHset).
    assert (Hle' : Forall (fun x : Z * string => (fst x <= fst r)%Z) pre).
    { apply List.Forall_forall. intros x Hx. rewrite List.Forall_forall in Hle. apply Hle.
      apply in_map. exact Hx. }
    rewrite serve_snoc. unfold serve_one, rateLimiter.
    set (s := fst (serve windowMs max pre)) in *.
    set (trimmed := zremrangebyscore (fst r - windowMs) s).
    assert (Htrim : trimmed = List.filter (fun e => (fst r - windowMs <? snd e)%Z)
                                (map as_entry pre)) by (apply IHset; exact Hle').
    assert (Hadd : zadd (fst r) (snd r) trimmed = (trimmed ++ [as_entry r])%list).
    { unfold zadd. destruct (existsb _ trimmed) eqn:E; [| reflexivity].
      exfalso. apply Hfresh. apply existsb_exists in E as (e & He & Hm).
      apply String.eqb_eq in Hm.
      rewrite Htrim in He. apply filter_In in He as [He _].
      apply in_map_iff in He as (x & <- & Hx). cbn in Hm. rewrite <- Hm.
      apply in_map. exact Hx. }
    match goal with |- context [let '(s', d) := ?x in _] =>
      assert (Hs' : fst (let '(s', d) := x in (s', (snd (serve windowMs max pre)
                                                   ++ [(fst r, allowed d)])%list))
                    = (trimmed ++ [as_entry r])%list)
        by (destruct (max <=? zcard trimmed)%Z; exact Hadd)
    end.
    rewrite Hs'. clear Hs'.
    assert (Hpos' : Forall (fun e => (0 <= snd e)%Z) (trimmed ++ [as_entry r])).
    { apply Forall_app. split.
      - unfold trimmed, zremrangebyscore. apply List.Forall_forall. intros e He.
        apply filter_In in He as [He _]. rewrite List.Forall_forall in IHpos. apply IHpos. exact He.
      - constructor; [exact Hr | constructor]. }
    split; [exact Hpos' |]. split.
    + intros m Hm. rewrite map_app in Hm. apply in_app_iff in Hm as [Hm | [<- | []]].
      * rewrite map_app. apply in_app_iff. left. apply IHmem.
        apply in_map_iff in Hm as (e & <- & He). apply in_map.
        unfold trimmed, zremrangebyscore in He. apply filter_In in He as [He _]. exact He.
      * rewrite map_app. apply in_app_iff. right. left. reflexivity.
    + intros t Ht. apply Forall_app in Ht as [_ Ht]. apply Forall_inv in Ht.
      rewrite (trim_nonneg _ _ Hpos'), map_app, !List.filter_app, Htrim.
      rewrite filter_filter_window by lia. reflexivity.
Qed.

Lemma serve_log (windowMs max : Z) (pre : list (Z * string)) (r : Z * string) :
  snd (serve windowMs max (pre ++ [r]))
  = (snd (serve windowMs max pre)
     ++ [(fst r, negb (max <=? zcard (zremrangebyscore (fst r - windowMs)
                                        (fst (serve windowMs max pre))))%Z)])%list.
Proof.
  rewrite serve_snoc. unfold serve_one, rateLimiter.
  destruct (max <=? _)%Z; reflexivity.
Qed.

Lemma serve_times (windowMs max : Z) (reqs : list (Z * string)) :
  map fst (snd (serve windowMs max reqs)) = map fst reqs.
Proof.
  induction reqs as [| r pre IH] using rev_ind; [reflexivity |].
  rewrite serve_log, !map_app, IH. reflexivity.
Qed.

Lemma filter_length_times (p : Z -> bool) (q : Z * bool -> bool) (log : list (Z * bool))
    (pre : list (Z * string)) :
  map fst log = map fst pre ->
  (forall e, q e = true -> p (fst e) = true) ->
  (length (List.filter q log)
   <= length (List.filter (fun e => p (snd e)) (map as_entry pre)))%nat.
Proof.
  intros Hmap Hq. revert pre Hmap.
  induction log as [| e log IH]; intros [| r pre] Hmap; try discriminate; cbn; [lia |].
  injection Hmap as He Hmap. specialize (IH pre Hmap).
  destruct (q e) eqn:Eq.
  - rewrite <- He, (Hq e Eq). cbn. lia.
  - destruct (p (fst r)); cbn; lia.
Qed.

Lemma filter_as_entry (p : Z -> bool) (l : list (Z * string)) :
  length (List.filter (fun e => p (snd e)) (map as_entry l))
  = length (List.filter (fun q => p (fst q)) l).
Proof.
  induction l as [| q l IH]; cbn; [reflexivity |].
  destruct (p (fst q)); cbn; rewrite IH; reflexivity.
Qed.

(** X29.  Requests that were turned away count as well: when one caller's requests
    arrive in order of time, from an empty set, each under a member text of
    its own, a request is let through exactly when fewer than [max] of the
    earlier requests, let through or not, lie less than [windowMs]
    milliseconds back. *)
Theorem serve_counts_every_request (windowMs max : Z) (pre : list (Z * string))
    (r : Z * string) :
  (0 < windowMs)%Z ->
  Forall (fun q => (0 <= fst q)%Z) (pre ++ [r]) ->
  Sorted Z.le (map fst (pre ++ [r])) ->
  List.NoDup (map snd (pre ++ [r])) ->
  snd (serve windowMs max (pre ++ [r]))
  = (snd (serve windowMs max pre)
     ++ [(fst r,
          (Z.of_nat (length (List.filter (fun q => (fst r - windowMs <? fst q)%Z) pre))
           <? max)%Z)])%list.
Proof.
  intros HW Hpos Hsorted Hnodup.
  apply Forall_app in Hpos as [Hpos _].
  rewrite map_app in Hsorted, Hnodup. cbn [map] in Hsorted, Hnodup.
  destruct (sorted_snoc _ _ Hsorted) as [Hsorted' Hle].
  assert (Hnodup' : List.NoDup (map snd pre))
    by (apply NoDup_remove in Hnodup; rewrite app_nil_r in Hnodup; apply Hnodup).
  assert (Hle' : Forall (fun x : Z * string => (fst x <= fst r)%Z) pre).
  { apply List.Forall_forall. intros x Hx. rewrite List.Forall_forall in Hle. apply Hle.
    apply in_map. exact Hx. }
  destruct (serve_set windowMs max pre HW Hpos Hsorted' Hnodup') as (_ & _ & Hset).
  rewrite serve_log, (Hset (fst r) Hle'). unfold zcard.
  rewrite (filter_as_entry (fun t => (fst r - windowMs <? t)%Z)).
  do 3 f_equal.
  destruct (Z.leb_spec max (Z.of_nat (length (List.filter
                                                (fun q => (fst r - windowMs <? fst q)%Z) pre))));
    destruct (Z.ltb_spec (Z.of_nat (length (List.filter
                                              (fun q => (fst r - windowMs <? fst q)%Z) pre))) max);
    cbn; try reflexivity; lia.
Qed.

Lemma serve_counts_every_request_witness :
  map snd (snd (serve 1000 2 [(1000%Z, "a"); (1200%Z, "b"); (1400%Z, "c"); (2150%Z, "d")]))
  = (map snd (snd (serve 1000 2 [(1000%Z, "a"); (1200%Z, "b"); (1400%Z, "c")])) ++ [false])%list.
Proof.
  change [(1000%Z, "a"); (1200%Z, "b"); (1400%Z, "c"); (2150%Z, "d")]
    with ([(1000%Z, "a"); (1200%Z, "b"); (1400%Z, "c")] ++ [(2150%Z, "d")])%list.
  rewrite (serve_counts_every_request 1000 2
             [(1000%Z, "a"); (1200%Z, "b"); (1400%Z, "c")] (2150%Z, "d")).
  - rewrite map_app. reflexivity.
  - lia.
  - repeat constructor; cbn; lia.
  - repeat constructor; cbn; lia.
  - repeat constructor; cbn; intuition discriminate.
Defined.

(** X30.  The sliding window holds over a whole run: when one caller's requests
    arrive in order of time, from an empty set, each under a member text of
    its own, then in no window of [windowMs] milliseconds are more than
    [max] of them let through. *)
Theorem rateLimiter_window_budget (windowMs max : Z) (reqs : list (Z * string)) (T : Z) :
  (0 < windowMs)%Z ->
  Forall (fun r => (0 <= fst r)%Z) reqs ->
  Sorted Z.le (map fst reqs) ->
  List.NoDup (map snd reqs) ->
  (Z.of_nat (length (let_through windowMs T (snd (serve windowMs max reqs)))) <= Z.max 0 max)%Z.
Proof.
  intros HW. induction reqs as [| r pre IH] using rev_ind; intros Hpos Hsorted Hnodup.
  - cbn. lia.
  - apply Forall_app in Hpos as [Hpos _].
    rewrite map_app in Hsorted, Hnodup. cbn [map] in Hsorted, Hnodup.
    destruct (sorted_snoc _ _ Hsorted) as [Hsorted' Hle].
    assert (Hnodup' : List.NoDup (map snd pre))
      by (apply NoDup_remove in Hnodup; rewrite app_nil_r in Hnodup; apply Hnodup).
    specialize (IH Hpos Hsorted' Hnodup').
    assert (Hle' : Forall (fun x : Z * string => (fst x <= fst r)%Z) pre).
    { apply List.Forall_forall. intros x Hx. rewrite List.Forall_forall in Hle. apply Hle.
      apply in_map. exact Hx. }
    destruct (serve_set windowMs max pre HW Hpos Hsorted' Hnodup') as (_ & _ & Hset).
    rewrite serve_log, (Hset (fst r) Hle').
    unfold let_through in *. rewrite List.filter_app, length_app. cbn [List.filter fst snd].
    destruct (max <=? _)%Z eqn:E; cbn [negb andb length]; [lia |].
    destruct ((T - windowMs <? fst r)%Z && (fst r <=? T)%Z) eqn:Ein; cbn [length]; [| lia].
    apply andb_true_iff in Ein as [Elo Ehi]. apply Z.ltb_lt in Elo. apply Z.leb_le in Ehi.
    apply Z.leb_gt in E. unfold zcard in E.
    pose proof (filter_length_times (fun t => (fst r - windowMs <? t)%Z)
                  (fun e => snd e && (T - windowMs <? fst e)%Z && (fst e <=? T)%Z)
                  (snd (serve windowMs max pre)) pre (serve_times windowMs max pre)) as Hlen.
    cbn beta in Hlen.
    assert (Himp : forall e : Z * bool,
              snd e && (T - windowMs <? fst e)%Z && (fst e <=? T)%Z = true ->
              (fst r - windowMs <? fst e)%Z = true).
    { intros e He. apply andb_true_iff in He as [He _]. apply andb_true_iff in He as [_ He].
      apply Z.ltb_lt in He. apply Z.ltb_lt. lia. }
    specialize (Hlen Himp). lia.
Qed.

Lemma rateLimiter_window_budget_witness :
  (Z.of_nat (length (let_through 1000 1600
                       (snd (serve 1000 2 [(1000%Z, "a"); (1200%Z, "b"); (1400%Z, "c");
                                           (1600%Z, "d"); (2100%Z, "e")])))) <= 2)%Z.
Proof.
  apply (rateLimiter_window_budget 1000 2
           [(1000%Z, "a"); (1200%Z, "b"); (1400%Z, "c"); (1600%Z, "d"); (2100%Z, "e")] 1600).
  - lia.
  - repeat constructor; cbn; lia.
  - repeat constructor; cbn; lia.
  - repeat constructor; cbn; intuition discriminate.
Defined.

End RateLimiterProofs.
